(** * OER C source generator of asn1tools: runtime helpers, generated codecs,
      dependency ordering and helper selection

    The development follows [asn1tools/c_source/oer.py].  That file is a
    Python generator whose output is C text.  Two layers are embedded:

    - the C functions held in the helper constants ([ENCODER_ALLOC],
      [DECODER_READ_BYTES], ...) become Rocq functions over explicit
      encoder and decoder records (module [Runtime]);
    - the Python methods [format_*_inner] become Rocq functions returning
      the denotation of the C lines they emit: a pair of state
      transformers over the C source and destination structures (module
      [Codegen]); Python exceptions are an explicit result type.

    [sort_user_types_by_used_user_types] and [generate_helpers] are plain
    list and string functions (modules [Order] and [Assembler]). *)

From Stdlib Require Import String Ascii ZArith List Bool Lia Permutation.
Import ListNotations.
Local Open Scope Z_scope.
Set Warnings "-register-all".

(** ** C integer conversions *)

Module C.

Definition to_uint8 (z : Z) : Z := z mod 2 ^ 8.
Definition to_uint16 (z : Z) : Z := z mod 2 ^ 16.
Definition to_uint32 (z : Z) : Z := z mod 2 ^ 32.
Definition to_uint64 (z : Z) : Z := z mod 2 ^ 64.
Definition to_size_t (z : Z) : Z := z mod 2 ^ 64.

(** Conversion to a signed type of [w] bits (two's complement wrap). *)
Definition to_signed (w : Z) (z : Z) : Z :=
  (z + 2 ^ (w - 1)) mod 2 ^ w - 2 ^ (w - 1).

Definition to_ssize_t (z : Z) : Z := to_signed 64 z.

End C.

(** ** Runtime helpers (the C text of the helper constants) *)

Module Runtime.
Import C.

(** Modelled from the spec: the error code macros are defined outside
    [oer.py] (only their names occur in it).  They are positive [errno]
    style codes; the values below stand for them and no theorem depends on
    anything but their sign. *)
Definition ENOMEM : Z := 12.
Definition EOUTOFDATA : Z := 500.
Definition EBADCHOICE : Z := 501.
Definition EBADLENGTH : Z := 502.

(** [struct encoder_t]: output buffer, capacity and cursor.  [e_oob] is
    ghost state, absent from the C structure: it records that some [memcpy]
    went outside [buf_p]. *)
Record encoder_t : Type := mk_encoder {
  e_buf_p : list Z;
  e_size : Z;
  e_pos : Z;
  e_oob : bool
}.

(** [struct decoder_t], with the same ghost flag for reads. *)
Record decoder_t : Type := mk_decoder {
  d_buf_p : list Z;
  d_size : Z;
  d_pos : Z;
  d_oob : bool
}.

(** [memcpy(&mem[pos], src, size)] and [memcpy(dst, &mem[pos], size)]. *)
Definition in_bounds (mem : list Z) (pos size : Z) : bool :=
  (0 <=? pos) && (pos + size <=? Z.of_nat (length mem)).

Definition memcpy_to (mem : list Z) (pos : Z) (src : list Z) : list Z :=
  firstn (Z.to_nat pos) mem ++ src
         ++ skipn (Z.to_nat pos + length src) mem.

Definition memcpy_from (mem : list Z) (pos size : Z) : list Z :=
  firstn (Z.to_nat size) (skipn (Z.to_nat pos) mem).

(** *** Encoder *)

Definition encoder_init (buf_p : list Z) (size : Z) : encoder_t :=
  {| e_buf_p := buf_p; e_size := to_ssize_t size; e_pos := 0;
     e_oob := false |}.

Definition encoder_get_result (self_p : encoder_t) : Z := e_pos self_p.

(** Modelled from the spec: [encoder_abort] ([ENCODER_ABORT] of
    [utils.py], not under src/).  The first error is latched: its negated
    code replaces both the cursor and the capacity, so that
    [encoder_get_result] reports it and every later allocation fails; a
    context that already holds an error is left as it is. *)
Definition encoder_abort (self_p : encoder_t) (error : Z) : encoder_t :=
  if 0 <=? e_pos self_p
  then {| e_buf_p := e_buf_p self_p; e_size := - error; e_pos := - error;
          e_oob := e_oob self_p |}
  else self_p.

Definition encoder_alloc (self_p : encoder_t) (size : Z) : encoder_t * Z :=
  if e_pos self_p + to_ssize_t size <=? e_size self_p
  then ({| e_buf_p := e_buf_p self_p; e_size := e_size self_p;
           e_pos := to_ssize_t (e_pos self_p + size);
           e_oob := e_oob self_p |},
        e_pos self_p)
  else (encoder_abort self_p ENOMEM, - ENOMEM).

(** [buf_p] is the list of the [size] bytes the C caller points at. *)
Definition encoder_append_bytes (self_p : encoder_t) (buf_p : list Z)
  : encoder_t :=
  let size := Z.of_nat (length buf_p) in
  let '(self_p, pos) := encoder_alloc self_p size in
  if pos <? 0 then self_p
  else if in_bounds (e_buf_p self_p) pos size
       then {| e_buf_p := memcpy_to (e_buf_p self_p) pos buf_p;
               e_size := e_size self_p; e_pos := e_pos self_p;
               e_oob := e_oob self_p |}
       else {| e_buf_p := e_buf_p self_p;
               e_size := e_size self_p; e_pos := e_pos self_p;
               e_oob := true |}.

Definition encoder_append_integer_8 (self_p : encoder_t) (value : Z)
  : encoder_t :=
  let value := to_uint8 value in
  encoder_append_bytes self_p [value].

Definition encoder_append_integer_16 (self_p : encoder_t) (value : Z)
  : encoder_t :=
  let value := to_uint16 value in
  encoder_append_bytes self_p
    [to_uint8 (Z.shiftr value 8); to_uint8 value].

Definition encoder_append_integer_32 (self_p : encoder_t) (value : Z)
  : encoder_t :=
  let value := to_uint32 value in
  encoder_append_bytes self_p
    [to_uint8 (Z.shiftr value 24); to_uint8 (Z.shiftr value 16);
     to_uint8 (Z.shiftr value 8); to_uint8 value].

Definition encoder_append_integer_64 (self_p : encoder_t) (value : Z)
  : encoder_t :=
  let value := to_uint64 value in
  encoder_append_bytes self_p
    [to_uint8 (Z.shiftr value 56); to_uint8 (Z.shiftr value 48);
     to_uint8 (Z.shiftr value 40); to_uint8 (Z.shiftr value 32);
     to_uint8 (Z.shiftr value 24); to_uint8 (Z.shiftr value 16);
     to_uint8 (Z.shiftr value 8); to_uint8 value].

Definition encoder_append_integer (self_p : encoder_t)
  (value number_of_bytes : Z) : encoder_t :=
  let value := to_uint32 value in
  let number_of_bytes := to_uint8 number_of_bytes in
  if number_of_bytes =? 1 then encoder_append_integer_8 self_p value
  else if number_of_bytes =? 2 then encoder_append_integer_16 self_p value
  else if number_of_bytes =? 3 then
    let self_p := encoder_append_integer_8 self_p (Z.shiftr value 16) in
    encoder_append_integer_16 self_p value
  else encoder_append_integer_32 self_p value.

(** A [float] or [double] is represented by its IEEE bit pattern: the C
    code only moves that pattern with [memcpy]. *)
Definition encoder_append_float (self_p : encoder_t) (value : Z)
  : encoder_t :=
  let i32 := to_uint32 value in
  encoder_append_integer_32 self_p i32.

Definition encoder_append_double (self_p : encoder_t) (value : Z)
  : encoder_t :=
  let i64 := to_uint64 value in
  encoder_append_integer_64 self_p i64.

Definition encoder_append_bool (self_p : encoder_t) (value : bool)
  : encoder_t :=
  encoder_append_integer_8 self_p (if value then 255 else 0).

Definition encoder_append_length_determinant (self_p : encoder_t)
  (length : Z) : encoder_t :=
  let length := to_uint32 length in
  if length <? 128 then encoder_append_integer_8 self_p length
  else if length <? 256 then
    let self_p := encoder_append_integer_8 self_p 0x81 in
    encoder_append_integer_8 self_p length
  else if length <? 65536 then
    let self_p := encoder_append_integer_8 self_p 0x82 in
    encoder_append_integer_16 self_p length
  else if length <? 16777216 then
    let length := to_uint32 (Z.lor length (Z.shiftl 0x83 24)) in
    encoder_append_integer_32 self_p length
  else
    let self_p := encoder_append_integer_8 self_p 0x84 in
    encoder_append_integer_32 self_p length.

(** *** Decoder *)

Definition decoder_init (buf_p : list Z) (size : Z) : decoder_t :=
  {| d_buf_p := buf_p; d_size := to_ssize_t size; d_pos := 0;
     d_oob := false |}.

Definition decoder_get_result (self_p : decoder_t) : Z := d_pos self_p.

(** Modelled from the spec: [decoder_abort] ([DECODER_ABORT] of
    [utils.py], not under src/), the mirror of [encoder_abort]. *)
Definition decoder_abort (self_p : decoder_t) (error : Z) : decoder_t :=
  if 0 <=? d_pos self_p
  then {| d_buf_p := d_buf_p self_p; d_size := - error; d_pos := - error;
          d_oob := d_oob self_p |}
  else self_p.

(** The C function is declared to return [size_t]. *)
Definition decoder_free (self_p : decoder_t) (size : Z) : decoder_t * Z :=
  if d_pos self_p + to_ssize_t size <=? d_size self_p
  then ({| d_buf_p := d_buf_p self_p; d_size := d_size self_p;
           d_pos := to_ssize_t (d_pos self_p + size);
           d_oob := d_oob self_p |},
        to_size_t (d_pos self_p))
  else (decoder_abort self_p EOUTOFDATA, to_size_t (- EOUTOFDATA)).

(** Returns the context and the [size] bytes stored at the caller's
    [buf_p]. *)
Definition decoder_read_bytes (self_p : decoder_t) (size : Z)
  : decoder_t * list Z :=
  let '(self_p, r) := decoder_free self_p size in
  let pos := to_ssize_t r in
  if 0 <=? pos
  then if in_bounds (d_buf_p self_p) pos size
       then (self_p, memcpy_from (d_buf_p self_p) pos size)
       else ({| d_buf_p := d_buf_p self_p; d_size := d_size self_p;
                d_pos := d_pos self_p; d_oob := true |},
             memcpy_from (d_buf_p self_p) pos size)
  else (self_p, repeat 0 (Z.to_nat size)).

Definition decoder_read_integer_8 (self_p : decoder_t) : decoder_t * Z :=
  let '(self_p, buf) := decoder_read_bytes self_p 1 in
  (self_p, nth 0 buf 0).

Definition decoder_read_integer_16 (self_p : decoder_t) : decoder_t * Z :=
  let '(self_p, buf) := decoder_read_bytes self_p 2 in
  (self_p, to_uint16 (Z.lor (Z.shiftl (nth 0 buf 0) 8) (nth 1 buf 0))).

Definition decoder_read_integer_32 (self_p : decoder_t) : decoder_t * Z :=
  let '(self_p, buf) := decoder_read_bytes self_p 4 in
  (self_p,
   to_uint32
     (Z.lor (Z.lor (Z.lor (Z.shiftl (nth 0 buf 0) 24)
                          (Z.shiftl (nth 1 buf 0) 16))
                   (Z.shiftl (nth 2 buf 0) 8))
            (nth 3 buf 0))).

Definition decoder_read_integer_64 (self_p : decoder_t) : decoder_t * Z :=
  let '(self_p, buf) := decoder_read_bytes self_p 8 in
  (self_p,
   to_uint64
     (Z.lor (Z.lor (Z.lor (Z.lor (Z.lor (Z.lor (Z.lor
        (Z.shiftl (nth 0 buf 0) 56)
        (Z.shiftl (nth 1 buf 0) 48))
        (Z.shiftl (nth 2 buf 0) 40))
        (Z.shiftl (nth 3 buf 0) 32))
        (Z.shiftl (nth 4 buf 0) 24))
        (Z.shiftl (nth 5 buf 0) 16))
        (Z.shiftl (nth 6 buf 0) 8))
        (nth 7 buf 0))).

(** In [case 3] the two reads are operands of one [|]; they are taken left
    to right. *)
Definition decoder_read_integer (self_p : decoder_t) (number_of_bytes : Z)
  : decoder_t * Z :=
  let number_of_bytes := to_uint8 number_of_bytes in
  if number_of_bytes =? 1 then decoder_read_integer_8 self_p
  else if number_of_bytes =? 2 then decoder_read_integer_16 self_p
  else if number_of_bytes =? 3 then
    let '(self_p, hi) := decoder_read_integer_8 self_p in
    let '(self_p, lo) := decoder_read_integer_16 self_p in
    (self_p, to_uint32 (Z.lor (Z.shiftl hi 16) lo))
  else if number_of_bytes =? 4 then decoder_read_integer_32 self_p
  else (self_p, 0xffffffff).

Definition decoder_read_float (self_p : decoder_t) : decoder_t * Z :=
  decoder_read_integer_32 self_p.

Definition decoder_read_double (self_p : decoder_t) : decoder_t * Z :=
  decoder_read_integer_64 self_p.

Definition decoder_read_bool (self_p : decoder_t) : decoder_t * bool :=
  let '(self_p, value) := decoder_read_integer_8 self_p in
  (self_p, negb (value =? 0)).

Definition decoder_read_length_determinant (self_p : decoder_t)
  : decoder_t * Z :=
  let '(self_p, length) := decoder_read_integer_8 self_p in
  if negb (Z.land length 0x80 =? 0) then
    let sel := Z.land length 0x7f in
    if sel =? 1 then decoder_read_integer_8 self_p
    else if sel =? 2 then decoder_read_integer_16 self_p
    else if sel =? 3 then
      let '(self_p, hi) := decoder_read_integer_8 self_p in
      let '(self_p, lo) := decoder_read_integer_16 self_p in
      (self_p, to_uint32 (Z.lor (Z.shiftl hi 16) lo))
    else if sel =? 4 then decoder_read_integer_32 self_p
    else (self_p, 0xffffffff)
  else (self_p, length).

(** The bytes produced so far: the buffer up to the cursor. *)
Definition written (self_p : encoder_t) : list Z :=
  firstn (Z.to_nat (e_pos self_p)) (e_buf_p self_p).

End Runtime.

(** ** Generated encoders and decoders ([format_*_inner]) *)

Module Codegen.
Import C Runtime.

(** *** Python exceptions *)

Inductive exn : Type :=
| Error (msg : string)
| NotImplementedError (msg : string)
| IndexError.

Inductive result (A : Type) : Type :=
| Ok (a : A)
| Raise (e : exn).
Arguments Ok {A} a.
Arguments Raise {A} e.

Definition bind {A B : Type} (r : result A) (k : A -> result B) : result B :=
  match r with
  | Ok a => k a
  | Raise e => Raise e
  end.
Notation "x <- r ;; k" := (bind r (fun x => k))
  (at level 61, r at next level, right associativity).

(** *** Compiled types

    The classes of [asn1tools.codecs.oer] are not under src/; the
    constructors below are the classes [oer.py] tests with [isinstance].
    Every compiled type object carries the attributes [name], [optional],
    [default] and [tag] that the generator reads when the object is a
    member.  The constraints checker is a parallel tree of the same shape;
    each node here carries the [minimum] and [maximum] that the source reads
    from the checker at that node. *)

Record attrs : Type := mk_attrs {
  name : string;
  optional : bool;
  default : option Z;
  tag : list Z
}.

Inductive type_ : Type :=
| Integer (a : attrs) (minimum maximum : Z)
| Boolean (a : attrs)
| Real (a : attrs) (fmt : option string)
| Null (a : attrs)
| UserTypeRef (a : attrs) (type_name module_name : string)
| OctetString (a : attrs) (minimum maximum : Z)
| Sequence (a : attrs) (root_members : list type_)
| Choice (a : attrs) (root_members : list type_)
| SequenceOf (a : attrs) (minimum maximum : Z) (element_type : type_)
| Enumerated (a : attrs)
| UTF8String (a : attrs)
| OtherType (a : attrs) (type_name : string).

Definition attrs_of (t : type_) : attrs :=
  match t with
  | Integer a _ _ | Boolean a | Real a _ | Null a | UserTypeRef a _ _
  | OctetString a _ _ | Sequence a _ | Choice a _ | SequenceOf a _ _ _
  | Enumerated a | UTF8String a | OtherType a _ => a
  end.

(** *** C integer types and [format_type_name] *)

Inductive c_int : Type :=
| int8_t | uint8_t | int16_t | uint16_t
| int32_t | uint32_t | int64_t | uint64_t.

(** Modelled from the spec: [format_type_name] of [utils.py] (not under
    src/).  The width is one of 8, 16, 32 and 64 bits, resolved from the
    checker's minimum and maximum: the narrowest type holding both bounds,
    unsigned when the minimum is not negative. *)
Definition format_type_name (minimum maximum : Z) : c_int :=
  if 0 <=? minimum then
    if maximum <? 2 ^ 8 then uint8_t
    else if maximum <? 2 ^ 16 then uint16_t
    else if maximum <? 2 ^ 32 then uint32_t
    else uint64_t
  else
    if (- 2 ^ 7 <=? minimum) && (maximum <? 2 ^ 7) then int8_t
    else if (- 2 ^ 15 <=? minimum) && (maximum <? 2 ^ 15) then int16_t
    else if (- 2 ^ 31 <=? minimum) && (maximum <? 2 ^ 31) then int32_t
    else int64_t.

(** The dictionary literal of [format_integer_inner]. *)
Definition length_of_type_name (type_name : c_int) : Z :=
  match type_name with
  | int8_t => 8 | uint8_t => 8
  | int16_t => 16 | uint16_t => 16
  | int32_t => 32 | uint32_t => 32
  | int64_t => 64 | uint64_t => 64
  end.

(** Conversion on assignment to an object of the given C type. *)
Definition c_convert (type_name : c_int) (z : Z) : Z :=
  match type_name with
  | int8_t => to_signed 8 z | uint8_t => to_uint8 z
  | int16_t => to_signed 16 z | uint16_t => to_uint16 z
  | int32_t => to_signed 32 z | uint32_t => to_uint32 z
  | int64_t => to_signed 64 z | uint64_t => to_uint64 z
  end.

(** *** Values of the generated C structures

    [VInt] is any scalar (integers, [bool] as 0 or 1, the bit pattern of a
    [float] or [double]); [VEnum] an enumerator of a choice
    ([..._choice_<name>_e]); [VStruct] a structure or union by member name;
    [VArray] an array. *)

Inductive value : Type :=
| VInt (z : Z)
| VEnum (e : string)
| VStruct (fields : list (string * value))
| VArray (elements : list value).

Definition as_Z (v : value) : Z :=
  match v with VInt z => z | _ => 0 end.

Definition as_bool (v : value) : bool := negb (as_Z v =? 0).

Definition of_bool (b : bool) : value := VInt (if b then 1 else 0).

Fixpoint assoc {A : Type} (k : string) (l : list (string * A)) : option A :=
  match l with
  | [] => None
  | (k', x) :: rest => if String.eqb k k' then Some x else assoc k rest
  end.

Fixpoint assoc_set {A : Type} (k : string) (x : A) (l : list (string * A))
  : list (string * A) :=
  match l with
  | [] => [(k, x)]
  | (k', y) :: rest =>
      if String.eqb k k' then (k, x) :: rest else (k', y) :: assoc_set k x rest
  end.

(** [p->f] read and written. *)
Definition get_field (f : string) (v : value) : value :=
  match v with
  | VStruct fields =>
      match assoc f fields with Some x => x | None => VInt 0 end
  | _ => VInt 0
  end.

Definition set_field (f : string) (x : value) (v : value) : value :=
  match v with
  | VStruct fields => VStruct (assoc_set f x fields)
  | _ => VStruct [(f, x)]
  end.

(** [a[i]] read and written.  An array holds the elements that were
    stored; the capacity of the C array is not part of the embedding, and an
    element that was never stored reads as 0. *)
Definition get_elem (i : nat) (v : value) : value :=
  match v with
  | VArray elements => nth i elements (VInt 0)
  | _ => VInt 0
  end.

Fixpoint list_set {A : Type} (d : A) (i : nat) (x : A) (l : list A) : list A :=
  match i, l with
  | O, [] => [x]
  | O, _ :: rest => x :: rest
  | S i, [] => d :: list_set d i x []
  | S i, y :: rest => y :: list_set d i x rest
  end.

Definition set_elem (i : nat) (x : value) (v : value) : value :=
  match v with
  | VArray elements => VArray (list_set (VInt 0) i x elements)
  | _ => VArray (list_set (VInt 0) i x [])
  end.

(** The first [size] bytes of [&p->buf[0]]; bytes that were never stored
    read as 0, as for [get_elem]. *)
Definition bytes_of (v : value) (size : Z) : list Z :=
  map (fun i => as_Z (get_elem i v)) (seq 0 (Z.to_nat size)).

Definition of_bytes (l : list Z) : value := VArray (map VInt l).

(** *** Denotation of generated lines

    [encode] is what the encode lines do to the encoder given the object
    at the current location of [src_p]; [decode] what the decode lines do to
    the decoder and to the object at the current location of [dst_p].  The
    boolean of a decode result is set when a [return;] was executed: the
    rest of the lines of the enclosing function is then skipped. *)

Definition dres : Type := bool * decoder_t * value.

Record codec : Type := mk_codec {
  encode : value -> encoder_t -> encoder_t;
  decode : value -> decoder_t -> dres
}.

(** Decode lines that act on member [f] of the destination. *)
Definition decode_field (c : codec) (f : string) (dst : value)
  (d : decoder_t) : dres :=
  let '(ret, d, v) := decode c (get_field f dst) d in
  (ret, d, set_field f v dst).

Definition encoder_append_integer_ (length : Z) (e : encoder_t) (z : Z)
  : encoder_t :=
  if length =? 8 then encoder_append_integer_8 e z
  else if length =? 16 then encoder_append_integer_16 e z
  else if length =? 32 then encoder_append_integer_32 e z
  else encoder_append_integer_64 e z.

Definition decoder_read_integer_ (length : Z) (d : decoder_t)
  : decoder_t * Z :=
  if length =? 8 then decoder_read_integer_8 d
  else if length =? 16 then decoder_read_integer_16 d
  else if length =? 32 then decoder_read_integer_32 d
  else decoder_read_integer_64 d.

Definition format_integer_inner (minimum maximum : Z) : codec :=
  let type_name := format_type_name minimum maximum in
  let length := length_of_type_name type_name in
  {| encode := fun src e => encoder_append_integer_ length e (as_Z src);
     decode := fun dst d =>
       let '(d, v) := decoder_read_integer_ length d in
       (false, d, VInt (c_convert type_name v)) |}.

Definition format_boolean_inner : codec :=
  {| encode := fun src e => encoder_append_bool e (as_bool src);
     decode := fun dst d =>
       let '(d, b) := decoder_read_bool d in
       (false, d, of_bool b) |}.

Definition format_real_inner (fmt : option string) : codec :=
  if match fmt with Some f => String.eqb f ">f" | None => false end
  then {| encode := fun src e => encoder_append_float e (as_Z src);
          decode := fun dst d =>
            let '(d, v) := decoder_read_float d in (false, d, VInt v) |}
  else {| encode := fun src e => encoder_append_double e (as_Z src);
          decode := fun dst d =>
            let '(d, v) := decoder_read_double d in (false, d, VInt v) |}.

Definition format_enumerated_inner : codec :=
  {| encode := fun src e => encoder_append_integer_8 e (as_Z src);
     decode := fun dst d =>
       let '(d, v) := decoder_read_integer_8 d in (false, d, VInt v) |}.

(** [(void)encoder_p; (void)src_p;], and the empty lists that
    [format_type_inner] returns for a NULL member. *)
Definition format_null_inner : codec :=
  {| encode := fun src e => e;
     decode := fun dst d => (false, d, dst) |}.

(** The [length] member of the C structure is declared by
    [format_octet_string] of [utils.py] (not under src/).  The decode lines
    are given for the lengths that this member holds: the length read is
    stored as it is, without the conversion to the member's type. *)
Definition format_octet_string_inner (minimum maximum : Z) : codec :=
  if minimum =? maximum then
    {| encode := fun src e =>
         encoder_append_bytes e (bytes_of (get_field "buf" src) maximum);
       decode := fun dst d =>
         let '(d, buf) := decoder_read_bytes d maximum in
         (false, d, set_field "buf" (of_bytes buf) dst) |}
  else if maximum <? 128 then
    {| encode := fun src e =>
         let length := as_Z (get_field "length" src) in
         let e := encoder_append_integer_8 e length in
         encoder_append_bytes e (bytes_of (get_field "buf" src) length);
       decode := fun dst d =>
         let '(d, length) := decoder_read_integer_8 d in
         let dst := set_field "length" (VInt length) dst in
         if maximum <? length then (true, decoder_abort d EBADLENGTH, dst)
         else
           let '(d, buf) := decoder_read_bytes d length in
           (false, d, set_field "buf" (of_bytes buf) dst) |}
  else
    {| encode := fun src e =>
         let length := as_Z (get_field "length" src) in
         let e := encoder_append_length_determinant e length in
         encoder_append_bytes e (bytes_of (get_field "buf" src) length);
       decode := fun dst d =>
         let '(d, length) := decoder_read_length_determinant d in
         let dst := set_field "length" (VInt length) dst in
         if maximum <? length then (true, decoder_abort d EBADLENGTH, dst)
         else
           let '(d, buf) := decoder_read_bytes d length in
           (false, d, set_field "buf" (of_bytes buf) dst) |}.

(** The generated call [<prefix>_encode_inner(encoder_p, &src_p->loc)]:
    [env] gives the inner functions of the other user types.  A [return;]
    inside the callee ends the callee only. *)
Definition format_user_type_inner (env : string -> string -> codec)
  (type_name module_name : string) : codec :=
  {| encode := fun src e => encode (env type_name module_name) src e;
     decode := fun dst d =>
       let '(_, d, v) := decode (env type_name module_name) dst d in
       (false, d, v) |}.

(** **** SEQUENCE *)

Definition in_optionals (a : attrs) : bool :=
  optional a
  || match default a with Some _ => true | None => false end.

Definition is_present (member_name : string) : string :=
  ("is_" ++ member_name ++ "_present")%string.

(** [byte, bit = divmod(i, 8)] and [mask = 1 << (7 - bit)]. *)
Definition mask_byte (i : nat) : nat := Nat.div i 8.
Definition mask_of (i : nat) : Z :=
  Z.shiftl 1 (7 - Z.of_nat (Nat.modulo i 8)).

(** [present_mask[byte] |= mask;] on an array of [uint8_t]. *)
Fixpoint or_at (byte : nat) (mask : Z) (present_mask : list Z) : list Z :=
  match byte, present_mask with
  | _, [] => []
  | O, x :: rest => to_uint8 (Z.lor x mask) :: rest
  | S byte, x :: rest => x :: or_at byte mask rest
  end.

(** [(present_mask[byte] & mask) == mask]. *)
Definition mask_test (present_mask : list Z) (byte : nat) (mask : Z) : bool :=
  Z.land (nth byte present_mask 0) mask =? mask.

(** The condition of the generated [if] that sets the bit of member [a]. *)
Definition encode_condition (a : attrs) (src : value) : bool :=
  if optional a then as_bool (get_field (is_present (name a)) src)
  else match default a with
       | Some dflt => negb (as_Z (get_field (name a) src) =? dflt)
       | None => true
       end.

(** The encode lines of the loop over [enumerate(optionals)], from index
    [i] on. *)
Fixpoint encode_present_mask {A : Type} (optionals : list (attrs * A))
  (i : nat) (src : value) (present_mask : list Z) : list Z :=
  match optionals with
  | [] => present_mask
  | (a, _) :: rest =>
      let present_mask :=
        if encode_condition a src
        then or_at (mask_byte i) (mask_of i) present_mask
        else present_mask in
      encode_present_mask rest (S i) src present_mask
  end.

(** The decode lines of the same loop: only optional members get one. *)
Fixpoint decode_present_flags {A : Type} (optionals : list (attrs * A))
  (i : nat) (present_mask : list Z) (dst : value) : value :=
  match optionals with
  | [] => dst
  | (a, _) :: rest =>
      let dst :=
        if optional a
        then set_field (is_present (name a))
               (of_bool (mask_test present_mask (mask_byte i) (mask_of i)))
               dst
        else dst in
      decode_present_flags rest (S i) present_mask dst
  end.

(** [member_name_to_mask] and [member_name_to_present_mask]: a dictionary,
    so a later member of the same name replaces an earlier one. *)
Fixpoint member_name_to_mask {A : Type} (optionals : list (attrs * A))
  (i : nat) (table : list (string * (nat * Z))) : list (string * (nat * Z)) :=
  match optionals with
  | [] => table
  | (a, _) :: rest =>
      member_name_to_mask rest (S i)
        ((name a, (mask_byte i, mask_of i)) :: table)
  end.

Definition lookup_mask (table : list (string * (nat * Z))) (n : string)
  : nat * Z :=
  match assoc n table with Some bm => bm | None => (O, 0) end.

(** The encode lines of the loop over [type_.root_members]. *)
Fixpoint encode_members (members : list (attrs * codec)) (src : value)
  (e : encoder_t) : encoder_t :=
  match members with
  | [] => e
  | (a, c) :: rest =>
      let member_encode := encode c (get_field (name a) src) in
      let e :=
        if optional a then
          if as_bool (get_field (is_present (name a)) src)
          then member_encode e else e
        else match default a with
             | Some dflt =>
                 if negb (as_Z (get_field (name a) src) =? dflt)
                 then member_encode e else e
             | None => member_encode e
             end in
      encode_members rest src e
  end.

(** The decode lines of one member. *)
Definition decode_member (table : list (string * (nat * Z)))
  (present_mask : list Z) (a : attrs) (c : codec) (dst : value)
  (d : decoder_t) : dres :=
  if optional a then
    if as_bool (get_field (is_present (name a)) dst)
    then decode_field c (name a) dst d
    else (false, d, dst)
  else match default a with
       | Some dflt =>
           let '(byte, mask) := lookup_mask table (name a) in
           if mask_test present_mask byte mask
           then decode_field c (name a) dst d
           else (false, d, set_field (name a) (VInt dflt) dst)
       | None => decode_field c (name a) dst d
       end.

Fixpoint decode_members (table : list (string * (nat * Z)))
  (present_mask : list Z) (members : list (attrs * codec)) (dst : value)
  (d : decoder_t) : dres :=
  match members with
  | [] => (false, d, dst)
  | (a, c) :: rest =>
      let '(ret, d, dst) := decode_member table present_mask a c dst d in
      if ret then (true, d, dst)
      else decode_members table present_mask rest dst d
  end.

(** [members] pairs every root member with the lines that
    [format_type_inner] returned for it.  The base class calls
    [get_member_checker] and [add_unique_variable] of [utils.py] (not under
    src/) are taken to return: the checker of a member is the node of the
    member itself, and the variable is the mask bound below. *)
Definition format_sequence_inner (members : list (attrs * codec)) : codec :=
  let optionals := filter (fun m => in_optionals (fst m)) members in
  let present_mask_length := Nat.div (length optionals + 7) 8 in
  {| encode := fun src e =>
       let e :=
         if (0 <? present_mask_length)%nat then
           let present_mask := repeat 0 present_mask_length in
           let present_mask :=
             encode_present_mask optionals 0 src present_mask in
           encoder_append_bytes e present_mask
         else e in
       encode_members members src e;
     decode := fun dst d =>
       if (0 <? present_mask_length)%nat then
         let '(d, present_mask) :=
           decoder_read_bytes d (Z.of_nat present_mask_length) in
         let dst := decode_present_flags optionals 0 present_mask dst in
         decode_members (member_name_to_mask optionals 0 []) present_mask
           members dst d
       else decode_members [] [] members dst d |}.

(** **** CHOICE *)

(** The loop over [type_.root_members]: the member's own lines are
    generated first, then its tag is checked and unpacked. *)
Fixpoint choice_members (members : list (attrs * result codec))
  : result (list (Z * attrs * codec)) :=
  match members with
  | [] => Ok []
  | (a, r) :: rest =>
      c <- r ;;
      match tag a with
      | [t] =>
          cases <- choice_members rest ;;
          Ok ((t, a, c) :: cases)
      | _ =>
          Raise (NotImplementedError
                   "CHOICE tags of more than one byte are not yet supported.")
      end
  end.

(** [switch (src_p->choice)] over the generated [case] labels. *)
Fixpoint choice_encode (cases : list (Z * attrs * codec)) (src : value)
  (e : encoder_t) : encoder_t :=
  match cases with
  | [] => encoder_abort e EBADCHOICE
  | (t, a, c) :: rest =>
      match get_field "choice" src with
      | VEnum n =>
          if String.eqb n (name a) then
            let e := encoder_append_integer_8 e t in
            encode c (get_field (name a) (get_field "value" src)) e
          else choice_encode rest src e
      | _ => choice_encode rest src e
      end
  end.

(** [switch (tag)] over the generated [case 0x..] labels. *)
Fixpoint choice_decode (cases : list (Z * attrs * codec)) (tag_ : Z)
  (dst : value) (d : decoder_t) : dres :=
  match cases with
  | [] => (false, decoder_abort d EBADCHOICE, dst)
  | (t, a, c) :: rest =>
      if tag_ =? t then
        let dst := set_field "choice" (VEnum (name a)) dst in
        let '(ret, d, v) :=
          decode_field c (name a) (get_field "value" dst) d in
        (ret, d, set_field "value" v dst)
      else choice_decode rest tag_ dst d
  end.

(** The base class calls [get_member_checker] and
    [add_unique_decode_variable] of [utils.py] (not under src/) are taken to
    return: the checker of an alternative is the node of the alternative
    itself, and the variable is the tag bound below. *)
Definition format_choice_inner (members : list (attrs * result codec))
  : result codec :=
  cases <- choice_members members ;;
  Ok {| encode := fun src e => choice_encode cases src e;
        decode := fun dst d =>
          let '(d, tag_) := decoder_read_integer_8 d in
          choice_decode cases tag_ dst d |}.

(** **** SEQUENCE OF *)

(** [for (i = from; i < from + count; i++)] around the element's encode
    lines.  The counter has the type [format_type_name(0, maximum)], wide
    enough for every index below the bound. *)
Fixpoint encode_elements (element : codec) (count : nat) (i : nat)
  (src : value) (e : encoder_t) : encoder_t :=
  match count with
  | O => e
  | S count =>
      let e := encode element (get_elem i (get_field "elements" src)) e in
      encode_elements element count (S i) src e
  end.

Fixpoint decode_elements (element : codec) (count : nat) (i : nat)
  (dst : value) (d : decoder_t) : dres :=
  match count with
  | O => (false, d, dst)
  | S count =>
      let elements := get_field "elements" dst in
      let '(ret, d, v) := decode element (get_elem i elements) d in
      let dst := set_field "elements" (set_elem i v elements) dst in
      if ret then (true, d, dst)
      else decode_elements element count (S i) dst d
  end.

(** [int.bit_length()] of a non-negative number. *)
Definition bit_length (z : Z) : Z :=
  if z =? 0 then 0 else Z.log2 (Z.abs z) + 1.

(** The [length] member of the C structure is declared by
    [format_sequence_of] of [utils.py] (not under src/).  The decode lines
    are given for the counts that this member holds: the count read is
    stored as it is, without the conversion to the member's type.  The
    variables that [add_unique_variable] and [add_unique_decode_variable]
    of the base class name are the bound variables below. *)
Definition format_sequence_of_inner (minimum maximum : Z)
  (element : result codec) : result codec :=
  element <- element ;;
  if minimum =? maximum then
    Ok {| encode := fun src e =>
            let e := encoder_append_integer_8 e 1 in
            let e := encoder_append_integer_8 e maximum in
            encode_elements element (Z.to_nat maximum) 0 src e;
          decode := fun dst d =>
            let '(d, number_of_length_bytes) := decoder_read_integer_8 d in
            let '(d, length) := decoder_read_integer_8 d in
            if negb (number_of_length_bytes =? 1) || (maximum <? length)
            then (true, decoder_abort d EBADLENGTH, dst)
            else decode_elements element (Z.to_nat maximum) 0 dst d |}
  else
    let number_of_length_bytes := (bit_length maximum + 7) / 8 in
    Ok {| encode := fun src e =>
            let e := encoder_append_integer_8 e number_of_length_bytes in
            let length := as_Z (get_field "length" src) in
            let e := encoder_append_integer e length number_of_length_bytes in
            encode_elements element (Z.to_nat length) 0 src e;
          decode := fun dst d =>
            let '(d, number_of_length_bytes) := decoder_read_integer_8 d in
            let '(d, length) :=
              decoder_read_integer d number_of_length_bytes in
            let dst := set_field "length" (VInt length) dst in
            if maximum <? length
            then (true, decoder_abort d EBADLENGTH, dst)
            else decode_elements element (Z.to_nat length) 0 dst d |}.

(** **** Dispatch on the type *)

Section WithUserTypes.

(** The inner functions generated for the other user types. *)
Variable env : string -> string -> codec.

Fixpoint format_type_inner (type : type_) : result codec :=
  match type with
  | Integer _ minimum maximum => Ok (format_integer_inner minimum maximum)
  | Real _ fmt => Ok (format_real_inner fmt)
  | Null _ => Ok format_null_inner
  | Boolean _ => Ok format_boolean_inner
  | UserTypeRef _ type_name module_name =>
      Ok (format_user_type_inner env type_name module_name)
  | OctetString _ minimum maximum =>
      Ok (format_octet_string_inner minimum maximum)
  | Sequence _ root_members =>
      members <-
        (fix members_inner (l : list type_) : result (list (attrs * codec)) :=
           match l with
           | [] => Ok []
           | member :: rest =>
               c <- format_type_inner member ;;
               cs <- members_inner rest ;;
               Ok ((attrs_of member, c) :: cs)
           end) root_members ;;
      Ok (format_sequence_inner members)
  | Choice _ root_members =>
      format_choice_inner
        (map (fun member => (attrs_of member, format_type_inner member))
             root_members)
  | SequenceOf _ minimum maximum element_type =>
      format_sequence_of_inner minimum maximum
        (format_type_inner element_type)
  | Enumerated _ => Ok format_enumerated_inner
  | UTF8String _ => Raise (NotImplementedError "UTF8String")
  | OtherType _ type_name => Raise (NotImplementedError type_name)
  end.

(** The body of the inner functions of a user type.  A type of any other
    class gets empty bodies. *)
Definition generate_definition_inner (type : type_) : result codec :=
  match type with
  | Integer _ minimum maximum => Ok (format_integer_inner minimum maximum)
  | Boolean _ => Ok format_boolean_inner
  | Real _ fmt => Ok (format_real_inner fmt)
  | Sequence _ _ | SequenceOf _ _ _ _ | Choice _ _ => format_type_inner type
  | OctetString _ minimum maximum =>
      Ok (format_octet_string_inner minimum maximum)
  | Enumerated _ => Ok format_enumerated_inner
  | Null _ => Ok format_null_inner
  | _ => Ok format_null_inner
  end.

End WithUserTypes.

End Codegen.

(** ** Dependency ordering of the emitted user types *)

Module Order.
Import Codegen.

(** [UserType] of [utils.py]: what [generate] emits for one user type.
    [definition_inner] is the pair of inner functions, held by denotation;
    [used_user_types] the [(type_name, module_name)] pairs of the user types
    this one refers to. *)
Record UserType : Type := mk_UserType {
  type_name : string;
  module_name : string;
  type_declaration : list string;
  declaration : string;
  definition_inner : codec;
  definition : string;
  used_user_types : list (string * string)
}.

Definition name_tuple_eqb (x y : string * string) : bool :=
  String.eqb (fst x) (fst y) && String.eqb (snd x) (snd y).

(** [user_type_name_tuple in reversed_sorted_user_type.used_user_types] *)
Definition uses (user : UserType) (name_tuple : string * string) : bool :=
  existsb (name_tuple_eqb name_tuple) (used_user_types user).

(** The inner loop over [enumerate(reversed_sorted_user_types, 1)]. *)
Fixpoint find_insert_index (name_tuple : string * string)
  (reversed_sorted_user_types : list UserType) (i insert_index : nat) : nat :=
  match reversed_sorted_user_types with
  | [] => insert_index
  | reversed_sorted_user_type :: rest =>
      let insert_index :=
        if uses reversed_sorted_user_type name_tuple
        then if (insert_index <? i)%nat then i else insert_index
        else insert_index in
      find_insert_index name_tuple rest (S i) insert_index
  end.

(** [list.insert(index, x)] *)
Definition list_insert {A : Type} (index : nat) (x : A) (l : list A) : list A :=
  firstn index l ++ x :: skipn index l.

Definition sort_user_types_by_used_user_types (user_types : list UserType)
  : list UserType :=
  let reversed_sorted_user_types :=
    fold_left
      (fun reversed_sorted_user_types user_type =>
         let user_type_name_tuple :=
           (type_name user_type, module_name user_type) in
         let insert_index :=
           find_insert_index user_type_name_tuple
             reversed_sorted_user_types 1 0 in
         list_insert insert_index user_type reversed_sorted_user_types)
      user_types [] in
  rev reversed_sorted_user_types.

(** Position of the unit of a given name in an emitted order. *)
Fixpoint position (name_tuple : string * string) (l : list UserType)
  : option nat :=
  match l with
  | [] => None
  | u :: rest =>
      if name_tuple_eqb name_tuple (type_name u, module_name u) then Some O
      else option_map S (position name_tuple rest)
  end.

End Order.

(** ** Selection of the runtime helpers *)

Module Assembler.

Local Open Scope string_scope.

Definition ENCODER_INIT : string :=
"static void encoder_init(struct encoder_t *self_p,
                         uint8_t *buf_p,
                         size_t size)
{
    self_p->buf_p = buf_p;
    self_p->size = size;
    self_p->pos = 0;
}".

Definition ENCODER_GET_RESULT : string :=
"
static ssize_t encoder_get_result(struct encoder_t *self_p)
{
    return (self_p->pos);
}".

Definition ENCODER_ALLOC : string :=
"
static ssize_t encoder_alloc(struct encoder_t *self_p,
                             size_t size)
{
    ssize_t pos;

    if (self_p->pos + (ssize_t)size <= self_p->size) {
        pos = self_p->pos;
        self_p->pos += size;
    } else {
        pos = -ENOMEM;
        encoder_abort(self_p, ENOMEM);
    }

    return (pos);
}".

Definition ENCODER_APPEND_BYTES : string :=
"
static void encoder_append_bytes(struct encoder_t *self_p,
                                 const uint8_t *buf_p,
                                 size_t size)
{
    ssize_t pos;

    pos = encoder_alloc(self_p, size);

    if (pos < 0) {
        return;
    }

    memcpy(&self_p->buf_p[pos], buf_p, size);
}".

Definition ENCODER_APPEND_INTEGER_8 : string :=
"
static void encoder_append_integer_8(struct encoder_t *self_p,
                                     uint8_t value)
{
    encoder_append_bytes(self_p, &value, sizeof(value));
}".

Definition ENCODER_APPEND_INTEGER_16 : string :=
"
static void encoder_append_integer_16(struct encoder_t *self_p,
                                      uint16_t value)
{
    uint8_t buf[2];

    buf[0] = (value >> 8);
    buf[1] = value;

    encoder_append_bytes(self_p, &buf[0], sizeof(buf));
}".

Definition ENCODER_APPEND_INTEGER_32 : string :=
"
static void encoder_append_integer_32(struct encoder_t *self_p,
                                      uint32_t value)
{
    uint8_t buf[4];

    buf[0] = (value >> 24);
    buf[1] = (value >> 16);
    buf[2] = (value >> 8);
    buf[3] = value;

    encoder_append_bytes(self_p, &buf[0], sizeof(buf));
}".

Definition ENCODER_APPEND_INTEGER_64 : string :=
"
static void encoder_append_integer_64(struct encoder_t *self_p,
                                      uint64_t value)
{
    uint8_t buf[8];

    buf[0] = (value >> 56);
    buf[1] = (value >> 48);
    buf[2] = (value >> 40);
    buf[3] = (value >> 32);
    buf[4] = (value >> 24);
    buf[5] = (value >> 16);
    buf[6] = (value >> 8);
    buf[7] = value;

    encoder_append_bytes(self_p, &buf[0], sizeof(buf));
}".

Definition ENCODER_APPEND_INTEGER : string :=
"
static void encoder_append_integer(struct encoder_t *self_p,
                                   uint32_t value,
                                   uint8_t number_of_bytes)
{
    switch (number_of_bytes) {

    case 1:
        encoder_append_integer_8(self_p, value);
        break;

    case 2:
        encoder_append_integer_16(self_p, value);
        break;

    case 3:
        encoder_append_integer_8(self_p, value >> 16);
        encoder_append_integer_16(self_p, value);
        break;

    default:
        encoder_append_integer_32(self_p, value);
        break;
    }
}".

Definition ENCODER_APPEND_FLOAT : string :=
"
static void encoder_append_float(struct encoder_t *self_p,
                                 float value)
{
    uint32_t i32;

    memcpy(&i32, &value, sizeof(i32));

    encoder_append_integer_32(self_p, i32);
}".

Definition ENCODER_APPEND_DOUBLE : string :=
"
static void encoder_append_double(struct encoder_t *self_p,
                                  double value)
{
    uint64_t i64;

    memcpy(&i64, &value, sizeof(i64));

    encoder_append_integer_64(self_p, i64);
}".

Definition ENCODER_APPEND_BOOL : string :=
"
static void encoder_append_bool(struct encoder_t *self_p, bool value)
{
    encoder_append_integer_8(self_p, value ? 255 : 0);
}".

Definition ENCODER_APPEND_LENGTH_DETERMINANT : string :=
"
static void encoder_append_length_determinant(struct encoder_t *self_p,
                                              uint32_t length)
{
    if (length < 128) {
        encoder_append_integer_8(self_p, length);
    } else if (length < 256) {
        encoder_append_integer_8(self_p, 0x81);
        encoder_append_integer_8(self_p, length);
    } else if (length < 65536) {
        encoder_append_integer_8(self_p, 0x82);
        encoder_append_integer_16(self_p, length);
    } else if (length < 16777216) {
        length |= (0x83 << 24);
        encoder_append_integer_32(self_p, length);
    } else {
        encoder_append_integer_8(self_p, 0x84);
        encoder_append_integer_32(self_p, length);
    }
}".

Definition DECODER_INIT : string :=
"
static void decoder_init(struct decoder_t *self_p,
                         const uint8_t *buf_p,
                         size_t size)
{
    self_p->buf_p = buf_p;
    self_p->size = size;
    self_p->pos = 0;
}".

Definition DECODER_GET_RESULT : string :=
"
static ssize_t decoder_get_result(struct decoder_t *self_p)
{
    return (self_p->pos);
}".

Definition DECODER_FREE : string :=
"
static size_t decoder_free(struct decoder_t *self_p,
                           size_t size)
{
    ssize_t pos;

    if (self_p->pos + (ssize_t)size <= self_p->size) {
        pos = self_p->pos;
        self_p->pos += size;
    } else {
        pos = -EOUTOFDATA;
        decoder_abort(self_p, EOUTOFDATA);
    }

    return (pos);
}".

Definition DECODER_READ_BYTES : string :=
"
static void decoder_read_bytes(struct decoder_t *self_p,
                               uint8_t *buf_p,
                               size_t size)
{
    ssize_t pos;

    pos = decoder_free(self_p, size);

    if (pos >= 0) {
        memcpy(buf_p, &self_p->buf_p[pos], size);
    } else {
        memset(buf_p, 0, size);
    }
}".

Definition DECODER_READ_INTEGER_8 : string :=
"
static uint8_t decoder_read_integer_8(struct decoder_t *self_p)
{
    uint8_t value;

    decoder_read_bytes(self_p, &value, sizeof(value));

    return (value);
}".

Definition DECODER_READ_INTEGER_16 : string :=
"
static uint16_t decoder_read_integer_16(struct decoder_t *self_p)
{
    uint8_t buf[2];

    decoder_read_bytes(self_p, &buf[0], sizeof(buf));

    return ((buf[0] << 8) | buf[1]);
}".

Definition DECODER_READ_INTEGER_32 : string :=
"
static uint32_t decoder_read_integer_32(struct decoder_t *self_p)
{
    uint8_t buf[4];

    decoder_read_bytes(self_p, &buf[0], sizeof(buf));

    return ((buf[0] << 24) | (buf[1] << 16) | (buf[2] << 8) | buf[3]);
}".

Definition DECODER_READ_INTEGER_64 : string :=
"
static uint64_t decoder_read_integer_64(struct decoder_t *self_p)
{
    uint8_t buf[8];

    decoder_read_bytes(self_p, &buf[0], sizeof(buf));

    return (((uint64_t)buf[0] << 56)
            | ((uint64_t)buf[1] << 48)
            | ((uint64_t)buf[2] << 40)
            | ((uint64_t)buf[3] << 32)
            | ((uint64_t)buf[4] << 24)
            | ((uint64_t)buf[5] << 16)
            | ((uint64_t)buf[6] << 8)
            | (uint64_t)buf[7]);
}".

Definition DECODER_READ_INTEGER : string :=
"
static uint32_t decoder_read_integer(struct decoder_t *self_p,
                                     uint8_t number_of_bytes)
{
    uint32_t value;

    switch (number_of_bytes) {

    case 1:
        value = decoder_read_integer_8(self_p);
        break;

    case 2:
        value = decoder_read_integer_16(self_p);
        break;

    case 3:
        value = (((uint32_t)decoder_read_integer_8(self_p) << 16)
                 | decoder_read_integer_16(self_p));
        break;

    case 4:
        value = decoder_read_integer_32(self_p);
        break;

    default:
        value = 0xffffffff;
        break;
    }

    return (value);
}".

Definition DECODER_READ_FLOAT : string :=
"
static float decoder_read_float(struct decoder_t *self_p)
{
    float value;
    uint32_t i32;

    i32 = decoder_read_integer_32(self_p);

    memcpy(&value, &i32, sizeof(value));

    return (value);
}".

Definition DECODER_READ_DOUBLE : string :=
"
static double decoder_read_double(struct decoder_t *self_p)
{
    double value;
    uint64_t i64;

    i64 = decoder_read_integer_64(self_p);

    memcpy(&value, &i64, sizeof(value));

    return (value);
}".

Definition DECODER_READ_BOOL : string :=
"
static bool decoder_read_bool(struct decoder_t *self_p)
{
    uint8_t value;

    value = decoder_read_integer_8(self_p);

    return (value != 0);
}".

Definition DECODER_READ_LENGTH_DETERMINANT : string :=
"
static uint32_t decoder_read_length_determinant(struct decoder_t *self_p)
{
    uint32_t length;

    length = decoder_read_integer_8(self_p);

    if (length & 0x80) {
        switch (length & 0x7f) {

        case 1:
            length = decoder_read_integer_8(self_p);
            break;

        case 2:
            length = decoder_read_integer_16(self_p);
            break;

        case 3:
            length = ((decoder_read_integer_8(self_p) << 16)
                      | decoder_read_integer_16(self_p));
            break;

        case 4:
            length = decoder_read_integer_32(self_p);
            break;

        default:
            length = 0xffffffff;
            break;
        }
    }

    return (length);
}".

(** Modelled from the spec: [ENCODER_AND_DECODER_STRUCTS], [ENCODER_ABORT]
    and [DECODER_ABORT] are constants of [utils.py] (not under src/).  The
    texts below are the C form of [Runtime.encoder_t], [Runtime.decoder_t],
    [Runtime.encoder_abort] and [Runtime.decoder_abort]. *)
Definition ENCODER_AND_DECODER_STRUCTS : string :=
"struct encoder_t {
    uint8_t *buf_p;
    ssize_t size;
    ssize_t pos;
};

struct decoder_t {
    const uint8_t *buf_p;
    ssize_t size;
    ssize_t pos;
};".

Definition ENCODER_ABORT : string :=
"
static void encoder_abort(struct encoder_t *self_p,
                          ssize_t error)
{
    if (self_p->pos >= 0) {
        self_p->size = -error;
        self_p->pos = -error;
    }
}".

Definition DECODER_ABORT : string :=
"
static void decoder_abort(struct decoder_t *self_p,
                          ssize_t error)
{
    if (self_p->pos >= 0) {
        self_p->size = -error;
        self_p->pos = -error;
    }
}".

(** Python's [pattern in text] on strings. *)
Fixpoint contains (pattern text : string) : bool :=
  if String.prefix pattern text then true
  else match text with
       | EmptyString => false
       | String _ rest => contains pattern rest
       end.

Definition functions : list (string * string) :=
  [ ("encoder_init(", ENCODER_INIT);
    ("encoder_get_result(", ENCODER_GET_RESULT);
    ("encoder_abort(", ENCODER_ABORT);
    ("encoder_append_bytes(", ENCODER_ALLOC);
    ("encoder_append_bytes(", ENCODER_APPEND_BYTES);
    ("encoder_append_integer_8(", ENCODER_APPEND_INTEGER_8);
    ("encoder_append_integer_16(", ENCODER_APPEND_INTEGER_16);
    ("encoder_append_integer_32(", ENCODER_APPEND_INTEGER_32);
    ("encoder_append_integer_64(", ENCODER_APPEND_INTEGER_64);
    ("encoder_append_integer(", ENCODER_APPEND_INTEGER);
    ("encoder_append_float(", ENCODER_APPEND_FLOAT);
    ("encoder_append_double(", ENCODER_APPEND_DOUBLE);
    ("encoder_append_bool(", ENCODER_APPEND_BOOL);
    ("encoder_append_length_determinant(", ENCODER_APPEND_LENGTH_DETERMINANT);
    ("decoder_init(", DECODER_INIT);
    ("decoder_get_result(", DECODER_GET_RESULT);
    ("decoder_abort(", DECODER_ABORT);
    ("decoder_read_bytes(", DECODER_FREE);
    ("decoder_read_bytes(", DECODER_READ_BYTES);
    ("decoder_read_integer_8(", DECODER_READ_INTEGER_8);
    ("decoder_read_integer_16(", DECODER_READ_INTEGER_16);
    ("decoder_read_integer_32(", DECODER_READ_INTEGER_32);
    ("decoder_read_integer_64(", DECODER_READ_INTEGER_64);
    ("decoder_read_integer(", DECODER_READ_INTEGER);
    ("decoder_read_float(", DECODER_READ_FLOAT);
    ("decoder_read_double(", DECODER_READ_DOUBLE);
    ("decoder_read_bool(", DECODER_READ_BOOL);
    ("decoder_read_length_determinant(", DECODER_READ_LENGTH_DETERMINANT) ].

Definition generate_helpers (definitions : string) : list string :=
  let helpers := [ENCODER_AND_DECODER_STRUCTS] in
  let helpers :=
    fold_left
      (fun helpers '(pattern, definition) =>
         if contains pattern definitions
         then (helpers ++ [definition])%list
         else helpers)
      functions helpers in
  (helpers ++ [""])%list.

(** The C function that each helper text defines, and the calls it makes:
    a helper depends on another when the other's name, followed by an
    opening parenthesis, occurs in its text. *)
Definition primitives : list (string * string) :=
  [ ("encoder_init", ENCODER_INIT);
    ("encoder_get_result", ENCODER_GET_RESULT);
    ("encoder_abort", ENCODER_ABORT);
    ("encoder_alloc", ENCODER_ALLOC);
    ("encoder_append_bytes", ENCODER_APPEND_BYTES);
    ("encoder_append_integer_8", ENCODER_APPEND_INTEGER_8);
    ("encoder_append_integer_16", ENCODER_APPEND_INTEGER_16);
    ("encoder_append_integer_32", ENCODER_APPEND_INTEGER_32);
    ("encoder_append_integer_64", ENCODER_APPEND_INTEGER_64);
    ("encoder_append_integer", ENCODER_APPEND_INTEGER);
    ("encoder_append_float", ENCODER_APPEND_FLOAT);
    ("encoder_append_double", ENCODER_APPEND_DOUBLE);
    ("encoder_append_bool", ENCODER_APPEND_BOOL);
    ("encoder_append_length_determinant", ENCODER_APPEND_LENGTH_DETERMINANT);
    ("decoder_init", DECODER_INIT);
    ("decoder_get_result", DECODER_GET_RESULT);
    ("decoder_abort", DECODER_ABORT);
    ("decoder_free", DECODER_FREE);
    ("decoder_read_bytes", DECODER_READ_BYTES);
    ("decoder_read_integer_8", DECODER_READ_INTEGER_8);
    ("decoder_read_integer_16", DECODER_READ_INTEGER_16);
    ("decoder_read_integer_32", DECODER_READ_INTEGER_32);
    ("decoder_read_integer_64", DECODER_READ_INTEGER_64);
    ("decoder_read_integer", DECODER_READ_INTEGER);
    ("decoder_read_float", DECODER_READ_FLOAT);
    ("decoder_read_double", DECODER_READ_DOUBLE);
    ("decoder_read_bool", DECODER_READ_BOOL);
    ("decoder_read_length_determinant", DECODER_READ_LENGTH_DETERMINANT) ].

Definition calls (text callee : string) : bool :=
  contains (callee ++ "(") text.

Definition included (helpers : list string) (text : string) : bool :=
  existsb (String.eqb text) helpers.

(** Every primitive called by an included primitive is included. *)
Definition closed_under_dependencies (helpers : list string) : bool :=
  forallb
    (fun p =>
       negb (included helpers (snd p))
       || forallb
            (fun q => negb (calls (snd p) (fst q))
                      || included helpers (snd q))
            primitives)
    primitives.

End Assembler.

(** ** The generator's main loop *)

Module Generate.
Import Codegen Order.

Local Open Scope string_scope.

(** The methods and templates of the base class [Generator] of [utils.py]
    (not under src/) that [oer.py] calls while it builds a type
    declaration.  They are an interface here; [helper_lines] and
    [used_user_types_of] stand for the state they leave in
    [self.helper_lines] and [self.used_user_types]. *)
Class Generator : Type := {
  format_integer : Z -> Z -> result (list string);
  format_boolean : result (list string);
  format_enumerated : type_ -> result (list string);
  format_utf8_string : type_ -> result (list string);
  format_sequence : type_ -> result (list string);
  format_sequence_of : type_ -> result (list string);
  format_choice : type_ -> result (list string);
  format_octet_string : Z -> Z -> result (list string);
  indent_lines : list string -> list string;
  dedent_lines : list string -> list string;
  helper_lines : type_ -> list string;
  used_user_types_of : type_ -> list (string * string);
  TYPE_DECLARATION_FMT : string -> string -> string -> string -> string;
  DECLARATION_FMT : string -> string -> string;
  DEFINITION_FMT : string -> string -> string
}.

Definition newline : string := String (ascii_of_nat 10) EmptyString.

Definition format_real (fmt : option string) : result (list string) :=
  match fmt with
  | None => Raise (Error "REAL not IEEE 754 binary32 or binary64.")
  | Some f => if String.eqb f ">f" then Ok ["float"] else Ok ["double"]
  end.

(** [lines[0] += ' value;'] *)
Definition add_value (lines : list string) : result (list string) :=
  match lines with
  | line :: rest => Ok ((line ++ " value;") :: rest)
  | [] => Raise IndexError
  end.

(** [lines[1:-1]] *)
Definition strip_first_last (lines : list string) : list string :=
  removelast (tl lines).

Section WithGenerator.

Context {G : Generator}.
Variable env : string -> string -> codec.

Definition generate_type_declaration (module_name type_name : string)
  (type : type_) : result (list string) :=
  let tried :=
    match type with
    | Integer _ minimum maximum =>
        lines <- format_integer minimum maximum ;; add_value lines
    | Boolean _ => lines <- format_boolean ;; add_value lines
    | Real _ fmt => lines <- format_real fmt ;; add_value lines
    | Enumerated _ => lines <- format_enumerated type ;; add_value lines
    | UTF8String _ => format_utf8_string type
    | Sequence _ _ =>
        lines <- format_sequence type ;;
        Ok (dedent_lines (strip_first_last lines))
    | SequenceOf _ _ _ _ =>
        lines <- format_sequence_of type ;;
        Ok (dedent_lines (strip_first_last lines))
    | Choice _ _ =>
        lines <- format_choice type ;;
        Ok (dedent_lines (strip_first_last lines))
    | OctetString _ minimum maximum =>
        lines <- format_octet_string minimum maximum ;;
        Ok (dedent_lines (strip_first_last lines))
    | Null _ => Ok []
    | UserTypeRef _ n _ | OtherType _ n =>
        Raise (NotImplementedError ("Unsupported type '" ++ n ++ "'."))
    end in
  match tried with
  | Raise (Error _) => Ok []
  | Raise e => Raise e
  | Ok lines =>
      let lines :=
        match lines with [] => ["uint8_t dummy;"] | _ => lines end in
      let lines := indent_lines lines in
      let helper_types :=
        match helper_lines type with
        | [] => []
        | l => (l ++ [""])%list
        end in
      Ok [TYPE_DECLARATION_FMT module_name type_name
            (String.concat newline helper_types)
            (String.concat newline lines)]
  end.

(** The body of the loop over the types of one module: [None] is the
    [continue] taken when the type declaration is empty. *)
Definition generate_user_type (module_name type_name : string)
  (compiled_type : type_) : result (option UserType) :=
  type_declaration <-
    generate_type_declaration module_name type_name compiled_type ;;
  match type_declaration with
  | [] => Ok None
  | _ =>
      let declaration := DECLARATION_FMT module_name type_name in
      definition_inner <- generate_definition_inner env compiled_type ;;
      let definition := DEFINITION_FMT module_name type_name in
      Ok (Some (mk_UserType type_name module_name type_declaration
                  declaration definition_inner definition
                  (used_user_types_of compiled_type)))
  end.

(** [sorted(d.items())] for a dictionary given by its items. *)
Fixpoint insert_sorted {A : Type} (x : string * A) (l : list (string * A))
  : list (string * A) :=
  match l with
  | [] => [x]
  | y :: rest =>
      if String.leb (fst x) (fst y) then x :: l
      else y :: insert_sorted x rest
  end.

Definition sorted {A : Type} (items : list (string * A))
  : list (string * A) :=
  fold_right insert_sorted [] items.

Fixpoint generate_types (module_name : string)
  (types : list (string * type_)) (user_types : list UserType)
  : result (list UserType) :=
  match types with
  | [] => Ok user_types
  | (type_name, compiled_type) :: rest =>
      u <- generate_user_type module_name type_name compiled_type ;;
      match u with
      | None => generate_types module_name rest user_types
      | Some user_type =>
          generate_types module_name rest (user_types ++ [user_type])%list
      end
  end.

Fixpoint generate_modules (modules : list (string * list (string * type_)))
  (user_types : list UserType) : result (list UserType) :=
  match modules with
  | [] => Ok user_types
  | (module_name, module) :: rest =>
      user_types <- generate_types module_name (sorted module) user_types ;;
      generate_modules rest user_types
  end.

(** [generate] up to the ordered list of emitted user types; the four text
    blocks it returns are joined from the fields of that list, in that
    order. *)
Definition generate (modules : list (string * list (string * type_)))
  : result (list UserType) :=
  user_types <- generate_modules (sorted modules) [] ;;
  Ok (sort_user_types_by_used_user_types user_types).

End WithGenerator.

(** The user types a compiled type refers to, as [format_user_type]
    records them in [self.used_user_types]. *)
Fixpoint referenced_user_types (type : type_) : list (string * string) :=
  match type with
  | UserTypeRef _ type_name module_name => [(type_name, module_name)]
  | Sequence _ root_members | Choice _ root_members =>
      flat_map referenced_user_types root_members
  | SequenceOf _ _ _ element_type => referenced_user_types element_type
  | _ => []
  end.

(** A small instance of the interface, to run the main loop on examples:
    every declaration method succeeds with fixed lines. *)
Definition example_generator : Generator :=
  {| format_integer := fun _ _ => Ok ["uint8_t"];
     format_boolean := Ok ["bool"];
     format_enumerated := fun _ => Ok ["enum e"];
     format_utf8_string := fun _ => Ok ["char value[1];"];
     format_sequence := fun _ => Ok ["struct {"; "    uint8_t x;"; "}"];
     format_sequence_of := fun _ => Ok ["struct {"; "    uint8_t x;"; "}"];
     format_choice := fun _ => Ok ["struct {"; "    uint8_t x;"; "}"];
     format_octet_string := fun _ _ => Ok ["struct {"; "    uint8_t x;"; "}"];
     indent_lines := map (fun line => "    " ++ line);
     dedent_lines := fun lines => lines;
     helper_lines := fun _ => [];
     used_user_types_of := referenced_user_types;
     TYPE_DECLARATION_FMT := fun module_name type_name helper_types members =>
       "struct " ++ module_name ++ "_" ++ type_name ++ "_t {" ++ newline
       ++ members ++ newline ++ "};";
     DECLARATION_FMT := fun module_name type_name =>
       module_name ++ "_" ++ type_name;
     DEFINITION_FMT := fun module_name type_name =>
       module_name ++ "_" ++ type_name |}.

End Generate.

(** ** Predicates used in the statements *)

Module Props.
Import C Runtime.

(** An encoder context in its normal state: no error latched, the cursor
    within the capacity, the capacity within the buffer. *)
Definition encoder_ok (e : encoder_t) : Prop :=
  0 <= e_pos e <= e_size e
  /\ e_size e <= Z.of_nat (length (e_buf_p e))
  /\ e_size e < 2 ^ 62.

Definition decoder_ok (d : decoder_t) : Prop :=
  0 <= d_pos d <= d_size d
  /\ d_size d <= Z.of_nat (length (d_buf_p d))
  /\ d_size d < 2 ^ 62.

(** A context that holds a latched error. *)
Definition encoder_latched (e : encoder_t) : Prop :=
  e_pos e < 0 /\ e_size e = e_pos e /\ - 2 ^ 62 < e_pos e.

Definition decoder_latched (d : decoder_t) : Prop :=
  d_pos d < 0 /\ d_size d = d_pos d /\ - 2 ^ 62 < d_pos d.

(** The input that a decoder has not consumed yet. *)
Definition remaining (d : decoder_t) : list Z :=
  firstn (Z.to_nat (d_size d - d_pos d)) (skipn (Z.to_nat (d_pos d)) (d_buf_p d)).

(** The encoder after the bytes [src] were stored at the cursor. *)
Definition appended (e : encoder_t) (src : list Z) : encoder_t :=
  {| e_buf_p := memcpy_to (e_buf_p e) (e_pos e) src;
     e_size := e_size e;
     e_pos := e_pos e + Z.of_nat (length src);
     e_oob := e_oob e |}.

(** The decoder after [size] bytes were consumed. *)
Definition advanced (d : decoder_t) (size : Z) : decoder_t :=
  {| d_buf_p := d_buf_p d;
     d_size := d_size d;
     d_pos := d_pos d + size;
     d_oob := d_oob d |}.

(** The table of the canonical length determinant, as the specification
    gives it (section 4.3). *)
Definition length_determinant_bytes (v : Z) : list Z :=
  if v <? 128 then [v]
  else if v <? 256 then [0x81; v]
  else if v <? 65536 then [0x82; v / 256; v mod 256]
  else if v <? 16777216 then
    [0x83; v / 65536; v / 256 mod 256; v mod 256]
  else [0x84; v / 16777216; v / 65536 mod 256; v / 256 mod 256; v mod 256].

(** The alternative of a choice selected by an enumerator name, and by a
    tag byte: the first one in declaration order. *)
Fixpoint case_of_name (n : string) (cases : list (Z * Codegen.attrs * Codegen.codec))
  : option (Z * Codegen.attrs * Codegen.codec) :=
  match cases with
  | [] => None
  | (t, a, c) :: rest =>
      if String.eqb n (Codegen.name a) then Some (t, a, c)
      else case_of_name n rest
  end.

Fixpoint case_of_tag (tag_ : Z) (cases : list (Z * Codegen.attrs * Codegen.codec))
  : option (Z * Codegen.attrs * Codegen.codec) :=
  match cases with
  | [] => None
  | (t, a, c) :: rest =>
      if tag_ =? t then Some (t, a, c) else case_of_tag tag_ rest
  end.

(** No user type is referred to in the examples. *)
Definition no_user_types : string -> string -> Codegen.codec :=
  fun _ _ => Codegen.format_null_inner.

(** The choice of the specification's example: tag [0x01] selects an
    integer of one byte, tag [0x02] a boolean. *)
Definition example_choice : Codegen.type_ :=
  Codegen.Choice (Codegen.mk_attrs "c" false None [])
    [Codegen.Integer (Codegen.mk_attrs "i" false None [0x01]) 0 255;
     Codegen.Boolean (Codegen.mk_attrs "b" false None [0x02])].

(** Its boolean alternative, with value true. *)
Definition example_choice_src : Codegen.value :=
  Codegen.VStruct
    [("choice"%string, Codegen.VEnum "b");
     ("value"%string, Codegen.VStruct [("b"%string, Codegen.VInt 1)])].

(** The sequence-of of the specification's example: exactly three
    booleans. *)
Definition example_sequence_of : Codegen.type_ :=
  Codegen.SequenceOf (Codegen.mk_attrs "s" false None []) 3 3
    (Codegen.Boolean (Codegen.mk_attrs "" false None [])).

Definition true_false_true : Codegen.value :=
  Codegen.VStruct
    [("elements"%string,
      Codegen.VArray [Codegen.VInt 1; Codegen.VInt 0; Codegen.VInt 1])].

(** Three user types of one module: [A] refers to [C], [C] refers to [B],
    [B] to none; they come in the base order of [generate], sorted by
    name. *)
Definition example_user_type (n : string) (used : list (string * string))
  : Order.UserType :=
  Order.mk_UserType n "M" [] "" Codegen.format_null_inner "" used.

Definition chain_A_C_B : list Order.UserType :=
  [example_user_type "A" [("C", "M")%string];
   example_user_type "B" [];
   example_user_type "C" [("B", "M")%string]].

(** The same chain as a schema: [A ::= SEQUENCE { c C }],
    [B ::= SEQUENCE { x INTEGER (0..255) }], [C ::= SEQUENCE { b B }].
    [B] and [C] are structured types, so that the members [b] and [c]
    compile to references to user types. *)
Definition chain_module : list (string * list (string * Codegen.type_)) :=
  [("M"%string,
    [("A"%string,
      Codegen.Sequence (Codegen.mk_attrs "" false None [])
        [Codegen.UserTypeRef (Codegen.mk_attrs "c" false None []) "C" "M"]);
     ("B"%string,
      Codegen.Sequence (Codegen.mk_attrs "" false None [])
        [Codegen.Integer (Codegen.mk_attrs "x" false None []) 0 255]);
     ("C"%string,
      Codegen.Sequence (Codegen.mk_attrs "" false None [])
        [Codegen.UserTypeRef (Codegen.mk_attrs "b" false None []) "B" "M"])])].

(** The names of the user types that a run of the generator emits, in
    order. *)
Definition emitted_names (r : Codegen.result (list Order.UserType))
  : option (list string) :=
  match r with
  | Codegen.Ok user_types => Some (map Order.type_name user_types)
  | Codegen.Raise _ => None
  end.

(** The lines that [format_integer_inner] emits for a user type that is an
    integer of one byte. *)
Definition integer_definitions : string :=
  "    encoder_append_integer_8(encoder_p, src_p->value);
    dst_p->value = decoder_read_integer_8(decoder_p);".

(** A module whose only type is a REAL that is neither binary32 nor
    binary64. *)
Definition real_module : list (string * list (string * Codegen.type_)) :=
  [("M"%string,
    [("R"%string, Codegen.Real (Codegen.mk_attrs "" false None []) None)])].

(** The exception of [format_choice_inner]. *)
Definition wide_tag_error : Codegen.exn :=
  Codegen.NotImplementedError
    "CHOICE tags of more than one byte are not yet supported.".

(** Generation ended in an exception. *)
Definition aborted {A : Type} (r : Codegen.result A) : Prop :=
  exists e, r = Codegen.Raise e.

(** The members of a sequence that take a bit of the presence mask, the
    number of mask bytes and the mask that the encode lines build. *)
Definition optionals_of (members : list (Codegen.attrs * Codegen.codec))
  : list (Codegen.attrs * Codegen.codec) :=
  filter (fun m => Codegen.in_optionals (fst m)) members.

Definition present_mask_length
  (members : list (Codegen.attrs * Codegen.codec)) : nat :=
  Nat.div (length (optionals_of members) + 7) 8.







(** Encoding of [src] with the lines generated for [type] into a fresh
    buffer of 16 bytes, and decoding of [bytes] into an empty destination;
    [None] when the generator raised. *)
Definition run_encode (type : Codegen.type_) (src : Codegen.value)
  : option (list Z) :=
  match Codegen.format_type_inner no_user_types type with
  | Codegen.Ok c =>
      Some (written (Codegen.encode c src
                       (encoder_init (repeat 0 16%nat) 16)))
  | Codegen.Raise _ => None
  end.

Definition run_decode (type : Codegen.type_) (bytes : list Z)
  : option Codegen.dres :=
  match Codegen.format_type_inner no_user_types type with
  | Codegen.Ok c =>
      Some (Codegen.decode c (Codegen.VStruct [])
              (decoder_init bytes (Z.of_nat (length bytes))))
  | Codegen.Raise _ => None
  end.

(** The identity of an emitted unit. *)
Definition name_tuple (u : Order.UserType) : string * string :=
  (Order.type_name u, Order.module_name u).

(** [x] occurs before an occurrence of [t]. *)
Fixpoint before (x t : Order.UserType) (l : list Order.UserType) : Prop :=
  match l with
  | [] => False
  | h :: rest => (h = x /\ In t rest) \/ before x t rest
  end.

(** No unit refers to a unit that comes later in the list: the list is
    already in dependency order. *)
Fixpoint no_forward_use (l : list Order.UserType) : Prop :=
  match l with
  | [] => True
  | u :: rest =>
      Forall (fun t => Order.uses u (name_tuple t) = false) rest
      /\ no_forward_use rest
  end.

(** The body of the loop of [sort_user_types_by_used_user_types]. *)
Definition insert_step (reversed_sorted_user_types : list Order.UserType)
  (user_type : Order.UserType) : list Order.UserType :=
  Order.list_insert
    (Order.find_insert_index (name_tuple user_type)
       reversed_sorted_user_types 1 0)
    user_type reversed_sorted_user_types.

(** A context on which the primitives can go on: in the normal state or
    with an error latched, and no access outside the buffer so far. *)
Definition encoder_safe (e : encoder_t) : Prop :=
  (encoder_ok e \/ encoder_latched e) /\ e_oob e = false.

Definition decoder_safe (d : decoder_t) : Prop :=
  (decoder_ok d \/ decoder_latched d) /\ d_oob d = false.

(** [pattern] occurs in [text]. *)
Definition occurs_in (pattern text : string) : Prop :=
  exists a b : string, text = (a ++ pattern ++ b)%string.

(** The values that an object of a C integer type holds. *)
Definition fits (type_name : Codegen.c_int) (v : Z) : Prop :=
  match type_name with
  | Codegen.int8_t => - 2 ^ 7 <= v < 2 ^ 7
  | Codegen.uint8_t => 0 <= v < 2 ^ 8
  | Codegen.int16_t => - 2 ^ 15 <= v < 2 ^ 15
  | Codegen.uint16_t => 0 <= v < 2 ^ 16
  | Codegen.int32_t => - 2 ^ 31 <= v < 2 ^ 31
  | Codegen.uint32_t => 0 <= v < 2 ^ 32
  | Codegen.int64_t => - 2 ^ 63 <= v < 2 ^ 63
  | Codegen.uint64_t => 0 <= v < 2 ^ 64
  end.


(** The length prefix of an OCTET STRING whose size varies: one byte when
    the largest size is below 128, a length determinant otherwise. *)
Definition octet_string_prefix (maximum len : Z) : list Z :=
  if maximum <? 128 then [len] else length_determinant_bytes len.


(** The bytes of [encoder_append_integer]: the low [8 * number_of_bytes]
    bits of the value, most significant byte first. *)
Definition integer_bytes (number_of_bytes value : Z) : list Z :=
  let v := to_uint32 value in
  if number_of_bytes =? 1 then [to_uint8 v]
  else if number_of_bytes =? 2 then
    [to_uint8 (Z.shiftr (to_uint16 v) 8); to_uint8 (to_uint16 v)]
  else if number_of_bytes =? 3 then
    [to_uint8 (Z.shiftr v 16);
     to_uint8 (Z.shiftr (to_uint16 v) 8); to_uint8 (to_uint16 v)]
  else
    [to_uint8 (Z.shiftr (to_uint32 v) 24);
     to_uint8 (Z.shiftr (to_uint32 v) 16);
     to_uint8 (Z.shiftr (to_uint32 v) 8); to_uint8 (to_uint32 v)].


(** An element type whose lines store [bytes] for the value [v] and give
    [v] back from them, whatever the destination held. *)
Definition element_codec (c : Codegen.codec) (v : Codegen.value)
  (bytes : list Z) : Prop :=
  (forall e, encoder_ok e ->
     e_pos e + Z.of_nat (length bytes) <= e_size e ->
     Codegen.encode c v e = appended e bytes)
  /\ (forall d rest dst, decoder_ok d -> remaining d = bytes ++ rest ->
        Codegen.decode c dst d
        = (false, advanced d (Z.of_nat (length bytes)), v)).

(** The header of a SEQUENCE OF whose count varies: the number of count
    bytes, then the count. *)
Definition sequence_of_header (number_of_length_bytes count : Z) : list Z :=
  number_of_length_bytes :: integer_bytes number_of_length_bytes count.

(** The object [v] holds [values] in [elements[0]], [elements[1]], ... *)
Definition holds_elements (values : list Codegen.value) (v : Codegen.value)
  : Prop :=
  forall k, (k < length values)%nat ->
    Codegen.get_elem k (Codegen.get_field "elements" v)
    = nth k values (Codegen.VInt 0).

(** The destination after [values] were stored from index [i] on. *)
Fixpoint store_elements (values : list Codegen.value) (i : nat)
  (dst : Codegen.value) : Codegen.value :=
  match values with
  | [] => dst
  | v :: rest =>
      store_elements rest (S i)
        (Codegen.set_field "elements"
           (Codegen.set_elem i v (Codegen.get_field "elements" dst)) dst)
  end.


(** The compiled types for which inner functions can be generated: no
    UTF8String and no type of another class anywhere inside, and one tag
    byte on every alternative of a choice. *)
Fixpoint supported (type : Codegen.type_) : bool :=
  match type with
  | Codegen.Sequence _ root_members => forallb supported root_members
  | Codegen.Choice _ root_members =>
      forallb
        (fun member =>
           supported member
           && (length (Codegen.tag (Codegen.attrs_of member)) =? 1)%nat)
        root_members
  | Codegen.SequenceOf _ _ _ element_type => supported element_type
  | Codegen.UTF8String _ | Codegen.OtherType _ _ => false
  | _ => true
  end.

(** What [format_type_inner] does with a type, by [supported]. *)
Definition generated_or_not_implemented (env : string -> string -> Codegen.codec)
  (type : Codegen.type_) : Prop :=
  if supported type
  then exists c, Codegen.format_type_inner env type = Codegen.Ok c
  else exists msg,
         Codegen.format_type_inner env type
         = Codegen.Raise (Codegen.NotImplementedError msg).


(** The unit [u] was emitted for an entry of [modules]: it carries the
    names of the entry, the non-empty type declaration and the inner
    functions generated for the entry's type, and the user types that the
    type refers to. *)
Definition emitted_from {G : Generate.Generator}
  (env : string -> string -> Codegen.codec)
  (modules : list (string * list (string * Codegen.type_)))
  (u : Order.UserType) : Prop :=
  Order.type_declaration u <> []
  /\ exists module compiled_type,
       In (Order.module_name u, module) modules
       /\ In (Order.type_name u, compiled_type) module
       /\ Generate.generate_type_declaration (Order.module_name u)
            (Order.type_name u) compiled_type
          = Codegen.Ok (Order.type_declaration u)
       /\ Codegen.generate_definition_inner env compiled_type
          = Codegen.Ok (Order.definition_inner u)
       /\ Order.used_user_types u
          = Generate.used_user_types_of compiled_type.





(** The sizes that a type hands to [decoder_read_bytes] by itself, the
    length of a fixed OCTET STRING and of a presence mask, are sizes of C
    objects. *)
Fixpoint sizes_bounded (type : Codegen.type_) : bool :=
  match type with
  | Codegen.OctetString _ _ maximum => (0 <=? maximum) && (maximum <? 2 ^ 62)
  | Codegen.Sequence _ root_members =>
      (Z.of_nat (length root_members) <? 2 ^ 62)
      && forallb sizes_bounded root_members
  | Codegen.Choice _ root_members => forallb sizes_bounded root_members
  | Codegen.SequenceOf _ _ _ element_type => sizes_bounded element_type
  | _ => true
  end.



(** Every scalar of an object is below [2 ^ 62], as the lengths held by a
    C object are. *)
Fixpoint scalars_bounded (v : Codegen.value) : bool :=
  match v with
  | Codegen.VInt z => z <? 2 ^ 62
  | Codegen.VEnum _ => true
  | Codegen.VStruct fields =>
      forallb (fun f => scalars_bounded (snd f)) fields
  | Codegen.VArray elements => forallb scalars_bounded elements
  end.



(** Encode lines that take a usable encoder to a usable one, whatever the
    source object and the room left are. *)
Definition encodes_safely (c : Codegen.codec) : Prop :=
  forall src e, scalars_bounded src = true -> encoder_safe e ->
    encoder_safe (Codegen.encode c src e).




End Props.

(** * Properties *)

Import C Runtime Codegen Order Assembler Generate Props.

(** ** Integer conversions *)

Lemma to_ssize_t_small (z : Z) :
  - 2 ^ 63 <= z < 2 ^ 63 -> to_ssize_t z = z.
Proof.
  intros H. unfold to_ssize_t, to_signed.
  change (64 - 1) with 63.
  rewrite Z.mod_small; lia.
Qed.

Lemma to_size_t_ssize_t (z : Z) :
  - 2 ^ 63 <= z < 2 ^ 63 -> to_ssize_t (to_size_t z) = z.
Proof.
  intros H. unfold to_ssize_t, to_size_t, to_signed.
  change (64 - 1) with 63.
  destruct (Z_lt_le_dec z 0) as [Hneg | Hpos].
  - replace (z mod 2 ^ 64) with (z + 2 ^ 64).
    + replace (z + 2 ^ 64 + 2 ^ 63) with (z + 2 ^ 63 + 1 * 2 ^ 64) by lia.
      rewrite Z.mod_add by lia. rewrite Z.mod_small; lia.
    + symmetry. replace z with (z + 2 ^ 64 + (-1) * 2 ^ 64) at 1 by lia.
      rewrite Z.mod_add by lia. apply Z.mod_small. lia.
  - rewrite (Z.mod_small z) by lia. rewrite Z.mod_small; lia.
Qed.

(** ** The encoder in its normal state *)

Lemma memcpy_to_length (mem : list Z) (pos : Z) (src : list Z) :
  0 <= pos -> pos + Z.of_nat (length src) <= Z.of_nat (length mem) ->
  length (memcpy_to mem pos src) = length mem.
Proof.
  intros Hpos Hfit. unfold memcpy_to.
  rewrite !length_app, length_firstn, length_skipn. lia.
Qed.

Lemma memcpy_to_prefix (mem : list Z) (pos : Z) (src : list Z) :
  0 <= pos -> pos + Z.of_nat (length src) <= Z.of_nat (length mem) ->
  firstn (Z.to_nat (pos + Z.of_nat (length src))) (memcpy_to mem pos src)
  = firstn (Z.to_nat pos) mem ++ src.
Proof.
  intros Hpos Hfit. unfold memcpy_to.
  rewrite app_assoc.
  rewrite firstn_app.
  assert (Hlen : length (firstn (Z.to_nat pos) mem ++ src)
                 = Z.to_nat (pos + Z.of_nat (length src))).
  { rewrite length_app, length_firstn. lia. }
  rewrite Hlen, Nat.sub_diag. cbn [firstn].
  rewrite app_nil_r. rewrite <- Hlen. apply firstn_all.
Qed.

Lemma encoder_alloc_ok (e : encoder_t) (size : Z) :
  encoder_ok e -> 0 <= size -> e_pos e + size <= e_size e ->
  encoder_alloc e size
  = ({| e_buf_p := e_buf_p e; e_size := e_size e;
        e_pos := e_pos e + size; e_oob := e_oob e |}, e_pos e).
Proof.
  intros (Hpos & Hcap & Hbig) Hsize Hfit. unfold encoder_alloc.
  rewrite !to_ssize_t_small by lia.
  destruct (Z.leb_spec (e_pos e + size) (e_size e)); [reflexivity | lia].
Qed.

Lemma encoder_append_bytes_ok (e : encoder_t) (src : list Z) :
  encoder_ok e -> e_pos e + Z.of_nat (length src) <= e_size e ->
  encoder_append_bytes e src = appended e src.
Proof.
  intros Hok Hfit. unfold encoder_append_bytes.
  rewrite encoder_alloc_ok by (assumption || lia).
  destruct Hok as (Hpos & Hcap & Hbig).
  destruct (Z.ltb_spec (e_pos e) 0); [lia |].
  cbn [e_buf_p e_size e_pos e_oob]. unfold in_bounds.
  destruct (Z.leb_spec 0 (e_pos e)); [| lia].
  destruct (Z.leb_spec (e_pos e + Z.of_nat (length src))
              (Z.of_nat (length (e_buf_p e)))); [| lia].
  reflexivity.
Qed.

Lemma appended_ok (e : encoder_t) (src : list Z) :
  encoder_ok e -> e_pos e + Z.of_nat (length src) <= e_size e ->
  encoder_ok (appended e src).
Proof.
  intros (Hpos & Hcap & Hbig) Hfit. unfold encoder_ok, appended.
  cbn [e_buf_p e_size e_pos]. rewrite memcpy_to_length by lia. lia.
Qed.

Lemma appended_written (e : encoder_t) (src : list Z) :
  encoder_ok e -> e_pos e + Z.of_nat (length src) <= e_size e ->
  written (appended e src) = written e ++ src.
Proof.
  intros (Hpos & Hcap & Hbig) Hfit. unfold written, appended.
  cbn [e_buf_p e_pos]. apply memcpy_to_prefix; lia.
Qed.

Lemma encoder_init_ok (buf : list Z) :
  Z.of_nat (length buf) < 2 ^ 62 ->
  encoder_ok (encoder_init buf (Z.of_nat (length buf))).
Proof.
  intros H. unfold encoder_ok, encoder_init. cbn [e_buf_p e_size e_pos].
  rewrite to_ssize_t_small by lia. lia.
Qed.

(** ** The decoder in its normal state *)

Lemma remaining_length (d : decoder_t) :
  decoder_ok d -> Z.of_nat (length (remaining d)) = d_size d - d_pos d.
Proof.
  intros (Hpos & Hcap & Hbig). unfold remaining.
  rewrite length_firstn, length_skipn. lia.
Qed.

Lemma decoder_free_ok (d : decoder_t) (size : Z) :
  decoder_ok d -> 0 <= size -> d_pos d + size <= d_size d ->
  decoder_free d size = (advanced d size, to_size_t (d_pos d)).
Proof.
  intros (Hpos & Hcap & Hbig) Hsize Hfit. unfold decoder_free.
  rewrite !to_ssize_t_small by lia.
  destruct (Z.leb_spec (d_pos d + size) (d_size d)); [reflexivity | lia].
Qed.

Lemma decoder_read_bytes_ok (d : decoder_t) (bytes rest : list Z) :
  decoder_ok d -> remaining d = bytes ++ rest ->
  decoder_read_bytes d (Z.of_nat (length bytes))
  = (advanced d (Z.of_nat (length bytes)), bytes).
Proof.
  intros Hok Hrem.
  pose proof (remaining_length d Hok) as Hlen.
  rewrite Hrem, length_app in Hlen.
  destruct Hok as (Hpos & Hcap & Hbig).
  unfold decoder_read_bytes.
  rewrite decoder_free_ok by (unfold decoder_ok; lia).
  rewrite to_size_t_ssize_t by lia.
  destruct (Z.leb_spec 0 (d_pos d)); [| lia].
  unfold in_bounds. cbn [advanced d_buf_p].
  destruct (Z.leb_spec 0 (d_pos d)); [| lia].
  destruct (Z.leb_spec (d_pos d + Z.of_nat (length bytes))
              (Z.of_nat (length (d_buf_p d)))); [| lia].
  cbn [andb]. f_equal.
  unfold memcpy_from. rewrite Nat2Z.id.
  unfold remaining in Hrem.
  assert (Hfirst : firstn (length bytes)
                     (firstn (Z.to_nat (d_size d - d_pos d))
                        (skipn (Z.to_nat (d_pos d)) (d_buf_p d)))
                   = bytes).
  { rewrite Hrem, firstn_app, Nat.sub_diag. cbn [firstn].
    rewrite firstn_all, app_nil_r. reflexivity. }
  rewrite firstn_firstn in Hfirst.
  rewrite Nat.min_l in Hfirst by lia. exact Hfirst.
Qed.

Lemma advanced_ok (d : decoder_t) (bytes rest : list Z) :
  decoder_ok d -> remaining d = bytes ++ rest ->
  decoder_ok (advanced d (Z.of_nat (length bytes)))
  /\ remaining (advanced d (Z.of_nat (length bytes))) = rest.
Proof.
  intros Hok Hrem.
  pose proof (remaining_length d Hok) as Hlen.
  rewrite Hrem, length_app in Hlen.
  destruct Hok as (Hpos & Hcap & Hbig).
  split.
  - unfold decoder_ok, advanced. cbn [d_buf_p d_size d_pos]. lia.
  - unfold remaining, advanced in *. cbn [d_buf_p d_size d_pos].
    replace (Z.to_nat (d_pos d + Z.of_nat (length bytes)))
      with (length bytes + Z.to_nat (d_pos d))%nat by lia.
    rewrite <- skipn_skipn.
    replace (Z.to_nat (d_size d - (d_pos d + Z.of_nat (length bytes))))
      with (Z.to_nat (d_size d - d_pos d) - length bytes)%nat by lia.
    rewrite <- skipn_firstn_comm, Hrem.
    rewrite skipn_app, Nat.sub_diag, skipn_all. reflexivity.
Qed.

Lemma decoder_init_ok (buf : list Z) :
  Z.of_nat (length buf) < 2 ^ 62 ->
  decoder_ok (decoder_init buf (Z.of_nat (length buf)))
  /\ remaining (decoder_init buf (Z.of_nat (length buf))) = buf.
Proof.
  intros H. unfold decoder_ok, remaining, decoder_init.
  cbn [d_buf_p d_size d_pos].
  rewrite to_ssize_t_small by lia.
  split; [lia |].
  rewrite Z.sub_0_r, Nat2Z.id. cbn [Z.to_nat skipn]. apply firstn_all.
Qed.

(** ** Bytes of an integer *)

Lemma lor_shiftl_add (hi lo n : Z) :
  0 <= n -> 0 <= lo < 2 ^ n -> Z.lor (Z.shiftl hi n) lo = hi * 2 ^ n + lo.
Proof.
  intros Hn Hlo. rewrite Z.shiftl_mul_pow2 by lia.
  assert (Hland : Z.land (hi * 2 ^ n) lo = 0).
  { apply Z.bits_inj'. intros i Hi. rewrite Z.land_spec, Z.bits_0.
    destruct (Z_lt_le_dec i n).
    - rewrite Z.mul_pow2_bits_low by lia. reflexivity.
    - destruct (Z.eq_dec lo 0) as [-> |];
        [rewrite Z.bits_0; apply andb_false_r |].
      rewrite (Z.bits_above_log2 lo i); [apply andb_false_r | lia |].
      apply Z.lt_le_trans with n; [| lia].
      apply Z.log2_lt_pow2; lia. }
  pose proof (Z.add_lor_land (hi * 2 ^ n) lo). lia.
Qed.

Lemma appended_appended (e : encoder_t) (a b : list Z) :
  encoder_ok e ->
  e_pos e + Z.of_nat (length a) + Z.of_nat (length b) <= e_size e ->
  appended (appended e a) b = appended e (a ++ b).
Proof.
  intros (Hpos & Hcap & Hbig) Hfit. unfold appended.
  cbn [e_buf_p e_size e_pos e_oob]. f_equal.
  - unfold memcpy_to at 1.
    rewrite memcpy_to_prefix by lia.
    unfold memcpy_to.
    rewrite (app_assoc (firstn (Z.to_nat (e_pos e)) (e_buf_p e)) a).
    rewrite skipn_app.
    assert (Hlen : length (firstn (Z.to_nat (e_pos e)) (e_buf_p e) ++ a)
                   = Z.to_nat (e_pos e + Z.of_nat (length a))).
    { rewrite length_app, length_firstn. lia. }
    rewrite skipn_all2 by (rewrite Hlen; lia).
    rewrite Hlen, skipn_skipn, length_app. cbn [app].
    rewrite <- !app_assoc. do 3 f_equal. f_equal. lia.
  - rewrite length_app. lia.
Qed.

Lemma encoder_append_integer_8_ok (e : encoder_t) (value : Z) :
  encoder_ok e -> e_pos e + 1 <= e_size e ->
  encoder_append_integer_8 e value = appended e [value mod 256].
Proof.
  intros Hok Hfit. unfold encoder_append_integer_8.
  rewrite encoder_append_bytes_ok by (cbn [length]; assumption || lia).
  reflexivity.
Qed.

Lemma encoder_append_integer_16_ok (e : encoder_t) (value : Z) :
  encoder_ok e -> e_pos e + 2 <= e_size e -> 0 <= value < 2 ^ 16 ->
  encoder_append_integer_16 e value
  = appended e [value / 256; value mod 256].
Proof.
  intros Hok Hfit Hv. unfold encoder_append_integer_16.
  rewrite encoder_append_bytes_ok by (cbn [length]; assumption || lia).
  unfold to_uint16, to_uint8. rewrite (Z.mod_small value (2 ^ 16)) by lia.
  rewrite Z.shiftr_div_pow2 by lia.
  do 2 f_equal. change (2 ^ 8) with 256. apply Z.mod_small.
  Z.div_mod_to_equations. lia.
Qed.

Lemma encoder_append_integer_32_ok (e : encoder_t) (value : Z) :
  encoder_ok e -> e_pos e + 4 <= e_size e -> 0 <= value < 2 ^ 32 ->
  encoder_append_integer_32 e value
  = appended e [value / 16777216; value / 65536 mod 256;
                value / 256 mod 256; value mod 256].
Proof.
  intros Hok Hfit Hv. unfold encoder_append_integer_32.
  rewrite encoder_append_bytes_ok by (cbn [length]; assumption || lia).
  unfold to_uint32, to_uint8. rewrite (Z.mod_small value (2 ^ 32)) by lia.
  rewrite !Z.shiftr_div_pow2 by lia.
  do 2 f_equal. change (2 ^ 8) with 256. change (2 ^ 24) with 16777216.
  apply Z.mod_small. Z.div_mod_to_equations. lia.
Qed.

Lemma decoder_read_integer_8_ok (d : decoder_t) (b : Z) (rest : list Z) :
  decoder_ok d -> remaining d = b :: rest ->
  decoder_read_integer_8 d = (advanced d 1, b).
Proof.
  intros Hok Hrem. unfold decoder_read_integer_8.
  change 1 with (Z.of_nat (length [b])).
  rewrite (decoder_read_bytes_ok d [b] rest) by assumption.
  reflexivity.
Qed.

Lemma decoder_read_integer_16_ok (d : decoder_t) (b0 b1 : Z)
  (rest : list Z) :
  decoder_ok d -> remaining d = b0 :: b1 :: rest ->
  decoder_read_integer_16 d
  = (advanced d 2, to_uint16 (Z.lor (Z.shiftl b0 8) b1)).
Proof.
  intros Hok Hrem. unfold decoder_read_integer_16.
  change 2 with (Z.of_nat (length [b0; b1])).
  rewrite (decoder_read_bytes_ok d [b0; b1] rest) by assumption.
  reflexivity.
Qed.

Lemma decoder_read_integer_32_ok (d : decoder_t) (b0 b1 b2 b3 : Z)
  (rest : list Z) :
  decoder_ok d -> remaining d = b0 :: b1 :: b2 :: b3 :: rest ->
  decoder_read_integer_32 d
  = (advanced d 4,
     to_uint32 (Z.lor (Z.lor (Z.lor (Z.shiftl b0 24) (Z.shiftl b1 16))
                             (Z.shiftl b2 8)) b3)).
Proof.
  intros Hok Hrem. unfold decoder_read_integer_32.
  change 4 with (Z.of_nat (length [b0; b1; b2; b3])).
  rewrite (decoder_read_bytes_ok d [b0; b1; b2; b3] rest) by assumption.
  reflexivity.
Qed.

Lemma advanced_one (d : decoder_t) (b : Z) (rest : list Z) :
  decoder_ok d -> remaining d = b :: rest ->
  decoder_ok (advanced d 1) /\ remaining (advanced d 1) = rest.
Proof.
  intros Hok Hrem. exact (advanced_ok d [b] rest Hok Hrem).
Qed.

Lemma advanced_advanced (d : decoder_t) (m n : Z) :
  advanced (advanced d m) n = advanced d (m + n).
Proof.
  unfold advanced. cbn [d_buf_p d_size d_pos d_oob]. f_equal. lia.
Qed.

(** Big-endian recombination of two and of four bytes. *)
Lemma combine_16 (b0 b1 : Z) :
  0 <= b0 < 256 -> 0 <= b1 < 256 ->
  to_uint16 (Z.lor (Z.shiftl b0 8) b1) = b0 * 256 + b1.
Proof.
  intros H0 H1. rewrite lor_shiftl_add by lia.
  unfold to_uint16. apply Z.mod_small. lia.
Qed.

Lemma combine_24 (b0 lo : Z) :
  0 <= b0 < 256 -> 0 <= lo < 65536 ->
  to_uint32 (Z.lor (Z.shiftl b0 16) lo) = b0 * 65536 + lo.
Proof.
  intros H0 H1. rewrite lor_shiftl_add by lia.
  unfold to_uint32. apply Z.mod_small. lia.
Qed.

Lemma combine_32 (b0 b1 b2 b3 : Z) :
  0 <= b0 < 256 -> 0 <= b1 < 256 -> 0 <= b2 < 256 -> 0 <= b3 < 256 ->
  to_uint32 (Z.lor (Z.lor (Z.lor (Z.shiftl b0 24) (Z.shiftl b1 16))
                          (Z.shiftl b2 8)) b3)
  = b0 * 16777216 + b1 * 65536 + b2 * 256 + b3.
Proof.
  intros H0 H1 H2 H3.
  rewrite (Z.shiftl_mul_pow2 b1 16), (Z.shiftl_mul_pow2 b2 8) by lia.
  rewrite (lor_shiftl_add b0 (b1 * 2 ^ 16) 24) by lia.
  replace (b0 * 2 ^ 24 + b1 * 2 ^ 16)
    with ((b0 * 256 + b1) * 2 ^ 16) by lia.
  rewrite <- (Z.shiftl_mul_pow2 _ 16) by lia.
  rewrite (lor_shiftl_add _ (b2 * 2 ^ 8) 16) by lia.
  replace ((b0 * 256 + b1) * 2 ^ 16 + b2 * 2 ^ 8)
    with ((b0 * 65536 + b1 * 256 + b2) * 2 ^ 8) by lia.
  rewrite <- (Z.shiftl_mul_pow2 _ 8) by lia.
  rewrite lor_shiftl_add by lia.
  unfold to_uint32. rewrite Z.mod_small; lia.
Qed.

(** ** Length determinant *)

Lemma length_determinant_bytes_length (v : Z) :
  (length (length_determinant_bytes v) <= 5)%nat.
Proof.
  unfold length_determinant_bytes.
  repeat match goal with |- context [if ?c then _ else _] => destruct c end;
    cbn [length]; lia.
Qed.

(** A primitive that appends [bytes] in the normal state does so after
    [a] was appended too. *)
Lemma after_appended (f : encoder_t -> encoder_t) (e : encoder_t)
  (a bytes : list Z) :
  (forall e', encoder_ok e' ->
              e_pos e' + Z.of_nat (length bytes) <= e_size e' ->
              f e' = appended e' bytes) ->
  encoder_ok e ->
  e_pos e + Z.of_nat (length a) + Z.of_nat (length bytes) <= e_size e ->
  f (appended e a) = appended e (a ++ bytes).
Proof.
  intros Hf Hok Hfit.
  rewrite Hf.
  - apply appended_appended; assumption.
  - apply appended_ok; [assumption | lia].
  - unfold appended; cbn [e_pos e_size]. lia.
Qed.

(** The encoder appends exactly the bytes of the table. *)
Lemma encoder_append_length_determinant_ok (e : encoder_t) (v : Z) :
  encoder_ok e -> 0 <= v < 2 ^ 32 -> e_pos e + 5 <= e_size e ->
  encoder_append_length_determinant e v
  = appended e (length_determinant_bytes v).
Proof.
  intros Hok Hv Hfit.
  unfold encoder_append_length_determinant, length_determinant_bytes.
  assert (Hu : to_uint32 v = v) by (apply Z.mod_small; lia).
  rewrite Hu. cbv zeta.
  destruct (Z.ltb_spec v 128).
  { rewrite encoder_append_integer_8_ok by (assumption || lia).
    rewrite Z.mod_small by lia. reflexivity. }
  destruct (Z.ltb_spec v 256).
  { rewrite (encoder_append_integer_8_ok e) by (assumption || lia).
    rewrite (after_appended (fun e => encoder_append_integer_8 e v) e
               _ [v mod 256]).
    - rewrite (Z.mod_small v) by lia. reflexivity.
    - intros e' Hok' Hfit'. apply encoder_append_integer_8_ok;
        [assumption | cbn [length] in Hfit'; lia].
    - assumption.
    - cbn [length]; lia. }
  destruct (Z.ltb_spec v 65536).
  { rewrite (encoder_append_integer_8_ok e) by (assumption || lia).
    rewrite (after_appended (fun e => encoder_append_integer_16 e v) e
               _ [v / 256; v mod 256]).
    - reflexivity.
    - intros e' Hok' Hfit'. apply encoder_append_integer_16_ok;
        [assumption | cbn [length] in Hfit'; lia | lia].
    - assumption.
    - cbn [length]; lia. }
  destruct (Z.ltb_spec v 16777216).
  { rewrite Z.lor_comm, (lor_shiftl_add 0x83 v 24) by lia.
    unfold to_uint32. rewrite Z.mod_small by lia.
    rewrite encoder_append_integer_32_ok by (assumption || lia).
    change (131 * 2 ^ 24) with 2197815296.
    replace ((2197815296 + v) / 16777216) with 131
      by (Z.div_mod_to_equations; lia).
    replace ((2197815296 + v) / 65536 mod 256) with (v / 65536)
      by (Z.div_mod_to_equations; lia).
    replace ((2197815296 + v) / 256 mod 256) with (v / 256 mod 256)
      by (Z.div_mod_to_equations; lia).
    replace ((2197815296 + v) mod 256) with (v mod 256)
      by (Z.div_mod_to_equations; lia).
    reflexivity. }
  rewrite (encoder_append_integer_8_ok e) by (assumption || lia).
  rewrite (after_appended (fun e => encoder_append_integer_32 e v) e _
             [v / 16777216; v / 65536 mod 256; v / 256 mod 256; v mod 256]).
  - reflexivity.
  - intros e' Hok' Hfit'. apply encoder_append_integer_32_ok;
      [assumption | cbn [length] in Hfit'; lia | lia].
  - assumption.
  - cbn [length]; lia.
Qed.

(** Evaluation of the tests on a literal first byte. *)
Ltac eval_land :=
  repeat match goal with
    | |- context [Z.land (Zpos ?a) (Zpos ?b)] =>
        let r := eval vm_compute in (Z.land (Zpos a) (Zpos b)) in
        change (Z.land (Zpos a) (Zpos b)) with r
    end;
  cbn [Z.eqb Pos.eqb negb].

(** The decoder maps the bytes of the table back to the value and consumes
    exactly them. *)
Lemma decoder_read_length_determinant_ok (d : decoder_t) (v : Z)
  (rest : list Z) :
  decoder_ok d -> 0 <= v < 2 ^ 32 ->
  remaining d = length_determinant_bytes v ++ rest ->
  decoder_read_length_determinant d
  = (advanced d (Z.of_nat (length (length_determinant_bytes v))), v).
Proof.
  intros Hok Hv. unfold length_determinant_bytes.
  unfold decoder_read_length_determinant.
  destruct (Z.ltb_spec v 128).
  { cbn [app length]. intros Hrem.
    rewrite (decoder_read_integer_8_ok d v rest) by assumption.
    replace (Z.land v 128) with 0; [reflexivity |].
    symmetry. apply Z.bits_inj'. intros i Hi.
    rewrite Z.land_spec, Z.bits_0.
    destruct (Z.eq_dec i 7) as [-> |].
    - rewrite (Z.bits_above_log2 v 7); [reflexivity | lia |].
      destruct (Z.eq_dec v 0) as [-> |]; [cbn; lia |].
      apply Z.log2_lt_pow2; lia.
    - change 128 with (2 ^ 7). rewrite Z.pow2_bits_eqb by lia.
      destruct (Z.eqb_spec 7 i); [lia | apply andb_false_r]. }
  destruct (Z.ltb_spec v 256).
  { cbn [app length]. intros Hrem.
    rewrite (decoder_read_integer_8_ok d _ _ Hok Hrem).
    destruct (advanced_one d _ _ Hok Hrem) as (Hok1 & Hrem1).
    eval_land.
    rewrite (decoder_read_integer_8_ok _ _ _ Hok1 Hrem1).
    rewrite advanced_advanced. reflexivity. }
  destruct (Z.ltb_spec v 65536).
  { cbn [app length]. intros Hrem.
    rewrite (decoder_read_integer_8_ok d _ _ Hok Hrem).
    destruct (advanced_one d _ _ Hok Hrem) as (Hok1 & Hrem1).
    eval_land.
    rewrite (decoder_read_integer_16_ok _ _ _ _ Hok1 Hrem1).
    rewrite advanced_advanced.
    rewrite combine_16 by (Z.div_mod_to_equations; lia).
    f_equal. Z.div_mod_to_equations; lia. }
  destruct (Z.ltb_spec v 16777216).
  { cbn [app length]. intros Hrem.
    rewrite (decoder_read_integer_8_ok d _ _ Hok Hrem).
    destruct (advanced_one d _ _ Hok Hrem) as (Hok1 & Hrem1).
    eval_land.
    rewrite (decoder_read_integer_8_ok _ _ _ Hok1 Hrem1).
    destruct (advanced_one _ _ _ Hok1 Hrem1) as (Hok2 & Hrem2).
    rewrite (decoder_read_integer_16_ok _ _ _ _ Hok2 Hrem2).
    rewrite !advanced_advanced.
    rewrite combine_16 by (Z.div_mod_to_equations; lia).
    rewrite combine_24 by (Z.div_mod_to_equations; lia).
    f_equal. Z.div_mod_to_equations; lia. }
  cbn [app length]. intros Hrem.
  rewrite (decoder_read_integer_8_ok d _ _ Hok Hrem).
  destruct (advanced_one d _ _ Hok Hrem) as (Hok1 & Hrem1).
  eval_land.
  rewrite (decoder_read_integer_32_ok _ _ _ _ _ _ Hok1 Hrem1).
  rewrite advanced_advanced.
  rewrite combine_32 by (Z.div_mod_to_equations; lia).
  f_equal. Z.div_mod_to_equations; lia.
Qed.

Lemma written_init (buf : list Z) (size : Z) :
  written (encoder_init buf size) = [].
Proof. reflexivity. Qed.

Lemma length_determinant_written (v : Z) (buf : list Z) :
  0 <= v < 2 ^ 32 -> 5 <= Z.of_nat (length buf) < 2 ^ 62 ->
  written (encoder_append_length_determinant
             (encoder_init buf (Z.of_nat (length buf))) v)
  = length_determinant_bytes v.
Proof.
  intros Hv Hbuf.
  pose proof (encoder_init_ok buf (proj2 Hbuf)) as Hok.
  assert (Hfit : e_pos (encoder_init buf (Z.of_nat (length buf))) + 5
                 <= e_size (encoder_init buf (Z.of_nat (length buf)))).
  { unfold encoder_init; cbn [e_pos e_size].
    rewrite to_ssize_t_small by lia. lia. }
  rewrite encoder_append_length_determinant_ok by assumption.
  rewrite appended_written.
  - apply app_nil_l.
  - assumption.
  - pose proof (length_determinant_bytes_length v). lia.
Qed.

(** C5: the length determinant encoder produces the bytes of the boundary
    table for 127, 128, 255, 256, 65535, 65536, 16777215 and 16777216 (in
    any buffer with room for them), and the decoder maps each of these byte
    sequences back to the value. *)
Theorem C5_length_determinant_boundary_table (buf : list Z) :
  5 <= Z.of_nat (length buf) < 2 ^ 62 ->
  let enc v :=
    written (encoder_append_length_determinant
               (encoder_init buf (Z.of_nat (length buf))) v) in
  let dec bytes :=
    snd (decoder_read_length_determinant
           (decoder_init bytes (Z.of_nat (length bytes)))) in
  (enc 127 = [0x7F]
   /\ enc 128 = [0x81; 0x80]
   /\ enc 255 = [0x81; 0xFF]
   /\ enc 256 = [0x82; 0x01; 0x00]
   /\ enc 65535 = [0x82; 0xFF; 0xFF]
   /\ enc 65536 = [0x83; 0x01; 0x00; 0x00]
   /\ enc 16777215 = [0x83; 0xFF; 0xFF; 0xFF]
   /\ enc 16777216 = [0x84; 0x01; 0x00; 0x00; 0x00])
  /\ (dec [0x7F] = 127
      /\ dec [0x81; 0x80] = 128
      /\ dec [0x81; 0xFF] = 255
      /\ dec [0x82; 0x01; 0x00] = 256
      /\ dec [0x82; 0xFF; 0xFF] = 65535
      /\ dec [0x83; 0x01; 0x00; 0x00] = 65536
      /\ dec [0x83; 0xFF; 0xFF; 0xFF] = 16777215
      /\ dec [0x84; 0x01; 0x00; 0x00; 0x00] = 16777216).
Proof.
  intros Hbuf enc dec. split.
  - subst enc. cbv beta.
    rewrite !length_determinant_written by (assumption || lia).
    repeat split; reflexivity.
  - subst dec. cbv beta. repeat split; vm_compute; reflexivity.
Qed.

Lemma C5_length_determinant_boundary_table_witness :
  let buf := repeat 0 8%nat in
  5 <= Z.of_nat (length buf) < 2 ^ 62
  /\ written (encoder_append_length_determinant
                (encoder_init buf (Z.of_nat (length buf))) 65536)
     = [0x83; 0x01; 0x00; 0x00].
Proof.
  intros buf.
  assert (Hbuf : 5 <= Z.of_nat (length buf) < 2 ^ 62) by (simpl; lia).
  split; [exact Hbuf |].
  exact (proj1 (proj2 (proj2 (proj2 (proj2 (proj2 (proj1
    (C5_length_determinant_boundary_table buf Hbuf)))))))).
Defined.

(** C6: for every 32-bit unsigned value [v], decoding the bytes that the
    length determinant encoder produced for [v] (in a buffer with room for
    them) yields [v] again, and consumes exactly those bytes without
    error. *)
Theorem C6_length_determinant_roundtrip (v : Z) (buf : list Z) :
  0 <= v < 2 ^ 32 ->
  5 <= Z.of_nat (length buf) < 2 ^ 62 ->
  let bytes :=
    written (encoder_append_length_determinant
               (encoder_init buf (Z.of_nat (length buf))) v) in
  let '(d, decoded) :=
    decoder_read_length_determinant
      (decoder_init bytes (Z.of_nat (length bytes))) in
  decoded = v /\ decoder_get_result d = Z.of_nat (length bytes).
Proof.
  intros Hv Hbuf bytes. subst bytes.
  rewrite length_determinant_written by assumption.
  pose proof (length_determinant_bytes_length v) as Hlen.
  destruct (decoder_init_ok (length_determinant_bytes v)) as (Hok & Hrem);
    [lia |].
  rewrite (decoder_read_length_determinant_ok _ v []);
    [| assumption | assumption | rewrite app_nil_r; assumption].
  split; [reflexivity |].
  unfold decoder_get_result, advanced, decoder_init. cbn [d_pos]. lia.
Qed.

Lemma C6_length_determinant_roundtrip_witness :
  let buf := repeat 0 8%nat in
  (0 <= 70000 < 2 ^ 32 /\ 5 <= Z.of_nat (length buf) < 2 ^ 62)
  /\ let bytes :=
       written (encoder_append_length_determinant
                  (encoder_init buf (Z.of_nat (length buf))) 70000) in
     let '(d, decoded) :=
       decoder_read_length_determinant
         (decoder_init bytes (Z.of_nat (length bytes))) in
     decoded = 70000 /\ decoder_get_result d = Z.of_nat (length bytes).
Proof.
  intros buf.
  assert (Hv : 0 <= 70000 < 2 ^ 32) by lia.
  assert (Hbuf : 5 <= Z.of_nat (length buf) < 2 ^ 62) by (simpl; lia).
  split; [split; assumption |].
  exact (C6_length_determinant_roundtrip 70000 buf Hv Hbuf).
Defined.

(** ** Generic integer primitives *)

(** C10: for a [number_of_bytes] outside the dispatched widths the two
    generic primitives differ.  [encoder_append_integer] with a width other
    than 1, 2 and 3 does what width 4 does: it appends the four big-endian
    bytes of the value.  [decoder_read_integer] with a width other than 1,
    2, 3 and 4 returns the sentinel [0xffffffff] and leaves the decoder as
    it was, so no input is consumed. *)
Theorem C10_integer_default_branches (e : encoder_t) (d : decoder_t)
  (value number_of_bytes : Z) :
  0 <= number_of_bytes < 256 ->
  number_of_bytes <> 1 -> number_of_bytes <> 2 -> number_of_bytes <> 3 ->
  (encoder_append_integer e value number_of_bytes
   = encoder_append_integer e value 4
   /\ (encoder_ok e -> e_pos e + 4 <= e_size e -> 0 <= value < 2 ^ 32 ->
       encoder_append_integer e value number_of_bytes
       = appended e [value / 16777216; value / 65536 mod 256;
                     value / 256 mod 256; value mod 256]))
  /\ (number_of_bytes <> 4 ->
      decoder_read_integer d number_of_bytes = (d, 0xffffffff)).
Proof.
  intros Hn H1 H2 H3.
  assert (Hu : to_uint8 number_of_bytes = number_of_bytes)
    by (apply Z.mod_small; lia).
  assert (Henc : encoder_append_integer e value number_of_bytes
                 = encoder_append_integer_32 e (to_uint32 value)).
  { unfold encoder_append_integer. rewrite Hu. cbv zeta.
    destruct (Z.eqb_spec number_of_bytes 1); [contradiction |].
    destruct (Z.eqb_spec number_of_bytes 2); [contradiction |].
    destruct (Z.eqb_spec number_of_bytes 3); [contradiction |].
    reflexivity. }
  split; [split |].
  - rewrite Henc. reflexivity.
  - intros Hok Hfit Hv. rewrite Henc.
    unfold to_uint32. rewrite Z.mod_small by lia.
    apply encoder_append_integer_32_ok; assumption.
  - intros H4. unfold decoder_read_integer. rewrite Hu. cbv zeta.
    destruct (Z.eqb_spec number_of_bytes 1); [contradiction |].
    destruct (Z.eqb_spec number_of_bytes 2); [contradiction |].
    destruct (Z.eqb_spec number_of_bytes 3); [contradiction |].
    destruct (Z.eqb_spec number_of_bytes 4); [contradiction |].
    reflexivity.
Qed.

Lemma C10_integer_default_branches_witness :
  (0 <= 5 < 256 /\ 5 <> 1 /\ 5 <> 2 /\ 5 <> 3 /\ 5 <> 4)
  /\ written (encoder_append_integer (encoder_init (repeat 0 8%nat) 8)
                0x01020304 5)
     = [1; 2; 3; 4]
  /\ decoder_read_integer (decoder_init [9; 9; 9; 9; 9] 5) 5
     = (decoder_init [9; 9; 9; 9; 9] 5, 0xffffffff).
Proof.
  assert (Hn : 0 <= 5 < 256) by lia.
  assert (H1 : 5 <> 1) by lia. assert (H2 : 5 <> 2) by lia.
  assert (H3 : 5 <> 3) by lia. assert (H4 : 5 <> 4) by lia.
  split; [lia |].
  destruct (C10_integer_default_branches
              (encoder_init (repeat 0 8%nat) 8)
              (decoder_init [9; 9; 9; 9; 9] 5) 0x01020304 5 Hn H1 H2 H3)
    as ((Henc & _) & Hdec).
  split.
  - rewrite Henc. vm_compute. reflexivity.
  - exact (Hdec H4).
Defined.

(** ** Latched errors *)

Lemma encoder_alloc_latched (e : encoder_t) (size : Z) :
  encoder_latched e -> 0 <= size < 2 ^ 62 ->
  exists pos, pos < 0 /\ encoder_alloc e size = (e, pos).
Proof.
  intros (Hneg & Hsize & Hlow) Hn. unfold encoder_alloc.
  rewrite to_ssize_t_small by lia.
  destruct (Z.leb_spec (e_pos e + size) (e_size e)).
  - assert (size = 0) by lia. subst size.
    exists (e_pos e). split; [assumption |].
    rewrite Z.add_0_r, to_ssize_t_small by lia.
    destruct e; reflexivity.
  - exists (- ENOMEM). split; [reflexivity |].
    unfold encoder_abort.
    destruct (Z.leb_spec 0 (e_pos e)); [lia | reflexivity].
Qed.

Lemma encoder_append_bytes_latched (e : encoder_t) (src : list Z) :
  encoder_latched e -> Z.of_nat (length src) < 2 ^ 62 ->
  encoder_append_bytes e src = e.
Proof.
  intros Hl Hn. unfold encoder_append_bytes.
  destruct (encoder_alloc_latched e (Z.of_nat (length src)) Hl)
    as (pos & Hpos & ->); [lia |].
  destruct (Z.ltb_spec pos 0); [reflexivity | lia].
Qed.

Lemma encoder_append_bytes_overflow (e : encoder_t) (src : list Z) :
  encoder_ok e -> Z.of_nat (length src) < 2 ^ 62 ->
  e_size e < e_pos e + Z.of_nat (length src) ->
  encoder_append_bytes e src = encoder_abort e ENOMEM
  /\ encoder_abort e ENOMEM
     = {| e_buf_p := e_buf_p e; e_size := - ENOMEM; e_pos := - ENOMEM;
          e_oob := e_oob e |}.
Proof.
  intros (Hpos & Hcap & Hbig) Hn Hover.
  unfold encoder_append_bytes, encoder_alloc.
  rewrite to_ssize_t_small by lia.
  destruct (Z.leb_spec (e_pos e + Z.of_nat (length src)) (e_size e));
    [lia |].
  change (- ENOMEM <? 0) with true. cbv iota.
  split; [reflexivity |]. unfold encoder_abort.
  destruct (Z.leb_spec 0 (e_pos e)); [reflexivity | lia].
Qed.

Lemma decoder_free_latched (d : decoder_t) (size : Z) :
  decoder_latched d -> 0 <= size < 2 ^ 62 ->
  exists pos, - 2 ^ 62 < pos < 0
              /\ decoder_free d size = (d, to_size_t pos).
Proof.
  intros (Hneg & Hsize & Hlow) Hn. unfold decoder_free.
  rewrite to_ssize_t_small by lia.
  destruct (Z.leb_spec (d_pos d + size) (d_size d)).
  - assert (size = 0) by lia. subst size.
    exists (d_pos d). split; [lia |].
    rewrite Z.add_0_r, to_ssize_t_small by lia.
    destruct d; reflexivity.
  - exists (- EOUTOFDATA). split; [unfold EOUTOFDATA; lia |].
    unfold decoder_abort.
    destruct (Z.leb_spec 0 (d_pos d)); [lia | reflexivity].
Qed.

Lemma decoder_read_bytes_latched (d : decoder_t) (size : Z) :
  decoder_latched d -> 0 <= size < 2 ^ 62 ->
  decoder_read_bytes d size = (d, repeat 0 (Z.to_nat size)).
Proof.
  intros Hl Hn. unfold decoder_read_bytes.
  destruct (decoder_free_latched d size Hl Hn) as (pos & Hpos & ->).
  rewrite to_size_t_ssize_t by lia.
  destruct (Z.leb_spec 0 pos); [lia | reflexivity].
Qed.

Lemma decoder_read_bytes_underflow (d : decoder_t) (size : Z) :
  decoder_ok d -> 0 <= size < 2 ^ 62 -> d_size d < d_pos d + size ->
  decoder_read_bytes d size
  = (decoder_abort d EOUTOFDATA, repeat 0 (Z.to_nat size))
  /\ decoder_abort d EOUTOFDATA
     = {| d_buf_p := d_buf_p d; d_size := - EOUTOFDATA;
          d_pos := - EOUTOFDATA; d_oob := d_oob d |}.
Proof.
  intros (Hpos & Hcap & Hbig) Hn Hunder.
  unfold decoder_read_bytes, decoder_free.
  rewrite to_ssize_t_small by lia.
  destruct (Z.leb_spec (d_pos d + size) (d_size d)); [lia |].
  rewrite to_size_t_ssize_t by (unfold EOUTOFDATA; lia).
  change (0 <=? - EOUTOFDATA) with false. cbv iota.
  split; [reflexivity |]. unfold decoder_abort.
  destruct (Z.leb_spec 0 (d_pos d)); [reflexivity | lia].
Qed.

(** On a latched encoder every append primitive returns the context as it
    is. *)
Lemma encoder_primitives_latched (e : encoder_t) :
  encoder_latched e ->
  forall value : Z,
    encoder_append_integer_8 e value = e
    /\ encoder_append_integer_16 e value = e
    /\ encoder_append_integer_32 e value = e
    /\ encoder_append_integer_64 e value = e
    /\ (forall number_of_bytes,
          encoder_append_integer e value number_of_bytes = e)
    /\ encoder_append_float e value = e
    /\ encoder_append_double e value = e
    /\ (forall b, encoder_append_bool e b = e)
    /\ encoder_append_length_determinant e value = e.
Proof.
  intros Hl.
  assert (H8 : forall v, encoder_append_integer_8 e v = e).
  { intros v. unfold encoder_append_integer_8.
    apply encoder_append_bytes_latched; [assumption | cbn [length]; lia]. }
  assert (H16 : forall v, encoder_append_integer_16 e v = e).
  { intros v. unfold encoder_append_integer_16.
    apply encoder_append_bytes_latched; [assumption | cbn [length]; lia]. }
  assert (H32 : forall v, encoder_append_integer_32 e v = e).
  { intros v. unfold encoder_append_integer_32.
    apply encoder_append_bytes_latched; [assumption | cbn [length]; lia]. }
  assert (H64 : forall v, encoder_append_integer_64 e v = e).
  { intros v. unfold encoder_append_integer_64.
    apply encoder_append_bytes_latched; [assumption | cbn [length]; lia]. }
  intros value. repeat apply conj; auto.
  - intros n. unfold encoder_append_integer.
    repeat match goal with
      | |- context [if ?c then _ else _] => destruct c
      end; rewrite ?H8, ?H16, ?H32; reflexivity.
  - unfold encoder_append_float. apply H32.
  - unfold encoder_append_double. apply H64.
  - intros b. unfold encoder_append_bool. apply H8.
  - unfold encoder_append_length_determinant.
    repeat match goal with
      | |- context [if ?c then _ else _] => destruct c
      end; rewrite ?H8, ?H16, ?H32; reflexivity.
Qed.

(** On a latched decoder every read primitive returns zero and the context
    as it is. *)
Lemma decoder_primitives_latched (d : decoder_t) :
  decoder_latched d ->
  decoder_read_integer_8 d = (d, 0)
  /\ decoder_read_integer_16 d = (d, 0)
  /\ decoder_read_integer_32 d = (d, 0)
  /\ decoder_read_integer_64 d = (d, 0)
  /\ decoder_read_float d = (d, 0)
  /\ decoder_read_double d = (d, 0)
  /\ decoder_read_bool d = (d, false)
  /\ decoder_read_length_determinant d = (d, 0).
Proof.
  intros Hl.
  assert (H8 : decoder_read_integer_8 d = (d, 0)).
  { unfold decoder_read_integer_8.
    rewrite decoder_read_bytes_latched by (assumption || lia). reflexivity. }
  assert (H16 : decoder_read_integer_16 d = (d, 0)).
  { unfold decoder_read_integer_16.
    rewrite decoder_read_bytes_latched by (assumption || lia). reflexivity. }
  assert (H32 : decoder_read_integer_32 d = (d, 0)).
  { unfold decoder_read_integer_32.
    rewrite decoder_read_bytes_latched by (assumption || lia). reflexivity. }
  assert (H64 : decoder_read_integer_64 d = (d, 0)).
  { unfold decoder_read_integer_64.
    rewrite decoder_read_bytes_latched by (assumption || lia). reflexivity. }
  repeat apply conj; auto.
  - unfold decoder_read_bool. rewrite H8. reflexivity.
  - unfold decoder_read_length_determinant. rewrite H8. reflexivity.
Qed.

(** C9: once an error is latched, every later call of the byte primitives
    is a no-op without any access to the buffers.  An append that does not
    fit latches [ENOMEM] and skips the [memcpy] (buffer and out-of-bounds
    flag stay as they were); on a latched encoder [encoder_append_bytes]
    returns the context unchanged.  A read past the input latches
    [EOUTOFDATA] and hands out zero bytes; on a latched decoder
    [decoder_read_bytes] leaves the context unchanged and fills the
    destination with zeros.  The integer primitives, built on these two,
    are then no-ops as well.  In the normal state neither byte primitive
    raises the out-of-bounds flag. *)
Theorem C9_latched_primitives_are_safe_noops (e : encoder_t)
  (d : decoder_t) (src : list Z) (size : Z) :
  Z.of_nat (length src) < 2 ^ 62 -> 0 <= size < 2 ^ 62 ->
  (encoder_ok e ->
   e_oob (encoder_append_bytes e src) = e_oob e
   /\ (e_size e < e_pos e + Z.of_nat (length src) ->
       encoder_latched (encoder_append_bytes e src)
       /\ encoder_get_result (encoder_append_bytes e src) = - ENOMEM
       /\ e_buf_p (encoder_append_bytes e src) = e_buf_p e))
  /\ (encoder_latched e -> encoder_append_bytes e src = e)
  /\ (decoder_ok d ->
      d_oob (fst (decoder_read_bytes d size)) = d_oob d
      /\ (d_size d < d_pos d + size ->
          decoder_latched (fst (decoder_read_bytes d size))
          /\ decoder_get_result (fst (decoder_read_bytes d size))
             = - EOUTOFDATA
          /\ snd (decoder_read_bytes d size) = repeat 0 (Z.to_nat size)))
  /\ (decoder_latched d ->
      decoder_read_bytes d size = (d, repeat 0 (Z.to_nat size)))
  /\ (encoder_latched e ->
      forall value,
        encoder_append_integer_8 e value = e
        /\ encoder_append_integer_32 e value = e
        /\ encoder_append_length_determinant e value = e)
  /\ (decoder_latched d ->
      decoder_read_integer_8 d = (d, 0)
      /\ decoder_read_integer_32 d = (d, 0)
      /\ decoder_read_length_determinant d = (d, 0)).
Proof.
  intros Hsrc Hsize. repeat apply conj.
  - intros Hok.
    destruct (Z_le_gt_dec (e_pos e + Z.of_nat (length src)) (e_size e))
      as [Hfit | Hover].
    + split; [| lia].
      rewrite encoder_append_bytes_ok by assumption. reflexivity.
    + destruct (encoder_append_bytes_overflow e src Hok Hsrc) as (-> & ->);
        [lia |].
      split; [reflexivity |]. intros _.
      unfold encoder_latched, encoder_get_result, ENOMEM.
      cbn [e_pos e_size e_buf_p]. repeat split; lia.
  - intros Hl. apply encoder_append_bytes_latched; assumption.
  - intros Hok.
    destruct (Z_le_gt_dec (d_pos d + size) (d_size d)) as [Hfit | Hunder].
    + split; [| lia].
      unfold decoder_read_bytes.
      rewrite decoder_free_ok by (assumption || lia).
      destruct Hok as (Hpos & Hcap & Hbig).
      rewrite to_size_t_ssize_t by lia.
      destruct (Z.leb_spec 0 (d_pos d)); [| lia].
      unfold in_bounds, advanced. cbn [d_buf_p].
      destruct (Z.leb_spec 0 (d_pos d)); [| lia].
      destruct (Z.leb_spec (d_pos d + size)
                  (Z.of_nat (length (d_buf_p d)))); [| lia].
      reflexivity.
    + destruct (decoder_read_bytes_underflow d size Hok Hsize) as (-> & ->);
        [lia |].
      split; [reflexivity |]. intros _.
      unfold decoder_latched, decoder_get_result, EOUTOFDATA.
      cbn [fst snd d_pos d_size]. repeat split; lia.
  - intros Hl. apply decoder_read_bytes_latched; assumption.
  - intros Hl value.
    destruct (encoder_primitives_latched e Hl value)
      as (H8 & _ & H32 & _ & _ & _ & _ & _ & Hld).
    auto.
  - intros Hl.
    destruct (decoder_primitives_latched d Hl)
      as (H8 & _ & H32 & _ & _ & _ & _ & Hld).
    auto.
Qed.

Lemma C9_latched_primitives_are_safe_noops_witness :
  (Z.of_nat (length [7; 8; 9]) < 2 ^ 62 /\ 0 <= 3 < 2 ^ 62)
  /\ encoder_append_bytes
       (encoder_append_bytes (encoder_init [0; 0] 2) [7; 8; 9]) [7; 8; 9]
     = encoder_append_bytes (encoder_init [0; 0] 2) [7; 8; 9]
  /\ decoder_read_bytes (fst (decoder_read_bytes (decoder_init [1; 2] 2) 3)) 3
     = (fst (decoder_read_bytes (decoder_init [1; 2] 2) 3), [0; 0; 0]).
Proof.
  assert (Hsrc : Z.of_nat (length [7; 8; 9]) < 2 ^ 62) by (simpl; lia).
  assert (Hsize : 0 <= 3 < 2 ^ 62) by lia.
  split; [split; assumption |].
  split.
  - refine (proj1 (proj2 (C9_latched_primitives_are_safe_noops
      (encoder_append_bytes (encoder_init [0; 0] 2) [7; 8; 9])
      (decoder_init [1; 2] 2) [7; 8; 9] 3 Hsrc Hsize)) _).
    vm_compute. repeat split; discriminate.
  - refine (proj1 (proj2 (proj2 (proj2
      (C9_latched_primitives_are_safe_noops
         (encoder_init [0; 0] 2)
         (fst (decoder_read_bytes (decoder_init [1; 2] 2) 3))
         [7; 8; 9] 3 Hsrc Hsize)))) _).
    vm_compute. repeat split; discriminate.
Defined.

(** ** CHOICE *)

Lemma choice_encode_case (cases : list (Z * attrs * codec)) (src : value)
  (e : encoder_t) (n : string) (t : Z) (a : attrs) (mc : codec) :
  get_field "choice" src = VEnum n ->
  case_of_name n cases = Some (t, a, mc) ->
  choice_encode cases src e
  = encode mc (get_field (name a) (get_field "value" src))
      (encoder_append_integer_8 e t).
Proof.
  intros Hchoice. induction cases as [| [[t' a'] c'] rest IH];
    cbn [case_of_name choice_encode]; [discriminate |].
  rewrite Hchoice.
  destruct (String.eqb n (name a')).
  - intros [= -> -> ->]. reflexivity.
  - exact IH.
Qed.

Lemma choice_encode_default (cases : list (Z * attrs * codec)) (src : value)
  (e : encoder_t) (n : string) :
  get_field "choice" src = VEnum n ->
  case_of_name n cases = None ->
  choice_encode cases src e = encoder_abort e EBADCHOICE.
Proof.
  intros Hchoice. induction cases as [| [[t' a'] c'] rest IH];
    cbn [case_of_name choice_encode]; [reflexivity |].
  rewrite Hchoice.
  destruct (String.eqb n (name a')); [discriminate | exact IH].
Qed.

Lemma choice_decode_case (cases : list (Z * attrs * codec)) (tag_ : Z)
  (dst : value) (d : decoder_t) (t : Z) (a : attrs) (mc : codec) :
  case_of_tag tag_ cases = Some (t, a, mc) ->
  choice_decode cases tag_ dst d
  = let dst := set_field "choice" (VEnum (name a)) dst in
    let '(ret, d, v) :=
      decode_field mc (name a) (get_field "value" dst) d in
    (ret, d, set_field "value" v dst).
Proof.
  induction cases as [| [[t' a'] c'] rest IH];
    cbn [case_of_tag choice_decode]; [discriminate |].
  destruct (tag_ =? t').
  - intros [= -> -> ->]. reflexivity.
  - exact IH.
Qed.

Lemma choice_decode_default (cases : list (Z * attrs * codec)) (tag_ : Z)
  (dst : value) (d : decoder_t) :
  case_of_tag tag_ cases = None ->
  choice_decode cases tag_ dst d = (false, decoder_abort d EBADCHOICE, dst).
Proof.
  induction cases as [| [[t' a'] c'] rest IH];
    cbn [case_of_tag choice_decode]; [reflexivity |].
  destruct (tag_ =? t'); [discriminate | exact IH].
Qed.

(** The cases are the members, in declaration order, each with its single
    tag byte. *)
Lemma choice_members_tags (members : list (attrs * result codec))
  (cases : list (Z * attrs * codec)) :
  choice_members members = Ok cases ->
  map (fun x => (snd (fst x), Ok (snd x))) cases = members
  /\ Forall (fun x => tag (snd (fst x)) = [fst (fst x)]) cases.
Proof.
  revert cases. induction members as [| [a r] rest IH]; intros cases.
  - intros [= <-]. split; [reflexivity | constructor].
  - cbn [choice_members]. destruct r as [c | ex]; cbn [bind]; [| discriminate].
    destruct (tag a) as [| t [| t' more]] eqn:Htag; try discriminate.
    destruct (choice_members rest) as [cases' | ex]; cbn [bind];
      [| discriminate].
    intros [= <-]. destruct (IH cases' eq_refl) as (Hmap & Hall).
    split.
    + cbn [map fst snd]. rewrite Hmap. reflexivity.
    + constructor; [exact Htag | exact Hall].
Qed.

(** C8: a choice over one-byte-tag alternatives.  The encoder writes the
    tag byte of the selected alternative and then that alternative's
    payload; with tags [0x01] for an integer and [0x02] for a boolean, the
    boolean alternative with value true encodes to [[0x02; 0xFF]].  The
    decoder reads exactly one tag byte and selects the alternative with that
    tag: it sets the [choice] member to the alternative's enumerator and
    runs the decode lines of the alternative on its member of [value], from
    the byte after the tag, so that [[0x02; 0xFF]] decodes to the boolean
    alternative with value true.  A tag of no alternative (such as [0x03])
    ends in [decoder_abort(.., EBADCHOICE)] right after the tag byte, with
    the destination untouched and no further byte read. *)
Theorem C8_choice_tag_dispatch :
  (run_encode example_choice example_choice_src = Some [0x02; 0xFF]
   /\ run_decode example_choice [0x03; 0x2A]
      = Some (false,
              {| d_buf_p := [0x03; 0x2A]; d_size := - EBADCHOICE;
                 d_pos := - EBADCHOICE; d_oob := false |},
              VStruct [])
   /\ run_decode example_choice [0x02; 0xFF]
      = Some (false,
              {| d_buf_p := [0x02; 0xFF]; d_size := 2; d_pos := 2;
                 d_oob := false |},
              VStruct [("choice"%string, VEnum "b");
                       ("value"%string,
                        VStruct [("b"%string, VInt 1)])]))
  /\ forall (members : list (attrs * result codec)) (c : codec),
      format_choice_inner members = Ok c ->
      exists cases : list (Z * attrs * codec),
        map (fun x => (snd (fst x), Ok (snd x))) cases = members
        /\ Forall (fun x => tag (snd (fst x)) = [fst (fst x)]) cases
        /\ (forall src e n t a mc,
              get_field "choice" src = VEnum n ->
              case_of_name n cases = Some (t, a, mc) ->
              encode c src e
              = encode mc (get_field (name a) (get_field "value" src))
                  (encoder_append_integer_8 e t)
              /\ (encoder_ok e -> e_pos e + 1 <= e_size e ->
                  encoder_append_integer_8 e t = appended e [t mod 256]))
        /\ (forall dst d tag_ rest,
              decoder_ok d -> remaining d = tag_ :: rest ->
              (case_of_tag tag_ cases = None ->
               decode c dst d
               = (false, decoder_abort (advanced d 1) EBADCHOICE, dst)
               /\ decoder_abort (advanced d 1) EBADCHOICE
                  = {| d_buf_p := d_buf_p d; d_size := - EBADCHOICE;
                       d_pos := - EBADCHOICE; d_oob := d_oob d |})
              /\ (forall t a mc,
                    case_of_tag tag_ cases = Some (t, a, mc) ->
                    decode c dst d
                    = let dst := set_field "choice" (VEnum (name a)) dst in
                      let '(ret, d, v) :=
                        decode mc
                          (get_field (name a) (get_field "value" dst))
                          (advanced d 1) in
                      (ret, d,
                       set_field "value"
                         (set_field (name a) v (get_field "value" dst))
                         dst))).
Proof.
  split; [split; [| split]; vm_compute; reflexivity |].
  intros members c Hc. unfold format_choice_inner in Hc.
  destruct (choice_members members) as [cases | ex] eqn:Hcases;
    cbn [bind] in Hc; [| discriminate].
  injection Hc as <-.
  destruct (choice_members_tags members cases Hcases) as (Hmap & Htags).
  exists cases. split; [assumption |]. split; [assumption |]. split.
  - intros src e n t a mc Hchoice Hcase. split.
    + cbn [encode]. apply (choice_encode_case cases src e n); assumption.
    + intros Hok Hfit. apply encoder_append_integer_8_ok; assumption.
  - intros dst d tag_ rest Hok Hrem. split.
    + intros Hnone. split.
      * cbn [decode].
        rewrite (decoder_read_integer_8_ok d tag_ rest) by assumption.
        apply choice_decode_default; assumption.
      * unfold decoder_abort, advanced. cbn [d_pos d_buf_p d_oob].
        destruct Hok as (Hpos & _).
        destruct (Z.leb_spec 0 (d_pos d + 1)); [reflexivity | lia].
    + intros t a mc Hsome. cbn [decode].
      rewrite (decoder_read_integer_8_ok d tag_ rest) by assumption.
      rewrite (choice_decode_case cases tag_ dst _ t a mc Hsome).
      cbv zeta. unfold decode_field.
      destruct (decode mc _ (advanced d 1)) as [[ret d'] v].
      reflexivity.
Qed.

Lemma example_choice_ok :
  exists c : codec, format_type_inner no_user_types example_choice = Ok c.
Proof. eexists. reflexivity. Qed.

Lemma C8_choice_tag_dispatch_witness :
  exists c : codec,
    format_type_inner no_user_types example_choice = Ok c
    /\ exists cases : list (Z * attrs * codec),
         map (fun x => fst (fst x)) cases = [0x01; 0x02].
Proof.
  destruct example_choice_ok as (c & Hc).
  exists c. split; [exact Hc |].
  destruct (proj2 C8_choice_tag_dispatch
    [(mk_attrs "i" false None [0x01], Ok (format_integer_inner 0 255));
     (mk_attrs "b" false None [0x02], Ok format_boolean_inner)] c Hc)
    as (cases & Hmap & Htags & _).
  exists cases.
  destruct cases as [| [[t1 a1] c1] [| [[t2 a2] c2] [| x more]]];
    try discriminate Hmap.
  injection Hmap as Ha1 _ Ha2 _.
  inversion Htags as [| x l Ht1 Hrest]; subst.
  inversion Hrest as [| x l Ht2 _]; subst.
  cbn [fst snd tag] in Ht1, Ht2. cbn [map fst].
  injection Ht1 as <-. injection Ht2 as <-. reflexivity.
Defined.

(** ** SEQUENCE OF with a fixed count *)

(** What the generated decoder of a fixed count does with the two leading
    bytes: it aborts when the first is not 1 or the second exceeds the
    count, and otherwise decodes [maximum] elements. *)
Lemma fixed_sequence_of_decode (maximum : Z) (element c : codec)
  (dst : value) (d : decoder_t) (n len : Z) (rest : list Z) :
  format_sequence_of_inner maximum maximum (Ok element) = Ok c ->
  decoder_ok d -> remaining d = n :: len :: rest ->
  decode c dst d
  = if negb (n =? 1) || (maximum <? len)
    then (true, decoder_abort (advanced d 2) EBADLENGTH, dst)
    else decode_elements element (Z.to_nat maximum) 0 dst (advanced d 2).
Proof.
  intros Hc Hok Hrem. unfold format_sequence_of_inner in Hc.
  cbn [bind] in Hc. rewrite Z.eqb_refl in Hc. injection Hc as <-.
  cbn [decode].
  rewrite (decoder_read_integer_8_ok d n (len :: rest)) by assumption.
  destruct (advanced_one d n (len :: rest) Hok Hrem) as (Hok1 & Hrem1).
  rewrite (decoder_read_integer_8_ok _ len rest) by assumption.
  rewrite advanced_advanced. reflexivity.
Qed.

(** C1 (defect): with a fixed count of 3 the encoder emits
    [[0x01; 0x03]] and the three elements, and the decoder aborts with
    [EBADLENGTH] when the first byte is not 1 or the second byte is above
    3; but a second byte below the declared count (here 2) is accepted,
    and three elements are decoded all the same. *)
Theorem C1_fixed_sequence_of_accepts_smaller_count :
  run_encode example_sequence_of true_false_true
  = Some [0x01; 0x03; 0xFF; 0x00; 0xFF]
  /\ run_decode example_sequence_of [0x01; 0x02; 0xFF; 0x00; 0xFF]
     = Some (false,
             {| d_buf_p := [0x01; 0x02; 0xFF; 0x00; 0xFF]; d_size := 5;
                d_pos := 5; d_oob := false |},
             true_false_true)
  /\ run_decode example_sequence_of [0x01; 0x04; 0xFF; 0x00; 0xFF]
     = Some (true,
             {| d_buf_p := [0x01; 0x04; 0xFF; 0x00; 0xFF];
                d_size := - EBADLENGTH; d_pos := - EBADLENGTH;
                d_oob := false |},
             VStruct [])
  /\ run_decode example_sequence_of [0x02; 0x03; 0xFF; 0x00; 0xFF]
     = Some (true,
             {| d_buf_p := [0x02; 0x03; 0xFF; 0x00; 0xFF];
                d_size := - EBADLENGTH; d_pos := - EBADLENGTH;
                d_oob := false |},
             VStruct []).
Proof. repeat split; vm_compute; reflexivity. Qed.

(** ** Dependency ordering *)

(** C4 (defect): for the chain [A -> C -> B], given in the base order
    [A; B; C], the emitted order is [C; A; B]: [C] refers to [B] and is
    placed before it.  The generator run on the schema of that chain emits
    the user types in this order. *)
Theorem C4_sort_places_user_before_used :
  map type_name (sort_user_types_by_used_user_types chain_A_C_B)
  = ["C"; "A"; "B"]%string
  /\ uses (example_user_type "C" [("B", "M")%string]) ("B", "M")%string
     = true
  /\ position ("C", "M")%string
       (sort_user_types_by_used_user_types chain_A_C_B) = Some 0%nat
  /\ position ("B", "M")%string
       (sort_user_types_by_used_user_types chain_A_C_B) = Some 2%nat
  /\ emitted_names
       (generate (G := example_generator) no_user_types chain_module)
     = Some ["C"; "A"; "B"]%string.
Proof. repeat split; vm_compute; reflexivity. Qed.

(** ** Helper selection *)

(** C3 (defect): for definitions that call only the one-byte integer
    primitives, the helper block holds the structures and those two
    primitives.  [encoder_append_integer_8] calls [encoder_append_bytes],
    which is left out, as are [encoder_alloc] and [encoder_abort] behind
    it: the block is not closed under the primitives' dependencies. *)
Theorem C3_helpers_not_closed_under_dependencies :
  generate_helpers integer_definitions
  = [ENCODER_AND_DECODER_STRUCTS; ENCODER_APPEND_INTEGER_8;
     DECODER_READ_INTEGER_8; ""%string]
  /\ calls ENCODER_APPEND_INTEGER_8 "encoder_append_bytes" = true
  /\ included (generate_helpers integer_definitions) ENCODER_APPEND_BYTES
     = false
  /\ closed_under_dependencies (generate_helpers integer_definitions)
     = false.
Proof. repeat split; vm_compute; reflexivity. Qed.

(** ** Unsupported schema shapes *)

(** The loop of [format_choice_inner] ends at the first alternative whose
    tag is not one byte, once the lines of the alternatives before it and
    its own were generated; the alternatives after it are not looked at. *)
Lemma choice_members_first_wide_tag (pre post : list (attrs * result codec))
  (a : attrs) (r : result codec) :
  Forall (fun m => (exists c, snd m = Ok c) /\ length (tag (fst m)) = 1%nat)
    pre ->
  (exists c, r = Ok c) -> length (tag a) <> 1%nat ->
  choice_members (pre ++ (a, r) :: post) = Raise wide_tag_error.
Proof.
  intros Hpre (c & ->) Hwide.
  induction Hpre as [| [a' r'] rest ((c' & Hc') & Htag) _ IH];
    cbn [app choice_members bind].
  - destruct (tag a) as [| t [| t' more]]; try reflexivity.
    cbn [length] in Hwide. contradiction.
  - cbn [fst snd] in Hc', Htag. subst r'. cbn [bind].
    destruct (tag a') as [| t [| t' more]]; try discriminate Htag.
    rewrite IH. reflexivity.
Qed.

(** C2 (as the code has it): a REAL that is neither binary32 nor binary64
    makes [format_real] raise the labelled [Error], which
    [generate_type_declaration] catches: the type gets an empty declaration
    and is skipped, without any error reported.  A choice alternative whose
    tag is not exactly one byte makes [format_choice_inner] raise the
    labelled [NotImplementedError] once the lines of the alternatives up to
    it were generated, whatever the alternatives after it are; it is not
    caught, so the generation of that type, and with it the whole run, ends
    there. *)
Theorem C2_unsupported_shapes (G : Generator)
  (env : string -> string -> codec) (module_name type_name : string)
  (a : attrs) (pre : list type_) (member : type_) (post : list type_) :
  (format_real None
   = Raise (Error "REAL not IEEE 754 binary32 or binary64.")
   /\ generate_type_declaration module_name type_name (Real a None) = Ok []
   /\ generate_user_type env module_name type_name (Real a None) = Ok None
   /\ forall rest user_types,
        generate_types env module_name ((type_name, Real a None) :: rest)
          user_types
        = generate_types env module_name rest user_types)
  /\ (Forall (fun m => (exists c, format_type_inner env m = Ok c)
                       /\ length (tag (attrs_of m)) = 1%nat) pre ->
      (exists c, format_type_inner env member = Ok c) ->
      length (tag (attrs_of member)) <> 1%nat ->
      let root_members := pre ++ member :: post in
      generate_definition_inner env (Choice a root_members)
      = Raise wide_tag_error
      /\ forall line lines,
           generate_type_declaration module_name type_name
             (Choice a root_members) = Ok (line :: lines) ->
           generate_user_type env module_name type_name
             (Choice a root_members) = Raise wide_tag_error
           /\ forall rest user_types,
                generate_types env module_name
                  ((type_name, Choice a root_members) :: rest) user_types
                = Raise wide_tag_error).
Proof.
  split.
  - repeat split.
  - intros Hpre Hmember Hwide root_members.
    assert (Hdef : generate_definition_inner env (Choice a root_members)
                   = Raise wide_tag_error).
    { cbn [generate_definition_inner format_type_inner].
      unfold format_choice_inner. subst root_members.
      rewrite map_app. cbn [map].
      rewrite choice_members_first_wide_tag; [reflexivity | | |].
      - apply Forall_map. cbn [fst snd]. exact Hpre.
      - exact Hmember.
      - exact Hwide. }
    split; [exact Hdef |].
    intros line lines Hdecl.
    assert (Huser : generate_user_type env module_name type_name
                      (Choice a root_members) = Raise wide_tag_error).
    { unfold generate_user_type. rewrite Hdecl. cbn [bind].
      rewrite Hdef. reflexivity. }
    split; [exact Huser |].
    intros rest user_types. cbn [generate_types]. rewrite Huser.
    reflexivity.
Qed.

Lemma C2_unsupported_shapes_witness :
  let pre := [Integer (mk_attrs "i" false None [0x01]) 0 255] in
  let member := Boolean (mk_attrs "b" false None [0x9F; 0x20]) in
  let post := [UTF8String (mk_attrs "u" false None [0x03])] in
  (Forall (fun m => (exists c, format_type_inner no_user_types m = Ok c)
                    /\ length (tag (attrs_of m)) = 1%nat) pre
   /\ (exists c, format_type_inner no_user_types member = Ok c)
   /\ length (tag (attrs_of member)) <> 1%nat)
  /\ generate_definition_inner no_user_types
       (Choice (mk_attrs "" false None []) (pre ++ member :: post))
     = Raise wide_tag_error.
Proof.
  intros pre member post.
  assert (Hpre : Forall
            (fun m => (exists c, format_type_inner no_user_types m = Ok c)
                      /\ length (tag (attrs_of m)) = 1%nat) pre).
  { constructor; [| constructor].
    split; [eexists; reflexivity | reflexivity]. }
  assert (Hmember : exists c, format_type_inner no_user_types member = Ok c)
    by (eexists; reflexivity).
  assert (Hwide : length (tag (attrs_of member)) <> 1%nat)
    by (simpl; lia).
  split; [exact (conj Hpre (conj Hmember Hwide)) |].
  exact (proj1 (proj2 (C2_unsupported_shapes example_generator
                         no_user_types "M" "C"
                         (mk_attrs "" false None []) pre member post)
                  Hpre Hmember Hwide)).
Defined.

(** At a module whose only type is such a REAL the generator ends normally,
    with no user type emitted: it does not abort. *)
Lemma C2_counterexample :
  generate (G := example_generator) no_user_types real_module = Ok []
  /\ ~ aborted (generate (G := example_generator) no_user_types real_module).
Proof.
  assert (H : generate (G := example_generator) no_user_types real_module
              = Ok []) by reflexivity.
  split; [exact H |].
  intros (e & He). rewrite H in He. discriminate He.
Qed.

(** ** SEQUENCE: the presence mask *)





Lemma or_at_length (byte : nat) (mask : Z) (present_mask : list Z) :
  length (or_at byte mask present_mask) = length present_mask.
Proof.
  revert byte. induction present_mask as [| x rest IH]; intros [| byte];
    cbn [or_at length]; try reflexivity.
  rewrite IH. reflexivity.
Qed.




Lemma encode_present_mask_length {A : Type} (optionals : list (attrs * A))
  (i : nat) (src : value) (present_mask : list Z) :
  length (encode_present_mask optionals i src present_mask)
  = length present_mask.
Proof.
  revert i present_mask.
  induction optionals as [| [a x] rest IH]; intros i present_mask;
    cbn [encode_present_mask]; [reflexivity |].
  rewrite IH. destruct (encode_condition a src);
    [apply or_at_length | reflexivity].
Qed.





(** ** SEQUENCE: the presence flags and the mask of a default member *)




Lemma assoc_set_same {A : Type} (k : string) (x : A)
  (l : list (string * A)) :
  assoc k (assoc_set k x l) = Some x.
Proof.
  induction l as [| [k' y] rest IH]; cbn [assoc_set assoc].
  - rewrite String.eqb_refl. reflexivity.
  - destruct (String.eqb k k') eqn:Hk; cbn [assoc].
    + rewrite String.eqb_refl. reflexivity.
    + rewrite Hk. exact IH.
Qed.

Lemma assoc_set_other {A : Type} (k k' : string) (x : A)
  (l : list (string * A)) :
  k <> k' -> assoc k (assoc_set k' x l) = assoc k l.
Proof.
  intros Hne. apply String.eqb_neq in Hne.
  induction l as [| [k'' y] rest IH]; cbn [assoc_set assoc].
  - rewrite Hne. reflexivity.
  - destruct (String.eqb k' k'') eqn:Hk; cbn [assoc].
    + apply String.eqb_eq in Hk. subst k''. rewrite Hne. reflexivity.
    + rewrite IH. reflexivity.
Qed.

Lemma get_set_field_same (f : string) (x v : value) :
  get_field f (set_field f x v) = x.
Proof.
  destruct v; cbn [set_field get_field assoc];
    rewrite ?String.eqb_refl, ?assoc_set_same; reflexivity.
Qed.

Lemma get_set_field_other (f g : string) (x v : value) :
  f <> g -> get_field f (set_field g x v) = get_field f v.
Proof.
  intros Hne. destruct v; cbn [set_field get_field assoc];
    rewrite ?assoc_set_other by assumption; try reflexivity;
    apply String.eqb_neq in Hne; rewrite Hne; reflexivity.
Qed.










(** * Further properties *)

(** ** Dependency ordering *)

(** One step of the loop of [sort_user_types_by_used_user_types]. *)
Lemma list_insert_permutation {A : Type} (index : nat) (x : A)
  (l : list A) :
  Permutation (list_insert index x l) (x :: l).
Proof.
  unfold list_insert. symmetry.
  rewrite <- (firstn_skipn index l) at 1.
  apply Permutation_middle.
Qed.

Lemma sort_fold_permutation (user_types acc : list UserType) :
  Permutation
    (fold_left
       (fun reversed_sorted_user_types user_type =>
          list_insert
            (find_insert_index (type_name user_type, module_name user_type)
               reversed_sorted_user_types 1 0)
            user_type reversed_sorted_user_types)
       user_types acc)
    (user_types ++ acc).
Proof.
  revert acc. induction user_types as [| u rest IH]; intros acc;
    cbn [fold_left app]; [reflexivity |].
  rewrite IH. rewrite list_insert_permutation.
  symmetry. apply Permutation_middle.
Qed.

(** X1: the emitted order is a permutation of the input: no user type is
    lost or emitted twice, whatever the references are (cycles
    included). *)
Theorem sort_user_types_permutation (user_types : list UserType) :
  Permutation (sort_user_types_by_used_user_types user_types) user_types.
Proof.
  unfold sort_user_types_by_used_user_types.
  rewrite <- Permutation_rev.
  rewrite sort_fold_permutation. rewrite app_nil_r. reflexivity.
Qed.

Lemma sort_as_fold (user_types : list UserType) :
  sort_user_types_by_used_user_types user_types
  = rev (fold_left insert_step user_types []).
Proof. reflexivity. Qed.

Lemma find_insert_index_unused (n : string * string) (l : list UserType)
  (i insert_index : nat) :
  Forall (fun u => uses u n = false) l ->
  find_insert_index n l i insert_index = insert_index.
Proof.
  intros H. revert i. induction H as [| u rest Hu _ IH]; intros i;
    cbn [find_insert_index]; [reflexivity |].
  rewrite Hu. apply IH.
Qed.

Lemma fold_insert_step_ordered (user_types acc : list UserType) :
  Forall (fun u => Forall (fun t => uses u (name_tuple t) = false)
                     user_types) acc ->
  no_forward_use user_types ->
  fold_left insert_step user_types acc = rev user_types ++ acc.
Proof.
  revert acc. induction user_types as [| u rest IH]; intros acc Hacc Hl;
    cbn [fold_left rev]; [reflexivity |].
  destruct Hl as (Hu & Hrest).
  assert (Hstep : insert_step acc u = u :: acc).
  { unfold insert_step. rewrite find_insert_index_unused; [reflexivity |].
    eapply Forall_impl; [| exact Hacc].
    intros a Ha. inversion Ha; assumption. }
  rewrite Hstep, IH.
  - rewrite <- app_assoc. reflexivity.
  - constructor; [exact Hu |].
    eapply Forall_impl; [| exact Hacc].
    intros a Ha. inversion Ha; assumption.
  - exact Hrest.
Qed.

(** X2: when the input is already in dependency order (no user type refers
    to one that comes later), the function returns it unchanged; in
    particular user types without references keep the base order. *)
Theorem sort_user_types_ordered_input (user_types : list UserType) :
  no_forward_use user_types ->
  sort_user_types_by_used_user_types user_types = user_types.
Proof.
  intros H. rewrite sort_as_fold.
  rewrite fold_insert_step_ordered; [| constructor | exact H].
  rewrite app_nil_r. apply rev_involutive.
Qed.

Lemma sort_user_types_ordered_input_witness :
  let l := [example_user_type "B" [];
            example_user_type "C" [("B", "M")%string];
            example_user_type "A" [("C", "M")%string]] in
  no_forward_use l /\ sort_user_types_by_used_user_types l = l.
Proof.
  intros l.
  assert (H : no_forward_use l).
  { simpl. repeat split; repeat constructor. }
  split; [exact H |].
  exact (sort_user_types_ordered_input l H).
Defined.

Lemma before_app_l (x t : UserType) (l1 l2 : list UserType) :
  before x t l1 -> before x t (l1 ++ l2).
Proof.
  induction l1 as [| h rest IH]; cbn [before app]; [contradiction |].
  intros [(Hh & Hin) | Hb].
  - left. split; [exact Hh | apply in_or_app; left; exact Hin].
  - right. apply IH. exact Hb.
Qed.

Lemma before_app_split (x t : UserType) (l1 l2 : list UserType) :
  In x l1 -> In t l2 -> before x t (l1 ++ l2).
Proof.
  induction l1 as [| h rest IH]; cbn [In before app]; [contradiction |].
  intros [Hh | Hin] Ht.
  - left. split; [exact Hh | apply in_or_app; right; exact Ht].
  - right. apply IH; assumption.
Qed.

Lemma before_rev (x t : UserType) (l : list UserType) :
  before x t l -> before t x (rev l).
Proof.
  induction l as [| h rest IH]; cbn [before rev]; [contradiction |].
  intros [(Hh & Hin) | Hb].
  - apply before_app_split; [apply in_rev in Hin; exact Hin |].
    left. exact Hh.
  - apply before_app_l. apply IH. exact Hb.
Qed.

Lemma list_insert_cons {A : Type} (index : nat) (y h : A) (l : list A) :
  list_insert (S index) y (h :: l) = h :: list_insert index y l.
Proof. reflexivity. Qed.

Lemma in_list_insert {A : Type} (index : nat) (y t : A) (l : list A) :
  In t l -> In t (list_insert index y l).
Proof.
  intros H. apply (Permutation_in t (Permutation_sym
                     (list_insert_permutation index y l))).
  right. exact H.
Qed.

Lemma before_list_insert (x t y : UserType) (index : nat)
  (l : list UserType) :
  before x t l -> before x t (list_insert index y l).
Proof.
  revert index. induction l as [| h rest IH]; intros index;
    [contradiction |].
  destruct index as [| index].
  - intros H. right. exact H.
  - rewrite list_insert_cons. cbn [before].
    intros [(Hh & Hin) | Hb].
    + left. split; [exact Hh | apply in_list_insert; exact Hin].
    + right. apply IH. exact Hb.
Qed.

Lemma find_insert_index_ge (n : string * string) (l : list UserType)
  (i insert_index : nat) :
  (insert_index <= find_insert_index n l i insert_index)%nat.
Proof.
  revert i insert_index. induction l as [| h rest IH];
    intros i insert_index; cbn [find_insert_index]; [apply Nat.le_refl |].
  eapply Nat.le_trans; [| apply IH].
  destruct (uses h n); [| apply Nat.le_refl].
  destruct (Nat.ltb_spec insert_index i); lia.
Qed.

(** The insertion index lies behind every placed unit that uses the new
    one. *)
Lemma find_insert_index_behind_user (n : string * string) (x : UserType)
  (l : list UserType) (j insert_index : nat) :
  In x l -> uses x n = true ->
  In x (firstn (find_insert_index n l (S j) insert_index - j) l).
Proof.
  intros Hin Huse. revert j insert_index.
  induction l as [| h rest IH]; intros j insert_index; [contradiction |].
  cbn [find_insert_index].
  destruct Hin as [-> | Hin].
  - rewrite Huse.
    set (idx := if (insert_index <? S j)%nat then S j else insert_index).
    assert (Hidx : (S j <= idx)%nat)
      by (subst idx; destruct (Nat.ltb_spec insert_index (S j)); lia).
    pose proof (find_insert_index_ge n rest (S (S j)) idx) as Hge.
    destruct (find_insert_index n rest (S (S j)) idx - j)%nat eqn:Hsub;
      [lia |].
    left. reflexivity.
  - set (idx := if uses h n
                then if (insert_index <? S j)%nat then S j else insert_index
                else insert_index).
    specialize (IH Hin (S j) idx).
    destruct (find_insert_index n rest (S (S j)) idx - S j)%nat as [| m]
      eqn:Hsub; [contradiction |].
    replace (find_insert_index n rest (S (S j)) idx - j)%nat
      with (S (S m)) by lia.
    right. exact IH.
Qed.

Lemma insert_step_behind_user (x t : UserType) (l : list UserType) :
  In x l -> uses x (name_tuple t) = true ->
  before x t (insert_step l t).
Proof.
  intros Hin Huse. unfold insert_step, list_insert.
  apply before_app_split; [| left; reflexivity].
  pose proof (find_insert_index_behind_user (name_tuple t) x l 0 0 Hin Huse)
    as H.
  rewrite Nat.sub_0_r in H. exact H.
Qed.

Lemma fold_insert_step_before (x t : UserType) (l acc : list UserType) :
  before x t acc -> before x t (fold_left insert_step l acc).
Proof.
  revert acc. induction l as [| u rest IH]; intros acc H;
    cbn [fold_left]; [exact H |].
  apply IH. unfold insert_step. apply before_list_insert. exact H.
Qed.

Lemma fold_insert_step_in (x : UserType) (l acc : list UserType) :
  In x l -> In x (fold_left insert_step l acc).
Proof.
  intros H.
  assert (Hperm : Permutation (fold_left insert_step l acc) (l ++ acc))
    by apply sort_fold_permutation.
  apply (Permutation_in x (Permutation_sym Hperm)).
  apply in_or_app. left. exact H.
Qed.

(** X3: a reference from an earlier user type of the base order to a later
    one is always honoured: when [x] refers to [t] and comes before it in
    the input, the used type [t] is emitted before its user [x]. *)
Theorem sort_user_types_earlier_user (x t : UserType)
  (l1 l2 l3 : list UserType) :
  uses x (name_tuple t) = true ->
  before t x
    (sort_user_types_by_used_user_types (l1 ++ x :: l2 ++ t :: l3)).
Proof.
  intros Huse. rewrite sort_as_fold. apply before_rev.
  replace (l1 ++ x :: l2 ++ t :: l3)
    with ((l1 ++ x :: l2) ++ t :: l3)
    by (rewrite <- app_assoc; reflexivity).
  rewrite fold_left_app. cbn [fold_left].
  apply fold_insert_step_before.
  apply insert_step_behind_user; [| exact Huse].
  apply fold_insert_step_in. apply in_or_app. right. left. reflexivity.
Qed.

Lemma sort_user_types_earlier_user_witness :
  let A := example_user_type "A" [("C", "M")%string] in
  let B := example_user_type "B" [] in
  let C := example_user_type "C" [("B", "M")%string] in
  uses A (name_tuple C) = true
  /\ before C A (sort_user_types_by_used_user_types ([] ++ A :: [B] ++ C :: [])).
Proof.
  intros A B C.
  assert (H : uses A (name_tuple C) = true) by reflexivity.
  split; [exact H |].
  exact (sort_user_types_earlier_user A C [] [B] [] H).
Defined.

(** ** Fixed-width integers *)

Lemma lor_add_disjoint (x lo n : Z) :
  0 <= n -> x mod 2 ^ n = 0 -> 0 <= lo < 2 ^ n -> Z.lor x lo = x + lo.
Proof.
  intros Hn Hx Hlo.
  assert (Hdiv : x = x / 2 ^ n * 2 ^ n).
  { pose proof (Z.div_mod x (2 ^ n)). lia. }
  rewrite Hdiv at 1. rewrite <- Z.shiftl_mul_pow2 by lia.
  rewrite lor_shiftl_add by lia. lia.
Qed.

Lemma combine_64 (b0 b1 b2 b3 b4 b5 b6 b7 : Z) :
  0 <= b0 < 256 -> 0 <= b1 < 256 -> 0 <= b2 < 256 -> 0 <= b3 < 256 ->
  0 <= b4 < 256 -> 0 <= b5 < 256 -> 0 <= b6 < 256 -> 0 <= b7 < 256 ->
  to_uint64
    (Z.lor (Z.lor (Z.lor (Z.lor (Z.lor (Z.lor (Z.lor
       (Z.shiftl b0 56) (Z.shiftl b1 48)) (Z.shiftl b2 40))
       (Z.shiftl b3 32)) (Z.shiftl b4 24)) (Z.shiftl b5 16))
       (Z.shiftl b6 8)) b7)
  = b0 * 2 ^ 56 + b1 * 2 ^ 48 + b2 * 2 ^ 40 + b3 * 2 ^ 32
    + b4 * 2 ^ 24 + b5 * 2 ^ 16 + b6 * 2 ^ 8 + b7.
Proof.
  intros H0 H1 H2 H3 H4 H5 H6 H7.
  rewrite !Z.shiftl_mul_pow2 by lia.
  rewrite (lor_add_disjoint _ (b1 * 2 ^ 48) 56)
    by (try lia; Z.div_mod_to_equations; lia).
  rewrite (lor_add_disjoint _ (b2 * 2 ^ 40) 48)
    by (try lia; Z.div_mod_to_equations; lia).
  rewrite (lor_add_disjoint _ (b3 * 2 ^ 32) 40)
    by (try lia; Z.div_mod_to_equations; lia).
  rewrite (lor_add_disjoint _ (b4 * 2 ^ 24) 32)
    by (try lia; Z.div_mod_to_equations; lia).
  rewrite (lor_add_disjoint _ (b5 * 2 ^ 16) 24)
    by (try lia; Z.div_mod_to_equations; lia).
  rewrite (lor_add_disjoint _ (b6 * 2 ^ 8) 16)
    by (try lia; Z.div_mod_to_equations; lia).
  rewrite (lor_add_disjoint _ b7 8)
    by (try lia; Z.div_mod_to_equations; lia).
  unfold to_uint64. apply Z.mod_small. lia.
Qed.

Lemma encoder_append_integer_64_ok (e : encoder_t) (value : Z) :
  encoder_ok e -> e_pos e + 8 <= e_size e -> 0 <= value < 2 ^ 64 ->
  encoder_append_integer_64 e value
  = appended e [value / 2 ^ 56 mod 256; value / 2 ^ 48 mod 256;
                value / 2 ^ 40 mod 256; value / 2 ^ 32 mod 256;
                value / 2 ^ 24 mod 256; value / 2 ^ 16 mod 256;
                value / 2 ^ 8 mod 256; value mod 256].
Proof.
  intros Hok Hfit Hv. unfold encoder_append_integer_64.
  rewrite encoder_append_bytes_ok by (cbn [length]; assumption || lia).
  unfold to_uint64, to_uint8. rewrite (Z.mod_small value (2 ^ 64)) by lia.
  rewrite !Z.shiftr_div_pow2 by lia. reflexivity.
Qed.

Lemma decoder_read_integer_64_ok (d : decoder_t)
  (b0 b1 b2 b3 b4 b5 b6 b7 : Z) (rest : list Z) :
  decoder_ok d ->
  remaining d = b0 :: b1 :: b2 :: b3 :: b4 :: b5 :: b6 :: b7 :: rest ->
  decoder_read_integer_64 d
  = (advanced d 8,
     to_uint64
       (Z.lor (Z.lor (Z.lor (Z.lor (Z.lor (Z.lor (Z.lor
          (Z.shiftl b0 56) (Z.shiftl b1 48)) (Z.shiftl b2 40))
          (Z.shiftl b3 32)) (Z.shiftl b4 24)) (Z.shiftl b5 16))
          (Z.shiftl b6 8)) b7)).
Proof.
  intros Hok Hrem. unfold decoder_read_integer_64.
  change 8 with (Z.of_nat (length [b0; b1; b2; b3; b4; b5; b6; b7])).
  rewrite (decoder_read_bytes_ok d [b0; b1; b2; b3; b4; b5; b6; b7] rest)
    by assumption.
  reflexivity.
Qed.

Lemma to_uint8_range (z : Z) : 0 <= to_uint8 z < 256.
Proof. unfold to_uint8. apply Z.mod_pos_bound. lia. Qed.

Lemma integer_8_roundtrip (e : encoder_t) (value : Z) :
  encoder_ok e -> e_pos e + 1 <= e_size e ->
  exists bytes, length bytes = 1%nat
    /\ encoder_append_integer_8 e value = appended e bytes
    /\ forall d rest, decoder_ok d -> remaining d = bytes ++ rest ->
         decoder_read_integer_8 d = (advanced d 1, value mod 2 ^ 8).
Proof.
  intros Hok Hfit.
  exists [to_uint8 value]. repeat apply conj; [reflexivity | |].
  - unfold encoder_append_integer_8.
    apply encoder_append_bytes_ok; [assumption | cbn [length]; lia].
  - intros d rest Hd Hrem.
    apply (decoder_read_integer_8_ok d _ rest); assumption.
Qed.

Lemma integer_16_roundtrip (e : encoder_t) (value : Z) :
  encoder_ok e -> e_pos e + 2 <= e_size e ->
  exists bytes, length bytes = 2%nat
    /\ encoder_append_integer_16 e value = appended e bytes
    /\ forall d rest, decoder_ok d -> remaining d = bytes ++ rest ->
         decoder_read_integer_16 d = (advanced d 2, value mod 2 ^ 16).
Proof.
  intros Hok Hfit.
  pose proof (Z.mod_pos_bound value (2 ^ 16) ltac:(lia)) as Hv.
  exists [to_uint8 (Z.shiftr (to_uint16 value) 8);
          to_uint8 (to_uint16 value)].
  repeat apply conj; [reflexivity | |].
  - unfold encoder_append_integer_16.
    apply encoder_append_bytes_ok; [assumption | cbn [length]; lia].
  - intros d rest Hd Hrem.
    rewrite (decoder_read_integer_16_ok d _ _ rest Hd Hrem).
    rewrite combine_16 by apply to_uint8_range.
    f_equal. unfold to_uint8, to_uint16 in *.
    rewrite Z.shiftr_div_pow2 by lia.
    Z.div_mod_to_equations; lia.
Qed.

Lemma integer_32_roundtrip (e : encoder_t) (value : Z) :
  encoder_ok e -> e_pos e + 4 <= e_size e ->
  exists bytes, length bytes = 4%nat
    /\ encoder_append_integer_32 e value = appended e bytes
    /\ forall d rest, decoder_ok d -> remaining d = bytes ++ rest ->
         decoder_read_integer_32 d = (advanced d 4, value mod 2 ^ 32).
Proof.
  intros Hok Hfit.
  pose proof (Z.mod_pos_bound value (2 ^ 32) ltac:(lia)) as Hv.
  exists [to_uint8 (Z.shiftr (to_uint32 value) 24);
          to_uint8 (Z.shiftr (to_uint32 value) 16);
          to_uint8 (Z.shiftr (to_uint32 value) 8);
          to_uint8 (to_uint32 value)].
  repeat apply conj; [reflexivity | |].
  - unfold encoder_append_integer_32.
    apply encoder_append_bytes_ok; [assumption | cbn [length]; lia].
  - intros d rest Hd Hrem.
    rewrite (decoder_read_integer_32_ok d _ _ _ _ rest Hd Hrem).
    rewrite combine_32 by apply to_uint8_range.
    f_equal. unfold to_uint8, to_uint32 in *.
    rewrite !Z.shiftr_div_pow2 by lia.
    Z.div_mod_to_equations; lia.
Qed.

Lemma integer_64_roundtrip (e : encoder_t) (value : Z) :
  encoder_ok e -> e_pos e + 8 <= e_size e ->
  exists bytes, length bytes = 8%nat
    /\ encoder_append_integer_64 e value = appended e bytes
    /\ forall d rest, decoder_ok d -> remaining d = bytes ++ rest ->
         decoder_read_integer_64 d = (advanced d 8, value mod 2 ^ 64).
Proof.
  intros Hok Hfit.
  pose proof (Z.mod_pos_bound value (2 ^ 64) ltac:(lia)) as Hv.
  exists [to_uint8 (Z.shiftr (to_uint64 value) 56);
          to_uint8 (Z.shiftr (to_uint64 value) 48);
          to_uint8 (Z.shiftr (to_uint64 value) 40);
          to_uint8 (Z.shiftr (to_uint64 value) 32);
          to_uint8 (Z.shiftr (to_uint64 value) 24);
          to_uint8 (Z.shiftr (to_uint64 value) 16);
          to_uint8 (Z.shiftr (to_uint64 value) 8);
          to_uint8 (to_uint64 value)].
  repeat apply conj; [reflexivity | |].
  - unfold encoder_append_integer_64.
    apply encoder_append_bytes_ok; [assumption | cbn [length]; lia].
  - intros d rest Hd Hrem.
    rewrite (decoder_read_integer_64_ok d _ _ _ _ _ _ _ _ rest Hd Hrem).
    rewrite combine_64 by apply to_uint8_range.
    f_equal. unfold to_uint8, to_uint64 in *.
    rewrite !Z.shiftr_div_pow2 by lia.
    Z.div_mod_to_equations; lia.
Qed.

(** X4: the fixed-width integer primitives are inverse to each other.  In
    the normal state with room, each append primitive stores a fixed number
    of bytes (1, 2, 4 or 8), and the read primitive of the same width, put
    in front of these bytes in any input, returns the value reduced to that
    width and advances by exactly that number of bytes. *)
Theorem fixed_width_integers_roundtrip (e : encoder_t) (value : Z) :
  encoder_ok e -> e_pos e + 8 <= e_size e ->
  (exists bytes, length bytes = 1%nat
     /\ encoder_append_integer_8 e value = appended e bytes
     /\ forall d rest, decoder_ok d -> remaining d = bytes ++ rest ->
          decoder_read_integer_8 d = (advanced d 1, value mod 2 ^ 8))
  /\ (exists bytes, length bytes = 2%nat
        /\ encoder_append_integer_16 e value = appended e bytes
        /\ forall d rest, decoder_ok d -> remaining d = bytes ++ rest ->
             decoder_read_integer_16 d = (advanced d 2, value mod 2 ^ 16))
  /\ (exists bytes, length bytes = 4%nat
        /\ encoder_append_integer_32 e value = appended e bytes
        /\ forall d rest, decoder_ok d -> remaining d = bytes ++ rest ->
             decoder_read_integer_32 d = (advanced d 4, value mod 2 ^ 32))
  /\ (exists bytes, length bytes = 8%nat
        /\ encoder_append_integer_64 e value = appended e bytes
        /\ forall d rest, decoder_ok d -> remaining d = bytes ++ rest ->
             decoder_read_integer_64 d = (advanced d 8, value mod 2 ^ 64)).
Proof.
  intros Hok Hfit. repeat apply conj.
  - apply integer_8_roundtrip; [assumption | lia].
  - apply integer_16_roundtrip; [assumption | lia].
  - apply integer_32_roundtrip; [assumption | lia].
  - apply integer_64_roundtrip; assumption.
Qed.

Lemma encoder_init_room (buf : list Z) (n : Z) :
  Z.of_nat (length buf) < 2 ^ 62 -> n <= Z.of_nat (length buf) ->
  encoder_ok (encoder_init buf (Z.of_nat (length buf)))
  /\ e_pos (encoder_init buf (Z.of_nat (length buf))) + n
     <= e_size (encoder_init buf (Z.of_nat (length buf))).
Proof.
  intros Hlen Hn. split; [apply encoder_init_ok; assumption |].
  unfold encoder_init. cbn [e_pos e_size].
  rewrite to_ssize_t_small by lia. lia.
Qed.

Lemma fixed_width_integers_roundtrip_witness :
  let e := encoder_init (repeat 0 8%nat) 8 in
  (encoder_ok e /\ e_pos e + 8 <= e_size e)
  /\ exists bytes, length bytes = 2%nat
       /\ encoder_append_integer_16 e 0x1234 = appended e bytes.
Proof.
  intros e.
  destruct (encoder_init_room (repeat 0 8%nat) 8) as (Hok & Hfit);
    [simpl; lia | simpl; lia |].
  split; [split; [exact Hok | exact Hfit] |].
  destruct (proj1 (proj2 (fixed_width_integers_roundtrip e 0x1234 Hok Hfit)))
    as (bytes & Hlen & Henc & _).
  exists bytes. split; assumption.
Defined.

(** ** The generic integer primitives *)

Lemma integer_bytes_roundtrip (value number_of_bytes : Z) :
  1 <= number_of_bytes <= 4 ->
  Z.of_nat (length (integer_bytes number_of_bytes value)) = number_of_bytes
  /\ (forall e, encoder_ok e -> e_pos e + number_of_bytes <= e_size e ->
        encoder_append_integer e value number_of_bytes
        = appended e (integer_bytes number_of_bytes value))
  /\ forall d rest, decoder_ok d ->
        remaining d = integer_bytes number_of_bytes value ++ rest ->
        decoder_read_integer d number_of_bytes
        = (advanced d number_of_bytes,
           value mod 2 ^ (8 * number_of_bytes)).
Proof.
  intros Hn.
  pose proof (Z.mod_pos_bound value (2 ^ 32) ltac:(lia)) as Hv.
  assert (Hcases : number_of_bytes = 1 \/ number_of_bytes = 2
                   \/ number_of_bytes = 3 \/ number_of_bytes = 4) by lia.
  unfold encoder_append_integer, decoder_read_integer, integer_bytes.
  destruct Hcases as [-> | [-> | [-> | ->]]];
    change (to_uint8 1) with 1; change (to_uint8 2) with 2;
    change (to_uint8 3) with 3; change (to_uint8 4) with 4;
    cbn [Z.eqb Pos.eqb]; cbv zeta.
  - repeat apply conj; [reflexivity | |].
    + intros e Hok Hfit. unfold encoder_append_integer_8.
      apply encoder_append_bytes_ok; [assumption | cbn [length]; lia].
    + intros d rest Hd Hrem.
      rewrite (decoder_read_integer_8_ok d _ rest Hd Hrem).
      f_equal. unfold to_uint8, to_uint32 in *.
      Z.div_mod_to_equations; lia.
  - repeat apply conj; [reflexivity | |].
    + intros e Hok Hfit. unfold encoder_append_integer_16.
      apply encoder_append_bytes_ok; [assumption | cbn [length]; lia].
    + intros d rest Hd Hrem.
      rewrite (decoder_read_integer_16_ok d _ _ rest Hd Hrem).
      rewrite combine_16 by apply to_uint8_range.
      f_equal. unfold to_uint8, to_uint16, to_uint32 in *.
      rewrite Z.shiftr_div_pow2 by lia.
      Z.div_mod_to_equations; lia.
  - repeat apply conj; [reflexivity | |].
    + intros e Hok Hfit. unfold encoder_append_integer_8 at 1.
      rewrite (encoder_append_bytes_ok e) by (cbn [length]; assumption || lia).
      apply (after_appended
               (fun e => encoder_append_integer_16 e (to_uint32 value))
               e [to_uint8 (Z.shiftr (to_uint32 value) 16)]
               [to_uint8 (Z.shiftr (to_uint16 (to_uint32 value)) 8);
                to_uint8 (to_uint16 (to_uint32 value))]);
        [| assumption | cbn [length]; lia].
      intros e' Hok' Hfit'. unfold encoder_append_integer_16.
      apply encoder_append_bytes_ok; assumption.
    + intros d rest Hd Hrem. cbn [app] in Hrem.
      rewrite (decoder_read_integer_8_ok d _ _ Hd Hrem).
      destruct (advanced_one d _ _ Hd Hrem) as (Hd1 & Hrem1).
      rewrite (decoder_read_integer_16_ok _ _ _ rest Hd1 Hrem1).
      rewrite advanced_advanced.
      rewrite combine_16 by apply to_uint8_range.
      rewrite combine_24;
        [| apply to_uint8_range
         | pose proof (to_uint8_range
                         (Z.shiftr (to_uint16 (to_uint32 value)) 8));
           pose proof (to_uint8_range (to_uint16 (to_uint32 value)));
           lia].
      f_equal. unfold to_uint8, to_uint16, to_uint32 in *.
      rewrite !Z.shiftr_div_pow2 by lia.
      change (2 ^ (8 * 3)) with 16777216.
      Z.div_mod_to_equations; lia.
  - repeat apply conj; [reflexivity | |].
    + intros e Hok Hfit. unfold encoder_append_integer_32.
      apply encoder_append_bytes_ok; [assumption | cbn [length]; lia].
    + intros d rest Hd Hrem.
      rewrite (decoder_read_integer_32_ok d _ _ _ _ rest Hd Hrem).
      rewrite combine_32 by apply to_uint8_range.
      f_equal. unfold to_uint8, to_uint32 in *.
      rewrite !Z.shiftr_div_pow2 by lia.
      change (2 ^ (8 * 4)) with 4294967296.
      Z.div_mod_to_equations; lia.
Qed.

(** X5: for the dispatched widths 1 to 4, [encoder_append_integer] stores
    exactly [number_of_bytes] bytes, and [decoder_read_integer] with the
    same width, put in front of them, returns the low [8 * number_of_bytes]
    bits of the value and advances by [number_of_bytes]. *)
Theorem generic_integer_roundtrip (e : encoder_t)
  (value number_of_bytes : Z) :
  encoder_ok e -> e_pos e + 4 <= e_size e -> 1 <= number_of_bytes <= 4 ->
  exists bytes,
    Z.of_nat (length bytes) = number_of_bytes
    /\ encoder_append_integer e value number_of_bytes = appended e bytes
    /\ forall d rest, decoder_ok d -> remaining d = bytes ++ rest ->
         decoder_read_integer d number_of_bytes
         = (advanced d number_of_bytes,
            value mod 2 ^ (8 * number_of_bytes)).
Proof.
  intros Hok Hfit Hn.
  destruct (integer_bytes_roundtrip value number_of_bytes Hn)
    as (Hlen & Henc & Hdec).
  exists (integer_bytes number_of_bytes value).
  split; [exact Hlen |]. split; [| exact Hdec].
  apply Henc; [assumption | lia].
Qed.

Lemma generic_integer_roundtrip_witness :
  let e := encoder_init (repeat 0 8%nat) 8 in
  (encoder_ok e /\ e_pos e + 4 <= e_size e /\ 1 <= 3 <= 4)
  /\ exists bytes, Z.of_nat (length bytes) = 3
       /\ encoder_append_integer e 0x123456 3 = appended e bytes.
Proof.
  intros e.
  destruct (encoder_init_room (repeat 0 8%nat) 4) as (Hok & Hfit);
    [simpl; lia | simpl; lia |].
  assert (Hn : 1 <= 3 <= 4) by lia.
  split; [exact (conj Hok (conj Hfit Hn)) |].
  destruct (generic_integer_roundtrip e 0x123456 3 Hok Hfit Hn)
    as (bytes & Hlen & Henc & _).
  exists bytes. split; assumption.
Defined.

(** ** Booleans *)

(** X6: [encoder_append_bool] stores [0xFF] for true and [0x00] for false;
    [decoder_read_bool] maps these back, and takes every non-zero byte for
    true. *)
Theorem bool_roundtrip (e : encoder_t) (value : bool) :
  encoder_ok e -> e_pos e + 1 <= e_size e ->
  encoder_append_bool e value = appended e [if value then 255 else 0]
  /\ (forall d rest, decoder_ok d ->
        remaining d = (if value then 255 else 0) :: rest ->
        decoder_read_bool d = (advanced d 1, value))
  /\ (forall d x rest, decoder_ok d -> remaining d = x :: rest ->
        decoder_read_bool d = (advanced d 1, negb (x =? 0))).
Proof.
  intros Hok Hfit.
  assert (Hany : forall d x rest, decoder_ok d -> remaining d = x :: rest ->
                   decoder_read_bool d = (advanced d 1, negb (x =? 0))).
  { intros d x rest Hd Hrem. unfold decoder_read_bool.
    rewrite (decoder_read_integer_8_ok d x rest Hd Hrem). reflexivity. }
  repeat apply conj.
  - unfold encoder_append_bool.
    rewrite encoder_append_integer_8_ok by assumption.
    destruct value; reflexivity.
  - intros d rest Hd Hrem. rewrite (Hany d _ rest Hd Hrem).
    destruct value; reflexivity.
  - exact Hany.
Qed.

Lemma bool_roundtrip_witness :
  let e := encoder_init (repeat 0 8%nat) 8 in
  (encoder_ok e /\ e_pos e + 1 <= e_size e)
  /\ encoder_append_bool e true = appended e [255].
Proof.
  intros e.
  destruct (encoder_init_room (repeat 0 8%nat) 1) as (Hok & Hfit);
    [simpl; lia | simpl; lia |].
  split; [exact (conj Hok Hfit) |].
  exact (proj1 (bool_roundtrip e true Hok Hfit)).
Defined.

(** ** Length determinant, continued *)

(** X7: a first byte with the top bit set whose low seven bits are not 1, 2,
    3 or 4 (among them [0x80], the indefinite form) makes
    [decoder_read_length_determinant] return the sentinel [0xffffffff],
    after that one byte only. *)
Theorem length_determinant_reserved_selector (d : decoder_t) (b : Z)
  (rest : list Z) :
  decoder_ok d -> remaining d = b :: rest ->
  Z.land b 0x80 <> 0 ->
  Z.land b 0x7f <> 1 -> Z.land b 0x7f <> 2 ->
  Z.land b 0x7f <> 3 -> Z.land b 0x7f <> 4 ->
  decoder_read_length_determinant d = (advanced d 1, 0xffffffff).
Proof.
  intros Hd Hrem Htop H1 H2 H3 H4.
  unfold decoder_read_length_determinant.
  rewrite (decoder_read_integer_8_ok d b rest Hd Hrem).
  destruct (Z.eqb_spec (Z.land b 128) 0); [contradiction |].
  cbn [negb].
  destruct (Z.eqb_spec (Z.land b 127) 1); [contradiction |].
  destruct (Z.eqb_spec (Z.land b 127) 2); [contradiction |].
  destruct (Z.eqb_spec (Z.land b 127) 3); [contradiction |].
  destruct (Z.eqb_spec (Z.land b 127) 4); [contradiction |].
  reflexivity.
Qed.

Lemma length_determinant_reserved_selector_witness :
  let d := decoder_init [0x80; 0x01] 2 in
  (decoder_ok d /\ remaining d = 0x80 :: [0x01]
   /\ Z.land 0x80 0x80 <> 0 /\ Z.land 0x80 0x7f <> 1
   /\ Z.land 0x80 0x7f <> 2 /\ Z.land 0x80 0x7f <> 3
   /\ Z.land 0x80 0x7f <> 4)
  /\ decoder_read_length_determinant d = (advanced d 1, 0xffffffff).
Proof.
  intros d.
  destruct (decoder_init_ok [0x80; 0x01]) as (Hd & Hrem); [simpl; lia |].
  assert (Htop : Z.land 0x80 0x80 <> 0) by (simpl; lia).
  assert (H1 : Z.land 0x80 0x7f <> 1) by (simpl; lia).
  assert (H2 : Z.land 0x80 0x7f <> 2) by (simpl; lia).
  assert (H3 : Z.land 0x80 0x7f <> 3) by (simpl; lia).
  assert (H4 : Z.land 0x80 0x7f <> 4) by (simpl; lia).
  split;
    [exact (conj Hd (conj Hrem (conj Htop (conj H1 (conj H2
              (conj H3 H4)))))) |].
  exact (length_determinant_reserved_selector d 0x80 [0x01] Hd Hrem
           Htop H1 H2 H3 H4).
Defined.

(** X8: the length determinant is self-delimiting.  In the normal state
    with room the encoder appends 1, 2, 3, 4 or 5 bytes according to the
    range of the value; the decoder, put in front of these bytes and
    whatever follows them, returns the value, consumes exactly these bytes
    and stays in the normal state in front of the rest. *)
Theorem length_determinant_self_delimiting (e : encoder_t) (v : Z) :
  encoder_ok e -> 0 <= v < 2 ^ 32 -> e_pos e + 5 <= e_size e ->
  exists bytes,
    encoder_append_length_determinant e v = appended e bytes
    /\ written (encoder_append_length_determinant e v)
       = written e ++ bytes
    /\ Z.of_nat (length bytes)
       = (if v <? 128 then 1 else if v <? 256 then 2
          else if v <? 65536 then 3 else if v <? 16777216 then 4 else 5)
    /\ forall d rest, decoder_ok d -> remaining d = bytes ++ rest ->
         decoder_read_length_determinant d
         = (advanced d (Z.of_nat (length bytes)), v)
         /\ decoder_ok (advanced d (Z.of_nat (length bytes)))
         /\ remaining (advanced d (Z.of_nat (length bytes))) = rest.
Proof.
  intros Hok Hv Hfit. exists (length_determinant_bytes v).
  pose proof (length_determinant_bytes_length v) as Hlen.
  repeat apply conj.
  - apply encoder_append_length_determinant_ok; assumption.
  - rewrite encoder_append_length_determinant_ok by assumption.
    apply appended_written; [assumption | lia].
  - unfold length_determinant_bytes.
    repeat match goal with
      | |- context [if ?c then _ else _] => destruct c
      end; reflexivity.
  - intros d rest Hd Hrem. split.
    + apply (decoder_read_length_determinant_ok d v rest); assumption.
    + apply (advanced_ok d (length_determinant_bytes v) rest); assumption.
Qed.

Lemma length_determinant_self_delimiting_witness :
  let e := encoder_init (repeat 0 8%nat) 8 in
  (encoder_ok e /\ 0 <= 300 < 2 ^ 32 /\ e_pos e + 5 <= e_size e)
  /\ exists bytes,
       encoder_append_length_determinant e 300 = appended e bytes
       /\ Z.of_nat (length bytes) = 3.
Proof.
  intros e.
  destruct (encoder_init_room (repeat 0 8%nat) 5) as (Hok & Hfit);
    [simpl; lia | simpl; lia |].
  assert (Hv : 0 <= 300 < 2 ^ 32) by lia.
  split; [exact (conj Hok (conj Hv Hfit)) |].
  destruct (length_determinant_self_delimiting e 300 Hok Hv Hfit)
    as (bytes & Henc & _ & Hlen & _).
  exists bytes. split; [exact Henc | exact Hlen].
Defined.

(** ** The contexts stay usable and the buffers are respected *)

Lemma encoder_append_bytes_safe (e : encoder_t) (src : list Z) :
  encoder_safe e -> Z.of_nat (length src) < 2 ^ 62 ->
  encoder_safe (encoder_append_bytes e src)
  /\ length (e_buf_p (encoder_append_bytes e src)) = length (e_buf_p e).
Proof.
  intros ([Hok | Hl] & Hoob) Hsrc.
  - destruct (Z_le_gt_dec (e_pos e + Z.of_nat (length src)) (e_size e))
      as [Hfit | Hover].
    + rewrite encoder_append_bytes_ok by assumption. split.
      * split; [left; apply appended_ok; assumption | exact Hoob].
      * unfold appended. cbn [e_buf_p]. destruct Hok as (Hpos & Hcap & _).
        apply memcpy_to_length; lia.
    + destruct (encoder_append_bytes_overflow e src Hok Hsrc) as (-> & ->);
        [lia |].
      split; [| reflexivity]. split; [right | exact Hoob].
      unfold encoder_latched, ENOMEM. cbn [e_pos e_size]. lia.
  - rewrite encoder_append_bytes_latched by assumption.
    split; [split; [right; exact Hl | exact Hoob] | reflexivity].
Qed.

(** X9: every append primitive takes a usable encoder context (normal or
    latched, no access outside the buffer so far) to a usable one: the
    cursor never passes the capacity, the capacity never passes the buffer,
    and no [memcpy] leaves the buffer, whatever the values are. *)
Theorem encoder_primitives_keep_safe (e : encoder_t) (src : list Z)
  (value number_of_bytes : Z) (b : bool) :
  encoder_safe e -> Z.of_nat (length src) < 2 ^ 62 ->
  (encoder_safe (encoder_append_bytes e src)
   /\ length (e_buf_p (encoder_append_bytes e src)) = length (e_buf_p e))
  /\ encoder_safe (encoder_append_integer_8 e value)
  /\ encoder_safe (encoder_append_integer_16 e value)
  /\ encoder_safe (encoder_append_integer_32 e value)
  /\ encoder_safe (encoder_append_integer_64 e value)
  /\ encoder_safe (encoder_append_integer e value number_of_bytes)
  /\ encoder_safe (encoder_append_float e value)
  /\ encoder_safe (encoder_append_double e value)
  /\ encoder_safe (encoder_append_bool e b)
  /\ encoder_safe (encoder_append_length_determinant e value).
Proof.
  intros Hsafe Hsrc.
  assert (H8 : forall e v, encoder_safe e ->
                 encoder_safe (encoder_append_integer_8 e v)).
  { intros e' v H. unfold encoder_append_integer_8.
    apply encoder_append_bytes_safe; [exact H | cbn [length]; lia]. }
  assert (H16 : forall e v, encoder_safe e ->
                  encoder_safe (encoder_append_integer_16 e v)).
  { intros e' v H. unfold encoder_append_integer_16.
    apply encoder_append_bytes_safe; [exact H | cbn [length]; lia]. }
  assert (H32 : forall e v, encoder_safe e ->
                  encoder_safe (encoder_append_integer_32 e v)).
  { intros e' v H. unfold encoder_append_integer_32.
    apply encoder_append_bytes_safe; [exact H | cbn [length]; lia]. }
  assert (H64 : forall e v, encoder_safe e ->
                  encoder_safe (encoder_append_integer_64 e v)).
  { intros e' v H. unfold encoder_append_integer_64.
    apply encoder_append_bytes_safe; [exact H | cbn [length]; lia]. }
  split; [apply encoder_append_bytes_safe; assumption |].
  split; [auto |]. split; [auto |]. split; [auto |]. split; [auto |].
  split.
  { unfold encoder_append_integer.
    repeat match goal with
      | |- context [if ?c then _ else _] => destruct c
      end; auto. }
  split; [unfold encoder_append_float; auto |].
  split; [unfold encoder_append_double; auto |].
  split; [unfold encoder_append_bool; auto |].
  unfold encoder_append_length_determinant.
  repeat match goal with
    | |- context [if ?c then _ else _] => destruct c
    end; auto.
Qed.

Lemma encoder_primitives_keep_safe_witness :
  let e := encoder_init [0; 0] 2 in
  (encoder_safe e /\ Z.of_nat (length [1; 2; 3]) < 2 ^ 62)
  /\ encoder_safe (encoder_append_integer_32 e 7).
Proof.
  intros e.
  assert (Hsafe : encoder_safe e).
  { split; [left; apply (encoder_init_ok [0; 0]); simpl; lia
           | reflexivity]. }
  assert (Hsrc : Z.of_nat (length [1; 2; 3]) < 2 ^ 62) by (simpl; lia).
  split; [exact (conj Hsafe Hsrc) |].
  exact (proj1 (proj2 (proj2 (proj2
    (encoder_primitives_keep_safe e [1; 2; 3] 7 0 true Hsafe Hsrc))))).
Defined.

Lemma decoder_read_bytes_fits (d : decoder_t) (size : Z) :
  decoder_ok d -> 0 <= size -> d_pos d + size <= d_size d ->
  decoder_read_bytes d size
  = (advanced d size, memcpy_from (d_buf_p d) (d_pos d) size).
Proof.
  intros Hok Hsize Hfit. unfold decoder_read_bytes.
  rewrite decoder_free_ok by assumption.
  destruct Hok as (Hpos & Hcap & Hbig).
  rewrite to_size_t_ssize_t by lia.
  destruct (Z.leb_spec 0 (d_pos d)); [| lia].
  unfold in_bounds, advanced. cbn [d_buf_p].
  destruct (Z.leb_spec 0 (d_pos d)); [| lia].
  destruct (Z.leb_spec (d_pos d + size) (Z.of_nat (length (d_buf_p d))));
    [| lia].
  reflexivity.
Qed.

Lemma decoder_read_bytes_safe (d : decoder_t) (size : Z) :
  decoder_safe d -> 0 <= size < 2 ^ 62 ->
  decoder_safe (fst (decoder_read_bytes d size))
  /\ length (snd (decoder_read_bytes d size)) = Z.to_nat size
  /\ d_buf_p (fst (decoder_read_bytes d size)) = d_buf_p d.
Proof.
  intros ([Hok | Hl] & Hoob) Hsize.
  - destruct (Z_le_gt_dec (d_pos d + size) (d_size d)) as [Hfit | Hunder].
    + rewrite decoder_read_bytes_fits by (assumption || lia).
      cbn [fst snd]. destruct Hok as (Hpos & Hcap & Hbig).
      repeat apply conj.
      * left. unfold decoder_ok, advanced. cbn [d_pos d_size d_buf_p]. lia.
      * exact Hoob.
      * unfold memcpy_from. rewrite length_firstn, length_skipn. lia.
      * reflexivity.
    + destruct (decoder_read_bytes_underflow d size Hok Hsize) as (-> & ->);
        [lia |].
      cbn [fst snd d_buf_p]. repeat apply conj.
      * right. unfold decoder_latched, EOUTOFDATA. cbn [d_pos d_size]. lia.
      * exact Hoob.
      * apply repeat_length.
      * reflexivity.
  - rewrite decoder_read_bytes_latched by assumption. cbn [fst snd].
    repeat apply conj; [right; exact Hl | exact Hoob | apply repeat_length
                       | reflexivity].
Qed.

(** X10: every read primitive takes a usable decoder context to a usable
    one and leaves the input buffer as it is; [decoder_read_bytes] always
    hands out exactly [size] bytes, copied from inside the input or zeros,
    never from outside it. *)
Theorem decoder_primitives_keep_safe (d : decoder_t)
  (size number_of_bytes : Z) :
  decoder_safe d -> 0 <= size < 2 ^ 62 ->
  (decoder_safe (fst (decoder_read_bytes d size))
   /\ length (snd (decoder_read_bytes d size)) = Z.to_nat size
   /\ d_buf_p (fst (decoder_read_bytes d size)) = d_buf_p d)
  /\ decoder_safe (fst (decoder_read_integer_8 d))
  /\ decoder_safe (fst (decoder_read_integer_16 d))
  /\ decoder_safe (fst (decoder_read_integer_32 d))
  /\ decoder_safe (fst (decoder_read_integer_64 d))
  /\ decoder_safe (fst (decoder_read_integer d number_of_bytes))
  /\ decoder_safe (fst (decoder_read_float d))
  /\ decoder_safe (fst (decoder_read_double d))
  /\ decoder_safe (fst (decoder_read_bool d))
  /\ decoder_safe (fst (decoder_read_length_determinant d)).
Proof.
  intros Hsafe Hsize.
  assert (Hn : forall d n, decoder_safe d -> 0 <= n < 2 ^ 62 ->
                 decoder_safe (fst (decoder_read_bytes d n)))
    by (intros d' n H Hn'; apply decoder_read_bytes_safe; assumption).
  assert (H8 : forall d, decoder_safe d ->
                 decoder_safe (fst (decoder_read_integer_8 d))).
  { intros d' H. unfold decoder_read_integer_8.
    specialize (Hn d' 1 H ltac:(lia)).
    destruct (decoder_read_bytes d' 1). exact Hn. }
  assert (H16 : forall d, decoder_safe d ->
                  decoder_safe (fst (decoder_read_integer_16 d))).
  { intros d' H. unfold decoder_read_integer_16.
    specialize (Hn d' 2 H ltac:(lia)).
    destruct (decoder_read_bytes d' 2). exact Hn. }
  assert (H32 : forall d, decoder_safe d ->
                  decoder_safe (fst (decoder_read_integer_32 d))).
  { intros d' H. unfold decoder_read_integer_32.
    specialize (Hn d' 4 H ltac:(lia)).
    destruct (decoder_read_bytes d' 4). exact Hn. }
  assert (H64 : forall d, decoder_safe d ->
                  decoder_safe (fst (decoder_read_integer_64 d))).
  { intros d' H. unfold decoder_read_integer_64.
    specialize (Hn d' 8 H ltac:(lia)).
    destruct (decoder_read_bytes d' 8). exact Hn. }
  assert (H24 : forall d, decoder_safe d ->
                  decoder_safe
                    (fst (let '(self_p, hi) := decoder_read_integer_8 d in
                          let '(self_p, lo) :=
                            decoder_read_integer_16 self_p in
                          (self_p, to_uint32 (Z.lor (Z.shiftl hi 16) lo))))).
  { intros d' H. specialize (H8 d' H).
    destruct (decoder_read_integer_8 d') as [d1 hi]. cbn [fst] in H8.
    specialize (H16 d1 H8).
    destruct (decoder_read_integer_16 d1) as [d2 lo]. exact H16. }
  split; [apply decoder_read_bytes_safe; assumption |].
  split; [auto |]. split; [auto |]. split; [auto |]. split; [auto |].
  split.
  { unfold decoder_read_integer.
    repeat match goal with
      | |- context [if ?c then _ else _] => destruct c
      end; auto. }
  split; [unfold decoder_read_float; auto |].
  split; [unfold decoder_read_double; auto |].
  split.
  { unfold decoder_read_bool. specialize (H8 d Hsafe).
    destruct (decoder_read_integer_8 d). exact H8. }
  unfold decoder_read_length_determinant.
  pose proof (H8 d Hsafe) as H8d.
  destruct (decoder_read_integer_8 d) as [d1 len]. cbn [fst] in H8d.
  repeat match goal with
    | |- context [if ?c then _ else _] => destruct c
    end; auto.
Qed.

Lemma decoder_primitives_keep_safe_witness :
  let d := decoder_init [1; 2] 2 in
  (decoder_safe d /\ 0 <= 3 < 2 ^ 62)
  /\ decoder_safe (fst (decoder_read_integer_32 d)).
Proof.
  intros d.
  assert (Hsafe : decoder_safe d).
  { split; [left; apply (decoder_init_ok [1; 2]); simpl; lia
           | reflexivity]. }
  assert (Hsize : 0 <= 3 < 2 ^ 62) by lia.
  split; [exact (conj Hsafe Hsize) |].
  exact (proj1 (proj2 (proj2 (proj2
    (decoder_primitives_keep_safe d 3 0 Hsafe Hsize))))).
Defined.

(** ** Helper selection, continued *)

Lemma string_append_assoc (a b c : string) :
  ((a ++ b) ++ c)%string = (a ++ b ++ c)%string.
Proof.
  induction a as [| ch a IH]; cbn [String.append];
    [reflexivity | rewrite IH; reflexivity].
Qed.

Lemma prefix_spec (p t : string) :
  String.prefix p t = true <-> exists b, t = (p ++ b)%string.
Proof.
  revert t. induction p as [| ch p IH]; intros t.
  - split; [intros _; exists t; reflexivity |].
    intros _. destruct t; reflexivity.
  - destruct t as [| ch' t]; cbn [String.prefix String.append].
    + split; [discriminate | intros (b & Hb); discriminate Hb].
    + destruct (ascii_dec ch ch') as [-> | Hne].
      * rewrite IH. split.
        -- intros (b & ->). exists b. reflexivity.
        -- intros (b & Hb). injection Hb as ->. exists b. reflexivity.
      * split; [discriminate |].
        intros (b & Hb). injection Hb as Hc _. congruence.
Qed.

(** Python's [in] on strings, as modelled by [contains], is the occurrence
    of the pattern as a substring. *)
Lemma contains_spec (pattern text : string) :
  contains pattern text = true <-> occurs_in pattern text.
Proof.
  unfold occurs_in. split.
  - induction text as [| ch text IH]; cbn [contains].
    + destruct (String.prefix pattern "") eqn:Hp; [| discriminate].
      intros _. apply prefix_spec in Hp. destruct Hp as (b & Hb).
      exists ""%string, b. exact Hb.
    + destruct (String.prefix pattern (String ch text)) eqn:Hp.
      * intros _. apply prefix_spec in Hp. destruct Hp as (b & Hb).
        exists ""%string, b. exact Hb.
      * intros H. destruct (IH H) as (a & b & ->).
        exists (String ch a), b. reflexivity.
  - intros (a & b & ->). induction a as [| ch a IH].
    + cbn [String.append].
      assert (Hp : String.prefix pattern (pattern ++ b) = true)
        by (apply prefix_spec; exists b; reflexivity).
      destruct (pattern ++ b)%string; cbn [contains]; rewrite Hp;
        reflexivity.
    + cbn [String.append contains]. rewrite IH.
      destruct (String.prefix pattern (String ch (a ++ pattern ++ b)));
        reflexivity.
Qed.

Lemma fold_left_select {A B : Type} (keep : A -> bool) (f : A -> B)
  (l : list A) (acc : list B) :
  fold_left (fun acc x => if keep x then acc ++ [f x] else acc) l acc
  = acc ++ map f (filter keep l).
Proof.
  revert acc. induction l as [| x rest IH]; intros acc;
    cbn [fold_left filter map]; [rewrite app_nil_r; reflexivity |].
  rewrite IH. destruct (keep x); cbn [map]; [| reflexivity].
  rewrite <- app_assoc. reflexivity.
Qed.

Lemma fold_left_pointwise {A B : Type} (f g : B -> A -> B) (l : list A)
  (acc : B) :
  (forall acc x, f acc x = g acc x) ->
  fold_left f l acc = fold_left g l acc.
Proof.
  intros H. revert acc. induction l as [| x rest IH]; intros acc;
    cbn [fold_left]; [reflexivity | rewrite H; apply IH].
Qed.

Lemma generate_helpers_filter (definitions : string) :
  generate_helpers definitions
  = ENCODER_AND_DECODER_STRUCTS
    :: map snd (filter (fun pd => contains (fst pd) definitions) functions)
    ++ [""%string].
Proof.
  unfold generate_helpers. generalize functions. intros table.
  rewrite (fold_left_pointwise _
             (fun acc pd =>
                if contains (fst pd) definitions then acc ++ [snd pd]
                else acc))
    by (intros acc [pattern definition]; reflexivity).
  rewrite fold_left_select. reflexivity.
Qed.

Lemma generate_helpers_in (definitions text : string) :
  In text (generate_helpers definitions)
  <-> text = ENCODER_AND_DECODER_STRUCTS \/ text = ""%string
      \/ exists pattern, In (pattern, text) functions
                         /\ occurs_in pattern definitions.
Proof.
  rewrite generate_helpers_filter. generalize functions. intros table.
  cbn [In]. rewrite in_app_iff, in_map_iff. cbn [In]. split.
  - intros [H | [([pattern text'] & Hsnd & Hin) | [H | []]]].
    + left. symmetry. exact H.
    + right. right. cbn [snd] in Hsnd. subst text'.
      apply filter_In in Hin. destruct Hin as (Hin & Hc). cbn [fst] in Hc.
      exists pattern. split; [exact Hin | apply contains_spec; exact Hc].
    + right. left. symmetry. exact H.
  - intros [H | [H | (pattern & Hin & Hocc)]].
    + left. symmetry. exact H.
    + right. right. left. symmetry. exact H.
    + right. left. exists (pattern, text). split; [reflexivity |].
      apply filter_In. split; [exact Hin |].
      cbn [fst]. apply contains_spec. exact Hocc.
Qed.

Lemma only_pattern_of (text pattern : string) :
  forallb (fun pd => negb (String.eqb (snd pd) text)
                     || String.eqb (fst pd) pattern) functions = true ->
  forall p, In (p, text) functions -> p = pattern.
Proof.
  intros H p Hin. rewrite forallb_forall in H. specialize (H _ Hin).
  cbn [fst snd] in H. rewrite String.eqb_refl in H. cbn [negb orb] in H.
  apply String.eqb_eq. exact H.
Qed.

(** X11: the helper block is the structures, then, in the order of the
    table, the text of every table entry whose pattern occurs as a
    substring of the definitions, then an empty string; nothing else gets
    in.  So [encoder_alloc] is in the block exactly when
    [encoder_append_bytes(] occurs, and [decoder_free] exactly when
    [decoder_read_bytes(] occurs. *)
Theorem generate_helpers_selection (definitions : string) :
  generate_helpers definitions
  = ENCODER_AND_DECODER_STRUCTS
    :: map snd (filter (fun pd => contains (fst pd) definitions) functions)
    ++ [""%string]
  /\ (forall text,
        In text (generate_helpers definitions)
        <-> text = ENCODER_AND_DECODER_STRUCTS \/ text = ""%string
            \/ exists pattern, In (pattern, text) functions
                               /\ occurs_in pattern definitions)
  /\ (In ENCODER_ALLOC (generate_helpers definitions)
      <-> occurs_in "encoder_append_bytes(" definitions)
  /\ (In DECODER_FREE (generate_helpers definitions)
      <-> occurs_in "decoder_read_bytes(" definitions).
Proof.
  split; [apply generate_helpers_filter |].
  split; [intros text; apply generate_helpers_in |].
  split.
  - rewrite generate_helpers_in. split.
    + intros [H | [H | (p & Hin & Hocc)]].
      * apply String.eqb_eq in H. vm_compute in H. discriminate H.
      * apply String.eqb_eq in H. vm_compute in H. discriminate H.
      * rewrite <- (only_pattern_of ENCODER_ALLOC "encoder_append_bytes("
                      ltac:(vm_compute; reflexivity) p Hin).
        exact Hocc.
    + intros Hocc. right. right. exists "encoder_append_bytes("%string.
      split; [| exact Hocc].
      unfold functions. cbn [In]. tauto.
  - rewrite generate_helpers_in. split.
    + intros [H | [H | (p & Hin & Hocc)]].
      * apply String.eqb_eq in H. vm_compute in H. discriminate H.
      * apply String.eqb_eq in H. vm_compute in H. discriminate H.
      * rewrite <- (only_pattern_of DECODER_FREE "decoder_read_bytes("
                      ltac:(vm_compute; reflexivity) p Hin).
        exact Hocc.
    + intros Hocc. right. right. exists "decoder_read_bytes("%string.
      split; [| exact Hocc].
      unfold functions. cbn [In]. tauto.
Qed.

Lemma occurs_in_append (pattern a b : string) :
  occurs_in pattern a ->
  occurs_in pattern (a ++ b) /\ occurs_in pattern (b ++ a).
Proof.
  intros (x & y & ->). split.
  - exists x, (y ++ b)%string.
    rewrite !string_append_assoc. reflexivity.
  - exists (b ++ x)%string, y. rewrite string_append_assoc. reflexivity.
Qed.

(** X12: the selection is monotone in the text: every helper selected for
    some definitions is selected again when more text is joined to them, on
    either side. *)
Theorem generate_helpers_monotone (a b text : string) :
  In text (generate_helpers a) ->
  In text (generate_helpers (a ++ b))
  /\ In text (generate_helpers (b ++ a)).
Proof.
  intros H. rewrite !generate_helpers_in in *.
  destruct H as [H | [H | (p & Hin & Hocc)]]; [tauto | tauto |].
  destruct (occurs_in_append p a b Hocc) as (H1 & H2).
  split; right; right; exists p; split; assumption.
Qed.

Lemma generate_helpers_monotone_witness :
  In ENCODER_INIT (generate_helpers "encoder_init(")
  /\ In ENCODER_INIT (generate_helpers ("encoder_init(" ++ " x")).
Proof.
  assert (H : In ENCODER_INIT (generate_helpers "encoder_init(")).
  { apply generate_helpers_in. right. right. exists "encoder_init("%string.
    split; [unfold functions; cbn [In]; tauto |].
    exists ""%string, ""%string. reflexivity. }
  split; [exact H |].
  exact (proj1 (generate_helpers_monotone "encoder_init(" " x" ENCODER_INIT H)).
Defined.

(** ** Generated code of the scalar types *)

Lemma c_convert_fits (type_name : c_int) (v : Z) :
  fits type_name v ->
  c_convert type_name (v mod 2 ^ length_of_type_name type_name) = v.
Proof.
  destruct type_name; cbn [fits c_convert length_of_type_name];
    unfold to_signed, to_uint8, to_uint16, to_uint32, to_uint64; intros H;
    repeat match goal with
      | |- context [2 ^ ?n] =>
          let r := eval vm_compute in (2 ^ n) in change (2 ^ n) with r
      | H : context [2 ^ ?n] |- _ =>
          let r := eval vm_compute in (2 ^ n) in change (2 ^ n) with r in H
      end;
    cbn [Z.sub Z.add Z.opp Z.pos_sub Pos.pred_double Pos.succ Pos.add];
    Z.div_mod_to_equations; lia.
Qed.

Lemma integer_width_roundtrip (type_name : c_int) (e : encoder_t)
  (value : Z) :
  encoder_ok e -> e_pos e + 8 <= e_size e ->
  exists bytes,
    Z.of_nat (length bytes) = length_of_type_name type_name / 8
    /\ encoder_append_integer_ (length_of_type_name type_name) e value
       = appended e bytes
    /\ forall d rest, decoder_ok d -> remaining d = bytes ++ rest ->
         decoder_read_integer_ (length_of_type_name type_name) d
         = (advanced d (length_of_type_name type_name / 8),
            value mod 2 ^ length_of_type_name type_name).
Proof.
  intros Hok Hfit.
  unfold encoder_append_integer_, decoder_read_integer_.
  destruct type_name; cbn [length_of_type_name Z.eqb Pos.eqb];
    match goal with
    | |- context [encoder_append_integer_8] =>
        destruct (integer_8_roundtrip e value Hok ltac:(lia))
          as (bytes & Hlen & Henc & Hdec)
    | |- context [encoder_append_integer_16] =>
        destruct (integer_16_roundtrip e value Hok ltac:(lia))
          as (bytes & Hlen & Henc & Hdec)
    | |- context [encoder_append_integer_32] =>
        destruct (integer_32_roundtrip e value Hok ltac:(lia))
          as (bytes & Hlen & Henc & Hdec)
    | |- context [encoder_append_integer_64] =>
        destruct (integer_64_roundtrip e value Hok ltac:(lia))
          as (bytes & Hlen & Henc & Hdec)
    end;
    exists bytes; (split; [rewrite Hlen; reflexivity |]);
    (split; [exact Henc | exact Hdec]).
Qed.

(** X13: the lines generated for an INTEGER are inverse to each other for
    every value that the C type chosen for the member holds, signed types
    included: the encode lines store the value in the 1, 2, 4 or 8 bytes of
    that type, most significant byte first, and the decode lines, put in
    front of these bytes, assign the same value to the destination with no
    [return] and no error. *)
Theorem integer_codec_roundtrip (minimum maximum v : Z) (e : encoder_t) :
  fits (format_type_name minimum maximum) v ->
  encoder_ok e -> e_pos e + 8 <= e_size e ->
  exists bytes,
    Z.of_nat (length bytes)
    = length_of_type_name (format_type_name minimum maximum) / 8
    /\ encode (format_integer_inner minimum maximum) (VInt v) e
       = appended e bytes
    /\ forall d rest dst, decoder_ok d -> remaining d = bytes ++ rest ->
         decode (format_integer_inner minimum maximum) dst d
         = (false,
            advanced d
              (length_of_type_name (format_type_name minimum maximum) / 8),
            VInt v).
Proof.
  intros Hfits Hok Hfit. unfold format_integer_inner. cbn [encode decode].
  destruct (integer_width_roundtrip (format_type_name minimum maximum)
              e v Hok Hfit) as (bytes & Hlen & Henc & Hdec).
  exists bytes. split; [exact Hlen |]. split; [exact Henc |].
  intros d rest dst Hd Hrem.
  rewrite (Hdec d rest Hd Hrem).
  rewrite c_convert_fits by assumption. reflexivity.
Qed.

Lemma integer_codec_roundtrip_witness :
  let e := encoder_init (repeat 0 8%nat) 8 in
  (fits (format_type_name (-100) 100) (-2)
   /\ encoder_ok e /\ e_pos e + 8 <= e_size e)
  /\ exists bytes,
       Z.of_nat (length bytes)
       = length_of_type_name (format_type_name (-100) 100) / 8
       /\ encode (format_integer_inner (-100) 100) (VInt (-2)) e
          = appended e bytes.
Proof.
  intros e.
  assert (Hfits : fits (format_type_name (-100) 100) (-2)) by (simpl; lia).
  destruct (encoder_init_room (repeat 0 8%nat) 8) as (Hok & Hfit);
    [simpl; lia | simpl; lia |].
  split; [exact (conj Hfits (conj Hok Hfit)) |].
  destruct (integer_codec_roundtrip (-100) 100 (-2) e Hfits Hok Hfit)
    as (bytes & Hlen & Henc & _).
  exists bytes. split; [exact Hlen | exact Henc].
Defined.

(** X14: the lines generated for an ENUMERATED store the value in one
    byte: a value from 0 to 255 comes back as it is, any other value comes
    back reduced modulo 256, without an error on either side.  The lines of
    a REAL move the bit pattern in 4 bytes when the format is [>f] and in 8
    bytes otherwise. *)
Theorem enumerated_and_real_codecs (e : encoder_t) (v : Z)
  (fmt : option string) :
  encoder_ok e -> e_pos e + 8 <= e_size e ->
  (encode format_enumerated_inner (VInt v) e = appended e [v mod 256]
   /\ forall d rest dst, decoder_ok d -> remaining d = v mod 256 :: rest ->
        decode format_enumerated_inner dst d
        = (false, advanced d 1, VInt (v mod 256)))
  /\ exists bytes,
       length bytes
       = (if match fmt with
             | Some f => String.eqb f ">f"
             | None => false
             end then 4%nat else 8%nat)
       /\ encode (format_real_inner fmt) (VInt v) e = appended e bytes
       /\ forall d rest dst, decoder_ok d -> remaining d = bytes ++ rest ->
            decode (format_real_inner fmt) dst d
            = (false, advanced d (Z.of_nat (length bytes)),
               VInt (v mod 2 ^ (8 * Z.of_nat (length bytes)))).
Proof.
  intros Hok Hfit. split; [split |].
  - cbn [format_enumerated_inner encode as_Z].
    apply encoder_append_integer_8_ok; [assumption | lia].
  - intros d rest dst Hd Hrem. cbn [format_enumerated_inner decode].
    rewrite (decoder_read_integer_8_ok d _ rest Hd Hrem). reflexivity.
  - unfold format_real_inner.
    destruct (match fmt with
              | Some f => String.eqb f ">f"
              | None => false
              end).
    + destruct (integer_32_roundtrip e (to_uint32 v) Hok ltac:(lia))
        as (bytes & Hlen & Henc & Hdec).
      exists bytes. split; [exact Hlen |]. split.
      * cbn [encode as_Z]. unfold encoder_append_float. exact Henc.
      * intros d rest dst Hd Hrem. cbn [decode]. unfold decoder_read_float.
        rewrite (Hdec d rest Hd Hrem), Hlen. unfold to_uint32.
        change (8 * Z.of_nat 4) with 32.
        rewrite Z.mod_mod by lia. reflexivity.
    + destruct (integer_64_roundtrip e (to_uint64 v) Hok Hfit)
        as (bytes & Hlen & Henc & Hdec).
      exists bytes. split; [exact Hlen |]. split.
      * cbn [encode as_Z]. unfold encoder_append_double. exact Henc.
      * intros d rest dst Hd Hrem. cbn [decode]. unfold decoder_read_double.
        rewrite (Hdec d rest Hd Hrem), Hlen. unfold to_uint64.
        change (8 * Z.of_nat 8) with 64.
        rewrite Z.mod_mod by lia. reflexivity.
Qed.

Lemma enumerated_and_real_codecs_witness :
  let e := encoder_init (repeat 0 8%nat) 8 in
  (encoder_ok e /\ e_pos e + 8 <= e_size e)
  /\ encode format_enumerated_inner (VInt 300) e = appended e [300 mod 256].
Proof.
  intros e.
  destruct (encoder_init_room (repeat 0 8%nat) 8) as (Hok & Hfit);
    [simpl; lia | simpl; lia |].
  split; [exact (conj Hok Hfit) |].
  exact (proj1 (proj1 (enumerated_and_real_codecs e 300 None Hok Hfit))).
Defined.

(** ** OCTET STRING *)

Lemma bytes_of_length (v : value) (size : Z) :
  length (bytes_of v size) = Z.to_nat size.
Proof. unfold bytes_of. rewrite length_map, length_seq. reflexivity. Qed.

Lemma map_nth_seq (l : list Z) :
  map (fun i => nth i l 0) (seq 0 (length l)) = l.
Proof.
  induction l as [| x rest IH]; [reflexivity |].
  cbn [length seq map nth]. f_equal.
  rewrite <- seq_shift, map_map. exact IH.
Qed.

Lemma bytes_of_of_bytes (l : list Z) :
  bytes_of (of_bytes l) (Z.of_nat (length l)) = l.
Proof.
  unfold bytes_of, of_bytes. rewrite Nat2Z.id.
  transitivity (map (fun i => nth i l 0) (seq 0 (length l)));
    [| apply map_nth_seq].
  apply map_ext. intros i. cbn [get_elem].
  rewrite (map_nth VInt l 0 i). reflexivity.
Qed.

(** X15: an OCTET STRING of fixed length [n] is [n] raw bytes without any
    prefix.  The decode lines copy the next [n] bytes into the destination
    buffer, from which the encode lines give the same bytes again; when
    fewer than [n] bytes are left, the destination buffer is filled with
    [n] zeros and the decoder holds [EOUTOFDATA]. *)
Theorem octet_string_fixed_codec (n : Z) (e : encoder_t) (src : value) :
  0 <= n < 2 ^ 62 ->
  (encoder_ok e -> e_pos e + n <= e_size e ->
   encode (format_octet_string_inner n n) src e
   = appended e (bytes_of (get_field "buf" src) n)
   /\ Z.of_nat (length (bytes_of (get_field "buf" src) n)) = n)
  /\ (forall d bytes rest dst,
        decoder_ok d -> remaining d = bytes ++ rest ->
        Z.of_nat (length bytes) = n ->
        decode (format_octet_string_inner n n) dst d
        = (false, advanced d n, set_field "buf" (of_bytes bytes) dst)
        /\ bytes_of (get_field "buf" (set_field "buf" (of_bytes bytes) dst))
             n = bytes)
  /\ (forall d dst,
        decoder_ok d -> d_size d < d_pos d + n ->
        decode (format_octet_string_inner n n) dst d
        = (false, decoder_abort d EOUTOFDATA,
           set_field "buf" (of_bytes (repeat 0 (Z.to_nat n))) dst)
        /\ decoder_get_result (decoder_abort d EOUTOFDATA) = - EOUTOFDATA).
Proof.
  intros Hn. unfold format_octet_string_inner. rewrite Z.eqb_refl.
  cbn [encode decode].
  assert (Hlen : Z.of_nat (length (bytes_of (get_field "buf" src) n)) = n)
    by (rewrite bytes_of_length; lia).
  split; [| split].
  - intros Hok Hfit. split; [| exact Hlen].
    apply encoder_append_bytes_ok; [assumption | lia].
  - intros d bytes rest dst Hd Hrem Hbytes. subst n. split.
    + rewrite (decoder_read_bytes_ok d bytes rest Hd Hrem). reflexivity.
    + rewrite get_set_field_same. apply bytes_of_of_bytes.
  - intros d dst Hd Hunder.
    destruct (decoder_read_bytes_underflow d n Hd Hn Hunder) as (Hr & Ha).
    rewrite Hr. split; [reflexivity |]. rewrite Ha. reflexivity.
Qed.

Lemma octet_string_fixed_codec_witness :
  let d := decoder_init [1; 2; 3] 3 in
  (0 <= 4 < 2 ^ 62 /\ decoder_ok d /\ d_size d < d_pos d + 4)
  /\ decoder_get_result
       (snd (fst (decode (format_octet_string_inner 4 4) (VStruct []) d)))
     = - EOUTOFDATA.
Proof.
  intros d.
  assert (Hn : 0 <= 4 < 2 ^ 62) by lia.
  destruct (decoder_init_ok [1; 2; 3]) as (Hd & _); [simpl; lia |].
  assert (Hunder : d_size d < d_pos d + 4) by (vm_compute; reflexivity).
  split; [exact (conj Hn (conj Hd Hunder)) |].
  destruct (proj2 (proj2 (octet_string_fixed_codec 4
                            (encoder_init [] 0) (VStruct []) Hn))
              d (VStruct []) Hd Hunder) as (Hdec & Hres).
  rewrite Hdec. exact Hres.
Defined.

Lemma octet_string_prefix_encode (minimum maximum len : Z) (src : value)
  (e : encoder_t) :
  minimum <> maximum -> 0 <= len < 2 ^ 32 -> (maximum < 128 -> len < 256) ->
  as_Z (get_field "length" src) = len ->
  encoder_ok e -> e_pos e + 5 + len <= e_size e ->
  encode (format_octet_string_inner minimum maximum) src e
  = appended e (octet_string_prefix maximum len
                ++ bytes_of (get_field "buf" src) len).
Proof.
  intros Hne Hlen Hshort Hsrc Hok Hfit.
  unfold format_octet_string_inner, octet_string_prefix.
  destruct (Z.eqb_spec minimum maximum) as [| _]; [contradiction |].
  assert (Hl : Z.of_nat (length (bytes_of (get_field "buf" src) len)) = len)
    by (rewrite bytes_of_length; lia).
  destruct (Z.ltb_spec maximum 128) as [Hmax | Hmax]; cbn [encode];
    rewrite Hsrc.
  - rewrite (encoder_append_integer_8_ok e len Hok) by lia.
    rewrite (Z.mod_small len 256) by lia.
    apply (after_appended
             (fun e' => encoder_append_bytes e'
                          (bytes_of (get_field "buf" src) len))).
    + intros e' Hok' Hfit'. apply encoder_append_bytes_ok; assumption.
    + assumption.
    + cbn [length]. lia.
  - rewrite (encoder_append_length_determinant_ok e len Hok) by lia.
    pose proof (length_determinant_bytes_length len) as H5.
    apply (after_appended
             (fun e' => encoder_append_bytes e'
                          (bytes_of (get_field "buf" src) len))).
    + intros e' Hok' Hfit'. apply encoder_append_bytes_ok; assumption.
    + assumption.
    + lia.
Qed.

Lemma octet_string_prefix_decode (minimum maximum len : Z) (d : decoder_t)
  (tail : list Z) (dst : value) :
  minimum <> maximum -> 0 <= len < 2 ^ 32 ->
  decoder_ok d -> remaining d = octet_string_prefix maximum len ++ tail ->
  let d' := advanced d (Z.of_nat (length (octet_string_prefix maximum len))) in
  decoder_ok d' /\ remaining d' = tail
  /\ decode (format_octet_string_inner minimum maximum) dst d
     = let dst := set_field "length" (VInt len) dst in
       if maximum <? len then (true, decoder_abort d' EBADLENGTH, dst)
       else
         let '(d, buf) := decoder_read_bytes d' len in
         (false, d, set_field "buf" (of_bytes buf) dst).
Proof.
  intros Hne Hlen Hok Hrem d'.
  destruct (advanced_ok d _ _ Hok Hrem) as (Hok' & Hrem').
  split; [exact Hok' |]. split; [exact Hrem' |].
  subst d'. revert Hrem.
  unfold format_octet_string_inner, octet_string_prefix.
  destruct (Z.eqb_spec minimum maximum) as [| _]; [contradiction |].
  destruct (Z.ltb_spec maximum 128) as [Hmax | Hmax]; intros Hrem;
    cbn [decode].
  - rewrite (decoder_read_integer_8_ok d len tail Hok Hrem). reflexivity.
  - rewrite (decoder_read_length_determinant_ok d len tail Hok Hlen Hrem).
    reflexivity.
Qed.

(** X16: an OCTET STRING whose size varies is its length followed by that
    many bytes; the length takes one byte when the largest size is below
    128 and is a length determinant otherwise.  For a length up to the
    largest size, the decode lines store the length and copy the bytes,
    and from that object the encode lines give the same bytes again. *)
Theorem octet_string_variable_codec (minimum maximum len : Z) (src : value)
  (e : encoder_t) :
  minimum <> maximum -> 0 <= len <= maximum -> maximum < 2 ^ 32 ->
  as_Z (get_field "length" src) = len ->
  let payload := bytes_of (get_field "buf" src) len in
  let prefix := octet_string_prefix maximum len in
  (encoder_ok e -> e_pos e + 5 + len <= e_size e ->
   encode (format_octet_string_inner minimum maximum) src e
   = appended e (prefix ++ payload))
  /\ (forall d rest dst,
        decoder_ok d -> remaining d = prefix ++ payload ++ rest ->
        let dst' :=
          set_field "buf" (of_bytes payload)
            (set_field "length" (VInt len) dst) in
        decode (format_octet_string_inner minimum maximum) dst d
        = (false, advanced d (Z.of_nat (length prefix) + len), dst')
        /\ as_Z (get_field "length" dst') = len
        /\ bytes_of (get_field "buf" dst') len = payload).
Proof.
  intros Hne Hle Hmax Hsrc payload prefix.
  assert (Hlen : 0 <= len < 2 ^ 32) by lia.
  assert (Hl : Z.of_nat (length payload) = len)
    by (subst payload; rewrite bytes_of_length; lia).
  split.
  - intros Hok Hfit.
    apply octet_string_prefix_encode; try assumption. lia.
  - intros d rest dst Hd Hrem dst'.
    destruct (octet_string_prefix_decode minimum maximum len d
                (payload ++ rest) dst Hne Hlen Hd Hrem)
      as (Hd' & Hrem' & Hdec).
    split; [| split].
    + rewrite Hdec. cbv zeta.
      destruct (Z.ltb_spec maximum len); [lia |].
      pose proof (decoder_read_bytes_ok _ payload rest Hd' Hrem') as Hread.
      rewrite Hl in Hread. rewrite Hread, advanced_advanced. reflexivity.
    + subst dst'. rewrite get_set_field_other by discriminate.
      rewrite get_set_field_same. reflexivity.
    + subst dst'. rewrite get_set_field_same, <- Hl.
      apply bytes_of_of_bytes.
Qed.

Lemma octet_string_variable_codec_witness :
  let src := VStruct [("length"%string, VInt 2);
                      ("buf"%string, VArray [VInt 7; VInt 9])] in
  let d := decoder_init [2; 7; 9] 3 in
  (1 <> 1 + 1 /\ 0 <= 2 <= 1 + 1 /\ 1 + 1 < 2 ^ 32
   /\ as_Z (get_field "length" src) = 2
   /\ decoder_ok d /\ remaining d = [2] ++ [7; 9] ++ [])
  /\ decode (format_octet_string_inner 1 2) (VStruct []) d
     = (false, advanced d 3,
        set_field "buf" (of_bytes [7; 9])
          (set_field "length" (VInt 2) (VStruct []))).
Proof.
  intros src d.
  assert (Hne : 1 <> 1 + 1) by lia.
  assert (Hle : 0 <= 2 <= 1 + 1) by lia.
  assert (Hmax : 1 + 1 < 2 ^ 32) by lia.
  assert (Hsrc : as_Z (get_field "length" src) = 2) by reflexivity.
  destruct (decoder_init_ok [2; 7; 9]) as (Hd & Hrem); [simpl; lia |].
  assert (Hrem' : remaining d = [2] ++ [7; 9] ++ []) by exact Hrem.
  split;
    [exact (conj Hne (conj Hle (conj Hmax (conj Hsrc (conj Hd Hrem'))))) |].
  exact (proj1 (proj2 (octet_string_variable_codec 1 (1 + 1) 2 src
                         (encoder_init [] 0) Hne Hle Hmax Hsrc)
                  d [] (VStruct []) Hd Hrem')).
Defined.

(** X28: the decode lines of an OCTET STRING whose size varies reject a
    length above the largest size, as long as the [length] member holds the
    length that was read (it holds every length that the smallest unsigned
    type for the largest size holds): the length is stored, the buffer is
    left untouched, the decoder holds [EBADLENGTH] and the function
    returns. *)
Theorem octet_string_variable_rejects_length (minimum maximum len : Z)
  (d : decoder_t) (rest : list Z) (dst : value) :
  minimum <> maximum -> 0 <= len < 2 ^ 32 ->
  fits (format_type_name 0 maximum) len ->
  maximum < len ->
  decoder_ok d -> remaining d = octet_string_prefix maximum len ++ rest ->
  let d' :=
    decoder_abort
      (advanced d (Z.of_nat (length (octet_string_prefix maximum len))))
      EBADLENGTH in
  decode (format_octet_string_inner minimum maximum) dst d
  = (true, d', set_field "length" (VInt len) dst)
  /\ decoder_get_result d' = - EBADLENGTH.
Proof.
  intros Hne Hlen _ Hgt Hd Hrem d'.
  destruct (octet_string_prefix_decode minimum maximum len d
              rest dst Hne Hlen Hd Hrem)
    as (Hd' & Hrem' & Hdec).
  rewrite Hdec. cbv zeta.
  destruct (Z.ltb_spec maximum len); [| lia].
  split; [reflexivity |].
  subst d'. unfold decoder_abort, decoder_get_result.
  destruct Hd' as (Hpos & _).
  destruct (Z.leb_spec 0
              (d_pos (advanced d
                        (Z.of_nat
                           (length (octet_string_prefix maximum len))))));
    [| lia].
  reflexivity.
Qed.

Lemma octet_string_variable_rejects_length_witness :
  let d := decoder_init [3; 7; 9] 3 in
  (1 <> 2 /\ 0 <= 3 < 2 ^ 32 /\ fits (format_type_name 0 2) 3 /\ 2 < 3
   /\ decoder_ok d /\ remaining d = octet_string_prefix 2 3 ++ [7; 9])
  /\ decode (format_octet_string_inner 1 2) (VStruct []) d
     = (true,
        decoder_abort
          (advanced d (Z.of_nat (length (octet_string_prefix 2 3))))
          EBADLENGTH,
        set_field "length" (VInt 3) (VStruct [])).
Proof.
  intros d.
  assert (Hne : 1 <> 2) by lia.
  assert (Hlen : 0 <= 3 < 2 ^ 32) by lia.
  assert (Hfits : fits (format_type_name 0 2) 3) by (simpl; lia).
  assert (Hgt : 2 < 3) by lia.
  destruct (decoder_init_ok [3; 7; 9]) as (Hd & Hrem); [simpl; lia |].
  assert (Hrem' : remaining d = octet_string_prefix 2 3 ++ [7; 9])
    by exact Hrem.
  split;
    [exact (conj Hne (conj Hlen (conj Hfits (conj Hgt (conj Hd Hrem'))))) |].
  exact (proj1 (octet_string_variable_rejects_length 1 2 3 d [7; 9]
                  (VStruct []) Hne Hlen Hfits Hgt Hd Hrem')).
Defined.

(** ** SEQUENCE OF with a count that varies *)

Lemma appended_nil (e : encoder_t) : appended e [] = e.
Proof.
  destruct e as [buf size pos oob]. unfold appended, memcpy_to.
  cbn [e_buf_p e_size e_pos e_oob length app].
  rewrite Nat.add_0_r, firstn_skipn, Z.add_0_r. reflexivity.
Qed.

Lemma advanced_zero (d : decoder_t) : advanced d 0 = d.
Proof.
  destruct d as [buf size pos oob]. unfold advanced.
  cbn [d_buf_p d_size d_pos d_oob]. rewrite Z.add_0_r. reflexivity.
Qed.

Lemma list_set_nth_same {A : Type} (d x : A) (i : nat) (l : list A) :
  nth i (list_set d i x l) d = x.
Proof.
  revert l. induction i as [| i IH]; intros [| y rest];
    cbn [list_set nth]; auto.
Qed.

Lemma list_set_nth_other {A : Type} (d x : A) (i j : nat) (l : list A) :
  i <> j -> nth j (list_set d i x l) d = nth j l d.
Proof.
  revert j l. induction i as [| i IH]; intros [| j] [| y rest] Hne;
    cbn [list_set nth]; try congruence.
  - destruct j; reflexivity.
  - rewrite IH by congruence. destruct j; reflexivity.
  - apply IH. congruence.
Qed.

Lemma get_set_elem_same (i : nat) (x v : value) :
  get_elem i (set_elem i x v) = x.
Proof.
  destruct v; cbn [set_elem get_elem]; apply list_set_nth_same.
Qed.

Lemma get_set_elem_other (i j : nat) (x v : value) :
  i <> j -> get_elem j (set_elem i x v) = get_elem j v.
Proof.
  intros Hne.
  destruct v; cbn [set_elem get_elem];
    rewrite list_set_nth_other by assumption;
    try reflexivity; destruct j; reflexivity.
Qed.

Lemma store_elements_keep (values : list value) :
  forall i dst j, (j < i)%nat ->
    get_elem j (get_field "elements" (store_elements values i dst))
    = get_elem j (get_field "elements" dst).
Proof.
  induction values as [| v rest IH]; intros i dst j Hj;
    cbn [store_elements]; [reflexivity |].
  rewrite IH by lia. rewrite get_set_field_same.
  apply get_set_elem_other. lia.
Qed.

Lemma store_elements_get (values : list value) :
  forall i dst k, (k < length values)%nat ->
    get_elem (i + k) (get_field "elements" (store_elements values i dst))
    = nth k values (VInt 0).
Proof.
  induction values as [| v rest IH]; intros i dst k Hk;
    cbn [length] in Hk; [lia |].
  cbn [store_elements]. destruct k as [| k]; cbn [nth].
  - rewrite Nat.add_0_r, store_elements_keep by lia.
    rewrite get_set_field_same. apply get_set_elem_same.
  - replace (i + S k)%nat with (S i + k)%nat by lia.
    apply IH. lia.
Qed.

Lemma store_elements_other_field (f : string) (values : list value) :
  f <> "elements"%string ->
  forall i dst, get_field f (store_elements values i dst) = get_field f dst.
Proof.
  intros Hne. induction values as [| v rest IH]; intros i dst;
    cbn [store_elements]; [reflexivity |].
  rewrite IH. apply get_set_field_other. exact Hne.
Qed.

Lemma encode_elements_appended (c : codec) (values : list value)
  (chunks : list (list Z)) :
  Forall2 (element_codec c) values chunks ->
  forall i src e,
    (forall k, (k < length values)%nat ->
       get_elem (i + k) (get_field "elements" src) = nth k values (VInt 0)) ->
    encoder_ok e ->
    e_pos e + Z.of_nat (length (concat chunks)) <= e_size e ->
    encode_elements c (length values) i src e = appended e (concat chunks).
Proof.
  induction 1 as [| v b values chunks (Henc & _) _ IH];
    intros i src e Hsrc Hok Hfit; cbn [length encode_elements concat].
  - symmetry. apply appended_nil.
  - cbn [concat] in Hfit. rewrite length_app, Nat2Z.inj_add in Hfit.
    pose proof (Hsrc 0%nat ltac:(cbn [length]; lia)) as H0.
    rewrite Nat.add_0_r in H0. cbn [nth] in H0. rewrite H0.
    rewrite (Henc e Hok) by lia.
    rewrite IH.
    + apply appended_appended; [assumption | lia].
    + intros k Hk. replace (S i + k)%nat with (i + S k)%nat by lia.
      rewrite Hsrc by (cbn [length]; lia). reflexivity.
    + apply appended_ok; [assumption | lia].
    + unfold appended. cbn [e_pos e_size]. lia.
Qed.

Lemma decode_elements_advanced (c : codec) (values : list value)
  (chunks : list (list Z)) :
  Forall2 (element_codec c) values chunks ->
  forall i dst d rest,
    decoder_ok d -> remaining d = concat chunks ++ rest ->
    decode_elements c (length values) i dst d
    = (false, advanced d (Z.of_nat (length (concat chunks))),
       store_elements values i dst).
Proof.
  induction 1 as [| v b values chunks (_ & Hdec) _ IH];
    intros i dst d rest Hd Hrem;
    cbn [length decode_elements concat store_elements].
  - rewrite advanced_zero. reflexivity.
  - cbn [concat] in Hrem. rewrite <- app_assoc in Hrem.
    rewrite (Hdec d _ _ Hd Hrem).
    destruct (advanced_ok d _ _ Hd Hrem) as (Hd' & Hrem').
    rewrite (IH _ _ _ rest Hd' Hrem').
    rewrite advanced_advanced, length_app, Nat2Z.inj_add. reflexivity.
Qed.

Lemma number_of_length_bytes_range (maximum : Z) :
  1 <= maximum < 2 ^ 32 ->
  1 <= (bit_length maximum + 7) / 8 <= 4
  /\ maximum < 2 ^ (8 * ((bit_length maximum + 7) / 8)).
Proof.
  intros Hm. unfold bit_length.
  destruct (Z.eqb_spec maximum 0); [lia |].
  rewrite Z.abs_eq by lia.
  pose proof (Z.log2_nonneg maximum) as H0.
  assert (Hlog : Z.log2 maximum < 32) by (apply Z.log2_lt_pow2; lia).
  assert (Hn : 1 <= (Z.log2 maximum + 1 + 7) / 8 <= 4)
    by (Z.div_mod_to_equations; lia).
  split; [exact Hn |].
  apply Z.log2_lt_pow2; [lia |]. Z.div_mod_to_equations; lia.
Qed.

(** The header of a counted SEQUENCE OF, read by the decode lines. *)
Lemma sequence_of_header_decode (n count : Z) (d : decoder_t)
  (tail : list Z) :
  1 <= n <= 4 -> 0 <= count < 2 ^ (8 * n) ->
  decoder_ok d -> remaining d = sequence_of_header n count ++ tail ->
  decoder_read_integer_8 d = (advanced d 1, n)
  /\ decoder_read_integer (advanced d 1) n = (advanced d (1 + n), count)
  /\ decoder_ok (advanced d (1 + n))
  /\ remaining (advanced d (1 + n)) = tail
  /\ Z.of_nat (length (sequence_of_header n count)) = 1 + n.
Proof.
  intros Hn Hcount Hd Hrem.
  destruct (integer_bytes_roundtrip count n Hn) as (Hlen & _ & Hdec).
  unfold sequence_of_header in *. cbn [app] in Hrem.
  destruct (advanced_one d _ _ Hd Hrem) as (Hd1 & Hrem1).
  destruct (advanced_ok _ _ _ Hd1 Hrem1) as (Hd2 & Hrem2).
  rewrite Hlen, advanced_advanced in Hd2, Hrem2.
  split; [exact (decoder_read_integer_8_ok d _ _ Hd Hrem) |].
  split.
  { rewrite (Hdec _ tail Hd1 Hrem1), advanced_advanced.
    rewrite (Z.mod_small count) by lia. reflexivity. }
  split; [exact Hd2 |]. split; [exact Hrem2 |].
  cbn [length]. lia.
Qed.

Lemma boolean_element_codec (b : bool) :
  element_codec format_boolean_inner (of_bool b) [if b then 255 else 0].
Proof.
  split.
  - intros e Hok Hfit. cbn [format_boolean_inner encode].
    unfold encoder_append_bool.
    replace (as_bool (of_bool b)) with b by (destruct b; reflexivity).
    rewrite encoder_append_integer_8_ok by (cbn [length] in Hfit; assumption || lia).
    destruct b; reflexivity.
  - intros d rest dst Hd Hrem. cbn [format_boolean_inner decode].
    unfold decoder_read_bool.
    rewrite (decoder_read_integer_8_ok d _ rest Hd Hrem).
    destruct b; reflexivity.
Qed.

(** X17: a SEQUENCE OF whose count varies is a header, the number of bytes
    that the largest count takes followed by the count in that many bytes,
    and then the elements one after the other.  For a count up to the
    largest one and elements that each go through their own lines, the
    decode lines give back the count and every element, from which the
    encode lines give the same bytes again.  The decode lines take the
    count in any width from 1 to 4 bytes, not only in the one that the
    encode lines write. *)
Theorem sequence_of_variable_codec (minimum maximum : Z) (element : codec)
  (values : list value) (chunks : list (list Z)) :
  minimum <> maximum -> 1 <= maximum < 2 ^ 32 ->
  Forall2 (element_codec element) values chunks ->
  Z.of_nat (length values) <= maximum ->
  let count := Z.of_nat (length values) in
  let n := (bit_length maximum + 7) / 8 in
  exists c,
    format_sequence_of_inner minimum maximum (Ok element) = Ok c
    /\ (1 <= n <= 4 /\ count < 2 ^ (8 * n))
    /\ (forall src e,
          as_Z (get_field "length" src) = count ->
          holds_elements values src ->
          encoder_ok e ->
          e_pos e
          + Z.of_nat (length (sequence_of_header n count ++ concat chunks))
          <= e_size e ->
          encode c src e
          = appended e (sequence_of_header n count ++ concat chunks))
    /\ (forall n' d rest dst,
          1 <= n' <= 4 -> count < 2 ^ (8 * n') ->
          decoder_ok d ->
          remaining d = sequence_of_header n' count ++ concat chunks ++ rest ->
          let dst' :=
            store_elements values 0 (set_field "length" (VInt count) dst) in
          decode c dst d
          = (false,
             advanced d
               (Z.of_nat
                  (length (sequence_of_header n' count ++ concat chunks))),
             dst')
          /\ as_Z (get_field "length" dst') = count
          /\ holds_elements values dst').
Proof.
  intros Hne Hmax Hall Hle count n.
  destruct (number_of_length_bytes_range maximum Hmax) as (Hn & Hpow).
  fold n in Hn, Hpow.
  assert (Hcount : 0 <= count < 2 ^ (8 * n)) by (subst count; lia).
  unfold format_sequence_of_inner. cbn [bind].
  destruct (Z.eqb_spec minimum maximum) as [| _]; [contradiction |].
  cbv zeta. fold n.
  eexists. split; [reflexivity |].
  split; [split; [exact Hn | apply Hcount] |].
  split.
  - intros src e Hlen Hsrc Hok Hfit. cbn [encode]. rewrite Hlen.
    destruct (integer_bytes_roundtrip count n Hn) as (Hbytes & Henc & _).
    rewrite length_app, Nat2Z.inj_add in Hfit.
    unfold sequence_of_header in *. cbn [length] in Hfit.
    rewrite (encoder_append_integer_8_ok e n Hok) by lia.
    rewrite (Z.mod_small n 256) by lia.
    rewrite (after_appended (fun e' => encoder_append_integer e' count n)
               e [n] (integer_bytes n count));
      [| intros e' Hok' Hfit'; apply Henc; [assumption | lia]
       | assumption | cbn [length]; lia].
    cbn [app]. subst count. rewrite Nat2Z.id.
    rewrite (encode_elements_appended element values chunks Hall).
    + apply appended_appended; [assumption | cbn [length]; lia].
    + intros k Hk. cbn [Nat.add]. apply Hsrc. exact Hk.
    + apply appended_ok; [assumption | cbn [length]; lia].
    + unfold appended. cbn [e_pos e_size length]. lia.
  - intros n' d rest dst Hn' Hcount' Hd Hrem.
    destruct (sequence_of_header_decode n' count d (concat chunks ++ rest)
                Hn' ltac:(subst count; lia) Hd Hrem)
      as (Hr1 & Hr2 & Hd2 & Hrem2 & Hlen).
    split; [| split].
    + cbn [decode]. rewrite Hr1, Hr2.
      destruct (Z.ltb_spec maximum count); [lia |].
      subst count. rewrite Nat2Z.id.
      rewrite (decode_elements_advanced element values chunks Hall
                 _ _ _ rest Hd2 Hrem2).
      rewrite advanced_advanced, length_app, Nat2Z.inj_add, Hlen.
      reflexivity.
    + rewrite store_elements_other_field by discriminate.
      rewrite get_set_field_same. reflexivity.
    + intros k Hk.
      exact (store_elements_get values 0 _ k Hk).
Qed.

Lemma sequence_of_variable_codec_witness :
  let values := [of_bool true; of_bool false] in
  let chunks := [[255]; [0]] in
  (0 <> 3 /\ 1 <= 3 < 2 ^ 32
   /\ Forall2 (element_codec format_boolean_inner) values chunks
   /\ Z.of_nat (length values) <= 3)
  /\ exists c, format_sequence_of_inner 0 3 (Ok format_boolean_inner) = Ok c.
Proof.
  intros values chunks.
  assert (Hne : 0 <> 3) by lia.
  assert (Hmax : 1 <= 3 < 2 ^ 32) by lia.
  assert (Hall : Forall2 (element_codec format_boolean_inner) values chunks).
  { constructor; [exact (boolean_element_codec true) |].
    constructor; [exact (boolean_element_codec false) | constructor]. }
  assert (Hle : Z.of_nat (length values) <= 3) by (simpl; lia).
  split; [exact (conj Hne (conj Hmax (conj Hall Hle))) |].
  destruct (sequence_of_variable_codec 0 3 format_boolean_inner values chunks
              Hne Hmax Hall Hle) as (c & Hc & _).
  exists c. exact Hc.
Defined.

(** X18: the decode lines of a SEQUENCE OF whose count varies reject a
    count above the largest one, as long as the [length] member holds the
    count that was read (it holds every count that the smallest unsigned
    type for the largest count holds): the count is stored, no element is
    read, the decoder holds [EBADLENGTH] and the function returns. *)
Theorem sequence_of_variable_rejects_count (minimum maximum : Z)
  (element : codec) (n count : Z) (d : decoder_t) (rest : list Z)
  (dst : value) :
  minimum <> maximum ->
  1 <= n <= 4 -> 0 <= count < 2 ^ (8 * n) ->
  fits (format_type_name 0 maximum) count ->
  maximum < count ->
  decoder_ok d -> remaining d = sequence_of_header n count ++ rest ->
  exists c,
    format_sequence_of_inner minimum maximum (Ok element) = Ok c
    /\ decode c dst d
       = (true, decoder_abort (advanced d (1 + n)) EBADLENGTH,
          set_field "length" (VInt count) dst)
    /\ decoder_get_result (decoder_abort (advanced d (1 + n)) EBADLENGTH)
       = - EBADLENGTH.
Proof.
  intros Hne Hn Hcount _ Hgt Hd Hrem.
  destruct (sequence_of_header_decode n count d rest Hn Hcount Hd Hrem)
    as (Hr1 & Hr2 & Hd2 & _ & _).
  unfold format_sequence_of_inner. cbn [bind].
  destruct (Z.eqb_spec minimum maximum) as [| _]; [contradiction |].
  cbv zeta. eexists. split; [reflexivity |]. split.
  - cbn [decode]. rewrite Hr1, Hr2.
    destruct (Z.ltb_spec maximum count); [reflexivity | lia].
  - unfold decoder_abort, decoder_get_result.
    destruct Hd2 as (Hpos & _).
    destruct (Z.leb_spec 0 (d_pos (advanced d (1 + n)))); [| lia].
    reflexivity.
Qed.

Lemma sequence_of_variable_rejects_count_witness :
  let d := decoder_init [1; 4; 255] 3 in
  (0 <> 3 /\ 1 <= 1 <= 4 /\ 0 <= 4 < 2 ^ (8 * 1)
   /\ fits (format_type_name 0 3) 4 /\ 3 < 4
   /\ decoder_ok d /\ remaining d = sequence_of_header 1 4 ++ [255])
  /\ exists c,
       format_sequence_of_inner 0 3 (Ok format_boolean_inner) = Ok c
       /\ decode c (VStruct []) d
          = (true, decoder_abort (advanced d (1 + 1)) EBADLENGTH,
             set_field "length" (VInt 4) (VStruct [])).
Proof.
  intros d.
  assert (Hne : 0 <> 3) by lia.
  assert (Hn : 1 <= 1 <= 4) by lia.
  assert (Hcount : 0 <= 4 < 2 ^ (8 * 1)) by (simpl; lia).
  assert (Hfits : fits (format_type_name 0 3) 4) by (simpl; lia).
  assert (Hgt : 3 < 4) by lia.
  destruct (decoder_init_ok [1; 4; 255]) as (Hd & Hrem); [simpl; lia |].
  assert (Hrem' : remaining d = sequence_of_header 1 4 ++ [255])
    by exact Hrem.
  split;
    [exact (conj Hne (conj Hn (conj Hcount (conj Hfits
              (conj Hgt (conj Hd Hrem')))))) |].
  destruct (sequence_of_variable_rejects_count 0 3 format_boolean_inner 1 4
              d [255] (VStruct []) Hne Hn Hcount Hfits Hgt Hd Hrem')
    as (c & Hc & Hdec & _).
  exists c. split; assumption.
Defined.

(** ** CHOICE: alternatives with their payload *)



Lemma case_of_name_unknown (cases : list (Z * attrs * codec)) (n : string) :
  ~ In n (map (fun x => name (snd (fst x))) cases) ->
  case_of_name n cases = None.
Proof.
  induction cases as [| [[t' a'] c'] rest IH]; intros Hnotin;
    cbn [case_of_name]; [reflexivity |].
  cbn [map fst snd] in Hnotin.
  destruct (String.eqb_spec n (name a')) as [Heq | _].
  - exfalso. apply Hnotin. left. symmetry. exact Heq.
  - apply IH. intros Hin. apply Hnotin. right. exact Hin.
Qed.

(** The cases of a choice that was generated, against its members. *)
Lemma choice_cases_of_members (members : list (attrs * result codec))
  (c : codec) :
  format_choice_inner members = Ok c ->
  exists cases,
    c = {| encode := fun src e => choice_encode cases src e;
           decode := fun dst d =>
             let '(d, tag_) := decoder_read_integer_8 d in
             choice_decode cases tag_ dst d |}
    /\ map (fun x => name (snd (fst x))) cases
       = map (fun m => name (fst m)) members
    /\ map (fun x => [fst (fst x)]) cases
       = map (fun m => tag (fst m)) members
    /\ forall a mc t, In (a, Ok mc) members -> tag a = [t] ->
         In (t, a, mc) cases.
Proof.
  intros Hc. unfold format_choice_inner in Hc.
  destruct (choice_members members) as [cases | ex] eqn:Hcases;
    cbn [bind] in Hc; [| discriminate].
  injection Hc as <-. exists cases. split; [reflexivity |].
  destruct (choice_members_tags members cases Hcases) as (Hmap & Htags).
  subst members. rewrite !map_map. cbn [fst snd].
  split; [reflexivity |]. split.
  - apply map_ext_in. intros x Hx.
    rewrite Forall_forall in Htags. symmetry. exact (Htags x Hx).
  - intros a mc t Hin Htag.
    apply in_map_iff in Hin. destruct Hin as ([[t' a'] c'] & Heq & Hin).
    cbn [fst snd] in Heq. injection Heq as -> ->.
    rewrite Forall_forall in Htags. pose proof (Htags _ Hin) as Ht.
    cbn [fst snd] in Ht. rewrite Htag in Ht. injection Ht as ->.
    exact Hin.
Qed.



(** X20: the encode lines of a CHOICE whose [choice] member holds an
    enumerator of no alternative store nothing: they end in
    [encoder_abort(.., EBADCHOICE)], so that an encoder in its normal state
    keeps its buffer and reports [-EBADCHOICE]. *)
Theorem choice_unknown_enumerator (members : list (attrs * result codec))
  (c : codec) (src : value) (e : encoder_t) (n : string) :
  format_choice_inner members = Ok c ->
  get_field "choice" src = VEnum n ->
  ~ In n (map (fun m => name (fst m)) members) ->
  encode c src e = encoder_abort e EBADCHOICE
  /\ (encoder_ok e ->
      e_buf_p (encode c src e) = e_buf_p e
      /\ encoder_get_result (encode c src e) = - EBADCHOICE).
Proof.
  intros Hc Hchoice Hnotin.
  destruct (choice_cases_of_members members c Hc)
    as (cases & -> & Hn & _ & _).
  rewrite <- Hn in Hnotin. cbn [encode].
  rewrite (choice_encode_default cases src e n Hchoice
             (case_of_name_unknown cases n Hnotin)).
  split; [reflexivity |].
  intros (Hpos & _). unfold encoder_abort, encoder_get_result.
  destruct (Z.leb_spec 0 (e_pos e)); [| lia].
  split; reflexivity.
Qed.

Lemma choice_unknown_enumerator_witness :
  let members :=
    [(mk_attrs "i" false None [0x01], Ok format_enumerated_inner);
     (mk_attrs "b" false None [0x02], Ok format_boolean_inner)] in
  let src := VStruct [("choice"%string, VEnum "x")] in
  let e := encoder_init (repeat 0 8%nat) 8 in
  (get_field "choice" src = VEnum "x"
   /\ ~ In "x"%string (map (fun m => name (fst m)) members))
  /\ exists c,
       format_choice_inner members = Ok c
       /\ encode c src e = encoder_abort e EBADCHOICE.
Proof.
  intros members src e.
  assert (Hc : exists c, format_choice_inner members = Ok c)
    by (eexists; reflexivity).
  destruct Hc as (c & Hc).
  assert (Hchoice : get_field "choice" src = VEnum "x") by reflexivity.
  assert (Hnotin : ~ In "x"%string (map (fun m => name (fst m)) members)).
  { cbn [map fst name members]. intros [H | [H | []]]; discriminate H. }
  split; [exact (conj Hchoice Hnotin) |].
  exists c. split; [exact Hc |].
  exact (proj1 (choice_unknown_enumerator members c src e "x"
                  Hc Hchoice Hnotin)).
Defined.

(** ** Which types get inner functions *)

(** Induction on compiled types, with the members of a sequence and of a
    choice. *)
Lemma type_induction (P : type_ -> Prop) :
  (forall a minimum maximum, P (Integer a minimum maximum)) ->
  (forall a, P (Boolean a)) ->
  (forall a fmt, P (Real a fmt)) ->
  (forall a, P (Null a)) ->
  (forall a type_name module_name, P (UserTypeRef a type_name module_name)) ->
  (forall a minimum maximum, P (OctetString a minimum maximum)) ->
  (forall a root_members, Forall P root_members ->
     P (Sequence a root_members)) ->
  (forall a root_members, Forall P root_members ->
     P (Choice a root_members)) ->
  (forall a minimum maximum element_type, P element_type ->
     P (SequenceOf a minimum maximum element_type)) ->
  (forall a, P (Enumerated a)) ->
  (forall a, P (UTF8String a)) ->
  (forall a type_name, P (OtherType a type_name)) ->
  forall type, P type.
Proof.
  intros HInteger HBoolean HReal HNull HUser HOctet HSequence HChoice
    HSequenceOf HEnumerated HUTF8 HOther.
  fix IH 1. intros [a minimum maximum | a | a fmt | a
                   | a type_name module_name | a minimum maximum
                   | a root_members | a root_members
                   | a minimum maximum element_type | a | a
                   | a type_name].
  - apply HInteger.
  - apply HBoolean.
  - apply HReal.
  - apply HNull.
  - apply HUser.
  - apply HOctet.
  - apply HSequence. induction root_members as [| m rest IHrest];
      constructor; [apply IH | exact IHrest].
  - apply HChoice. induction root_members as [| m rest IHrest];
      constructor; [apply IH | exact IHrest].
  - apply HSequenceOf. apply IH.
  - apply HEnumerated.
  - apply HUTF8.
  - apply HOther.
Qed.

Lemma choice_members_supported (env : string -> string -> codec)
  (root_members : list type_) :
  Forall (generated_or_not_implemented env) root_members ->
  if forallb
       (fun member =>
          supported member
          && (length (tag (attrs_of member)) =? 1)%nat) root_members
  then exists cases,
         choice_members
           (map (fun member => (attrs_of member, format_type_inner env member))
              root_members) = Ok cases
  else exists msg,
         choice_members
           (map (fun member => (attrs_of member, format_type_inner env member))
              root_members) = Raise (NotImplementedError msg).
Proof.
  induction 1 as [| m rest Hm _ IH]; cbn [forallb map choice_members].
  - eexists. reflexivity.
  - unfold generated_or_not_implemented in Hm.
    destruct (supported m); cbn [andb].
    + destruct Hm as (c & ->). cbn [bind].
      destruct (tag (attrs_of m)) as [| t [| t' more]]; cbn [length Nat.eqb].
      * eexists. reflexivity.
      * destruct (forallb _ rest).
        -- destruct IH as (cases & ->). eexists. reflexivity.
        -- destruct IH as (msg & ->). eexists. reflexivity.
      * eexists. reflexivity.
    + destruct Hm as (msg & ->). eexists. reflexivity.
Qed.

Lemma format_type_inner_cases (env : string -> string -> codec)
  (type : type_) :
  generated_or_not_implemented env type.
Proof.
  induction type as [a minimum maximum | a | a fmt | a
                    | a type_name module_name | a minimum maximum
                    | a root_members IH | a root_members IH
                    | a minimum maximum element_type IH | a | a
                    | a type_name] using type_induction;
    unfold generated_or_not_implemented;
    cbn [supported format_type_inner];
    try (eexists; reflexivity).
  - assert (Hmembers :
      if forallb supported root_members
      then exists cs,
        (fix members_inner (l : list type_) : result (list (attrs * codec)) :=
           match l with
           | [] => Ok []
           | member :: rest =>
               c <- format_type_inner env member ;;
               cs <- members_inner rest ;;
               Ok ((attrs_of member, c) :: cs)
           end) root_members = Ok cs
      else exists msg,
        (fix members_inner (l : list type_) : result (list (attrs * codec)) :=
           match l with
           | [] => Ok []
           | member :: rest =>
               c <- format_type_inner env member ;;
               cs <- members_inner rest ;;
               Ok ((attrs_of member, c) :: cs)
           end) root_members = Raise (NotImplementedError msg)).
    { induction IH as [| m rest Hm _ IHrest]; cbn [forallb].
      - eexists. reflexivity.
      - unfold generated_or_not_implemented in Hm.
        destruct (supported m); cbn [andb].
        + destruct Hm as (c & ->). cbn [bind].
          destruct (forallb supported rest).
          * destruct IHrest as (cs & ->). eexists. reflexivity.
          * destruct IHrest as (msg & ->). eexists. reflexivity.
        + destruct Hm as (msg & ->). eexists. reflexivity. }
    destruct (forallb supported root_members).
    + destruct Hmembers as (cs & ->). eexists. reflexivity.
    + destruct Hmembers as (msg & ->). eexists. reflexivity.
  - pose proof (choice_members_supported env root_members IH) as Hcases.
    unfold format_choice_inner.
    destruct (forallb _ root_members).
    + destruct Hcases as (cases & ->). eexists. reflexivity.
    + destruct Hcases as (msg & ->). eexists. reflexivity.
  - unfold generated_or_not_implemented in IH.
    unfold format_sequence_of_inner.
    destruct (supported element_type).
    + destruct IH as (c & ->). cbn [bind].
      destruct (minimum =? maximum); eexists; reflexivity.
    + destruct IH as (msg & ->). eexists. reflexivity.
Qed.

(** X21: inner functions are generated for supported shapes only.
    Whenever [format_type_inner] returns, the type holds no UTF8String and
    no type of another class anywhere inside it, and every alternative of
    every choice inside it has exactly one tag byte, however deep the
    nesting is. *)
Theorem format_type_inner_supported (env : string -> string -> codec)
  (type : type_) (c : codec) :
  format_type_inner env type = Ok c -> supported type = true.
Proof.
  intros Hc.
  pose proof (format_type_inner_cases env type) as H.
  unfold generated_or_not_implemented in H.
  destruct (supported type); [reflexivity |].
  destruct H as (msg & Hmsg). rewrite Hmsg in Hc. discriminate Hc.
Qed.

Lemma format_type_inner_supported_witness :
  exists c,
    format_type_inner no_user_types example_choice = Ok c
    /\ supported example_choice = true.
Proof.
  destruct example_choice_ok as (c & Hc).
  exists c. split; [exact Hc |].
  exact (format_type_inner_supported no_user_types example_choice c Hc).
Defined.

(** ** The main loop of [generate] *)

Lemma sort_user_types_in (user_types : list UserType) (u : UserType) :
  In u (sort_user_types_by_used_user_types user_types) <-> In u user_types.
Proof.
  assert (H : Permutation (sort_user_types_by_used_user_types user_types)
                user_types).
  { unfold sort_user_types_by_used_user_types.
    rewrite <- Permutation_rev, sort_fold_permutation, app_nil_r.
    reflexivity. }
  split; intros Hin.
  - exact (Permutation_in u H Hin).
  - exact (Permutation_in u (Permutation_sym H) Hin).
Qed.

Lemma insert_sorted_in {A : Type} (x y : string * A)
  (l : list (string * A)) :
  In x (insert_sorted y l) <-> x = y \/ In x l.
Proof.
  induction l as [| z rest IH]; cbn [insert_sorted].
  - cbn [In]. intuition congruence.
  - destruct (String.leb (fst y) (fst z)); cbn [In].
    + intuition congruence.
    + rewrite IH. intuition congruence.
Qed.

Lemma sorted_in {A : Type} (x : string * A) (items : list (string * A)) :
  In x (sorted items) <-> In x items.
Proof.
  unfold sorted. induction items as [| y rest IH]; cbn [fold_right In].
  - reflexivity.
  - rewrite insert_sorted_in, IH. intuition congruence.
Qed.

Lemma generate_user_type_some (G : Generator)
  (env : string -> string -> codec) (m n : string) (type : type_)
  (u : UserType) :
  generate_user_type env m n type = Ok (Some u) ->
  module_name u = m /\ type_name u = n
  /\ type_declaration u <> []
  /\ generate_type_declaration m n type = Ok (type_declaration u)
  /\ generate_definition_inner env type = Ok (definition_inner u)
  /\ used_user_types u = used_user_types_of type.
Proof.
  unfold generate_user_type.
  destruct (generate_type_declaration m n type) as [[| line lines] | e];
    cbn [bind]; try discriminate.
  destruct (generate_definition_inner env type) as [c | e];
    cbn [bind]; [| discriminate].
  intros [= <-].
  cbn [module_name type_name type_declaration definition_inner
       used_user_types].
  repeat split. discriminate.
Qed.

Lemma generate_user_type_none (G : Generator)
  (env : string -> string -> codec) (m n : string) (type : type_) :
  generate_user_type env m n type = Ok None ->
  generate_type_declaration m n type = Ok [].
Proof.
  unfold generate_user_type.
  destruct (generate_type_declaration m n type) as [[| line lines] | e];
    cbn [bind]; try discriminate; [reflexivity |].
  destruct (generate_definition_inner env type); cbn [bind]; discriminate.
Qed.

Lemma generate_types_units (G : Generator)
  (env : string -> string -> codec) (m : string)
  (types : list (string * type_)) :
  forall acc units,
    generate_types env m types acc = Ok units ->
    exists new,
      units = acc ++ new
      /\ Forall (fun u => module_name u = m
                   /\ exists type, In (type_name u, type) types
                        /\ generate_user_type env m (type_name u) type
                           = Ok (Some u)) new
      /\ forall n type line lines,
           In (n, type) types ->
           generate_type_declaration m n type = Ok (line :: lines) ->
           exists u, In u new /\ module_name u = m /\ type_name u = n.
Proof.
  induction types as [| [n type] rest IH]; intros acc units;
    cbn [generate_types].
  - intros [= <-]. exists []. rewrite app_nil_r.
    split; [reflexivity |]. split; [constructor |].
    intros n type line lines [].
  - destruct (generate_user_type env m n type) as [[u |] | e] eqn:Hu;
      cbn [bind]; [| | discriminate].
    + intros Hrest. destruct (IH _ _ Hrest) as (new & -> & Hall & Hcomplete).
      destruct (generate_user_type_some G env m n type u Hu)
        as (Hm & Hn & _).
      exists (u :: new). rewrite <- app_assoc. split; [reflexivity |].
      split.
      * constructor.
        -- split; [exact Hm |]. exists type. rewrite Hn.
           split; [left; reflexivity | exact Hu].
        -- eapply Forall_impl; [| exact Hall].
           intros u' (Hm' & type' & Hin' & Hu').
           split; [exact Hm' |]. exists type'.
           split; [right; exact Hin' | exact Hu'].
      * intros n' type' line lines [[= <- <-] | Hin] Hdecl.
        -- exists u. split; [left; reflexivity |]. split; assumption.
        -- destruct (Hcomplete n' type' line lines Hin Hdecl)
             as (u' & Hin' & Hrest').
           exists u'. split; [right; exact Hin' | exact Hrest'].
    + intros Hrest. destruct (IH _ _ Hrest) as (new & -> & Hall & Hcomplete).
      exists new. split; [reflexivity |]. split.
      * eapply Forall_impl; [| exact Hall].
        intros u' (Hm' & type' & Hin' & Hu').
        split; [exact Hm' |]. exists type'.
        split; [right; exact Hin' | exact Hu'].
      * intros n' type' line lines [[= <- <-] | Hin] Hdecl.
        -- rewrite (generate_user_type_none G env m n type Hu) in Hdecl.
           discriminate Hdecl.
        -- exact (Hcomplete n' type' line lines Hin Hdecl).
Qed.

Lemma generate_modules_units (G : Generator)
  (env : string -> string -> codec)
  (modules : list (string * list (string * type_))) :
  forall acc units,
    generate_modules env modules acc = Ok units ->
    exists new,
      units = acc ++ new
      /\ Forall (fun u => exists module type,
                   In (module_name u, module) modules
                   /\ In (type_name u, type) module
                   /\ generate_user_type env (module_name u) (type_name u)
                        type = Ok (Some u)) new
      /\ forall m module n type line lines,
           In (m, module) modules -> In (n, type) module ->
           generate_type_declaration m n type = Ok (line :: lines) ->
           exists u, In u new /\ module_name u = m /\ type_name u = n.
Proof.
  induction modules as [| [m module] rest IH]; intros acc units;
    cbn [generate_modules].
  - intros [= <-]. exists []. rewrite app_nil_r.
    split; [reflexivity |]. split; [constructor |].
    intros m module n type line lines [].
  - destruct (generate_types env m (sorted module) acc) as [mid | e] eqn:Hmid;
      cbn [bind]; [| discriminate].
    intros Hrest.
    destruct (generate_types_units G env m (sorted module) acc mid Hmid)
      as (new1 & -> & Hall1 & Hcomplete1).
    destruct (IH _ _ Hrest) as (new2 & -> & Hall2 & Hcomplete2).
    exists (new1 ++ new2). rewrite <- app_assoc. split; [reflexivity |].
    split.
    + apply Forall_app. split.
      * eapply Forall_impl; [| exact Hall1].
        intros u (Hm & type & Hin & Hu).
        exists module, type. rewrite Hm.
        split; [left; reflexivity |].
        split; [exact (proj1 (sorted_in _ _) Hin) | exact Hu].
      * eapply Forall_impl; [| exact Hall2].
        intros u (module' & type & Hin1 & Hin2 & Hu).
        exists module', type. split; [right; exact Hin1 |].
        split; assumption.
    + intros m' module' n type line lines [[= <- <-] | Hin] Hin' Hdecl.
      * apply (proj2 (sorted_in _ _)) in Hin'.
        destruct (Hcomplete1 n type line lines Hin' Hdecl)
          as (u & Hu & Hrest').
        exists u. split; [apply in_or_app; left; exact Hu | exact Hrest'].
      * destruct (Hcomplete2 m' module' n type line lines Hin Hin' Hdecl)
          as (u & Hu & Hrest').
        exists u. split; [apply in_or_app; right; exact Hu | exact Hrest'].
Qed.

(** X22: when [generate] returns, every unit it emits comes from an entry
    of the input: it carries the module and type name of the entry, the
    non-empty type declaration and the inner functions generated for the
    entry's type, and the user types recorded for it.  Conversely every
    entry whose type declaration is not empty has a unit in the output:
    ordering the units loses none. *)
Theorem generate_emitted_units (G : Generator)
  (env : string -> string -> codec)
  (modules : list (string * list (string * type_)))
  (units : list UserType) :
  generate env modules = Ok units ->
  Forall (emitted_from env modules) units
  /\ forall m module n type line lines,
       In (m, module) modules -> In (n, type) module ->
       generate_type_declaration m n type = Ok (line :: lines) ->
       exists u, In u units /\ module_name u = m /\ type_name u = n.
Proof.
  unfold generate.
  destruct (generate_modules env (sorted modules) []) as [mid | e] eqn:Hmid;
    cbn [bind]; [| discriminate].
  intros [= <-].
  destruct (generate_modules_units G env (sorted modules) [] mid Hmid)
    as (new & -> & Hall & Hcomplete).
  cbn [app]. split.
  - apply Forall_forall. intros u Hu.
    apply (proj1 (sort_user_types_in _ _)) in Hu.
    rewrite Forall_forall in Hall.
    destruct (Hall u Hu) as (module & type & Hin1 & Hin2 & Hgen).
    destruct (generate_user_type_some G env _ _ type u Hgen)
      as (_ & _ & Hne & Hdecl & Hdef & Hused).
    split; [exact Hne |]. exists module, type.
    split; [exact (proj1 (sorted_in _ _) Hin1) |].
    repeat split; assumption.
  - intros m module n type line lines Hin1 Hin2 Hdecl.
    apply (proj2 (sorted_in _ _)) in Hin1.
    destruct (Hcomplete m module n type line lines Hin1 Hin2 Hdecl)
      as (u & Hu & Hrest).
    exists u.
    split; [exact (proj2 (sort_user_types_in _ _) Hu) | exact Hrest].
Qed.

Lemma generate_emitted_units_witness :
  exists units,
    generate (G := example_generator) no_user_types chain_module = Ok units
    /\ Forall (emitted_from (G := example_generator) no_user_types
                 chain_module) units.
Proof.
  assert (H : exists units,
             generate (G := example_generator) no_user_types chain_module
             = Ok units) by (eexists; reflexivity).
  destruct H as (units & H). exists units. split; [exact H |].
  exact (proj1 (generate_emitted_units example_generator no_user_types
                  chain_module units H)).
Defined.


(** ** SEQUENCE without optional members *)








(** ** A latched error through the generated decode lines *)






Lemma present_mask_length_bound (members : list (attrs * codec)) :
  Z.of_nat (length members) < 2 ^ 62 ->
  0 <= Z.of_nat
         (Nat.div
            (length (filter (fun m : attrs * codec => in_optionals (fst m))
                       members) + 7) 8) < 2 ^ 62.
Proof.
  intros Hlen.
  pose proof (filter_length_le
                (fun m : attrs * codec => in_optionals (fst m)) members) as Hf.
  rewrite Nat2Z.inj_div, Nat2Z.inj_add. change (Z.of_nat 8) with 8.
  change (Z.of_nat 7) with 7.
  Z.div_mod_to_equations. lia.
Qed.








(** ** A latched error through the generated encode lines *)


Lemma get_field_bounded (f : string) (v : value) :
  scalars_bounded v = true -> scalars_bounded (get_field f v) = true.
Proof.
  destruct v as [z | n | fields | elements]; cbn [get_field];
    try reflexivity.
  cbn [scalars_bounded]. intros Hall.
  induction fields as [| [k x] rest IH]; cbn [assoc]; [reflexivity |].
  cbn [forallb snd] in Hall. apply andb_prop in Hall.
  destruct Hall as (Hx & Hrest).
  destruct (String.eqb f k); [exact Hx | exact (IH Hrest)].
Qed.

Lemma get_elem_bounded (i : nat) (v : value) :
  scalars_bounded v = true -> scalars_bounded (get_elem i v) = true.
Proof.
  destruct v as [z | n | fields | elements]; cbn [get_elem];
    try reflexivity.
  cbn [scalars_bounded]. intros Hall. rewrite forallb_forall in Hall.
  destruct (nth_in_or_default i elements (VInt 0)) as [Hin | ->];
    [exact (Hall _ Hin) | reflexivity].
Qed.

Lemma as_Z_bounded (v : value) :
  scalars_bounded v = true -> as_Z v < 2 ^ 62.
Proof.
  destruct v; cbn [scalars_bounded as_Z]; intros H;
    [apply Z.ltb_lt; exact H | lia | lia | lia].
Qed.

Lemma bytes_of_length_bounded (v : value) (size : Z) :
  size < 2 ^ 62 -> Z.of_nat (length (bytes_of v size)) < 2 ^ 62.
Proof. intros H. rewrite bytes_of_length. lia. Qed.











(** ** No store outside the output buffer: the encode lines *)

Lemma encoder_abort_safe (e : encoder_t) (error : Z) :
  encoder_safe e -> 0 < error < 2 ^ 62 ->
  encoder_safe (encoder_abort e error).
Proof.
  intros (Hstate & Hoob) Herr. unfold encoder_abort.
  destruct (Z.leb_spec 0 (e_pos e)); [| split; assumption].
  split; [| exact Hoob].
  right. unfold encoder_latched. cbn [e_pos e_size]. lia.
Qed.

Lemma encoder_append_integer_8_safe (e : encoder_t) (value : Z) :
  encoder_safe e -> encoder_safe (encoder_append_integer_8 e value).
Proof.
  intros Hs. unfold encoder_append_integer_8.
  apply encoder_append_bytes_safe; [exact Hs | cbn [length]; lia].
Qed.

Lemma encoder_append_integer_16_safe (e : encoder_t) (value : Z) :
  encoder_safe e -> encoder_safe (encoder_append_integer_16 e value).
Proof.
  intros Hs. unfold encoder_append_integer_16.
  apply encoder_append_bytes_safe; [exact Hs | cbn [length]; lia].
Qed.

Lemma encoder_append_integer_32_safe (e : encoder_t) (value : Z) :
  encoder_safe e -> encoder_safe (encoder_append_integer_32 e value).
Proof.
  intros Hs. unfold encoder_append_integer_32.
  apply encoder_append_bytes_safe; [exact Hs | cbn [length]; lia].
Qed.

Lemma encoder_append_integer_64_safe (e : encoder_t) (value : Z) :
  encoder_safe e -> encoder_safe (encoder_append_integer_64 e value).
Proof.
  intros Hs. unfold encoder_append_integer_64.
  apply encoder_append_bytes_safe; [exact Hs | cbn [length]; lia].
Qed.

Lemma encoder_append_integer_safe (e : encoder_t)
  (value number_of_bytes : Z) :
  encoder_safe e ->
  encoder_safe (encoder_append_integer e value number_of_bytes).
Proof.
  intros Hs. unfold encoder_append_integer. cbv zeta.
  destruct (_ =? 1); [apply encoder_append_integer_8_safe; exact Hs |].
  destruct (_ =? 2); [apply encoder_append_integer_16_safe; exact Hs |].
  destruct (_ =? 3);
    [apply encoder_append_integer_16_safe, encoder_append_integer_8_safe;
     exact Hs |].
  apply encoder_append_integer_32_safe; exact Hs.
Qed.

Lemma encoder_append_length_determinant_safe (e : encoder_t) (length : Z) :
  encoder_safe e ->
  encoder_safe (encoder_append_length_determinant e length).
Proof.
  intros Hs. unfold encoder_append_length_determinant. cbv zeta.
  destruct (_ <? 128); [apply encoder_append_integer_8_safe; exact Hs |].
  destruct (_ <? 256);
    [apply encoder_append_integer_8_safe, encoder_append_integer_8_safe;
     exact Hs |].
  destruct (_ <? 65536);
    [apply encoder_append_integer_16_safe, encoder_append_integer_8_safe;
     exact Hs |].
  destruct (_ <? 16777216);
    [apply encoder_append_integer_32_safe; exact Hs |].
  apply encoder_append_integer_32_safe, encoder_append_integer_8_safe;
    exact Hs.
Qed.

Lemma encode_members_safe (members : list (attrs * codec)) :
  Forall (fun m => encodes_safely (snd m)) members ->
  forall src e, scalars_bounded src = true -> encoder_safe e ->
    encoder_safe (encode_members members src e).
Proof.
  induction 1 as [| [a c] rest Hc _ IH]; intros src e Hsrc Hs;
    cbn [encode_members]; [exact Hs |].
  cbv zeta. cbn [snd] in Hc. apply IH; [exact Hsrc |].
  pose proof (Hc (get_field (name a) src) e
                (get_field_bounded _ _ Hsrc) Hs) as Hm.
  destruct (optional a); [destruct (as_bool _); assumption |].
  destruct (default a) as [dflt |]; [| exact Hm].
  destruct (negb _); assumption.
Qed.

Lemma format_sequence_inner_encodes_safely (members : list (attrs * codec)) :
  Z.of_nat (length members) < 2 ^ 62 ->
  Forall (fun m => encodes_safely (snd m)) members ->
  encodes_safely (format_sequence_inner members).
Proof.
  intros Hlen Hall src e Hsrc Hs. unfold format_sequence_inner.
  cbn [encode]. cbv zeta.
  apply encode_members_safe; [exact Hall | exact Hsrc |].
  destruct (0 <? _)%nat; [| exact Hs].
  apply encoder_append_bytes_safe; [exact Hs |].
  rewrite encode_present_mask_length, repeat_length.
  apply present_mask_length_bound. exact Hlen.
Qed.

Lemma choice_encode_safe (cases : list (Z * attrs * codec)) :
  Forall (fun x => encodes_safely (snd x)) cases ->
  forall src e, scalars_bounded src = true -> encoder_safe e ->
    encoder_safe (choice_encode cases src e).
Proof.
  induction 1 as [| [[t a] c] rest Hc _ IH]; intros src e Hsrc Hs;
    cbn [choice_encode].
  - apply encoder_abort_safe; [exact Hs | unfold EBADCHOICE; lia].
  - cbn [snd] in Hc.
    destruct (get_field "choice" src) as [z | n | fields | elements];
      try (apply IH; assumption).
    destruct (String.eqb n (name a)); [| apply IH; assumption].
    cbv zeta. apply Hc.
    + apply get_field_bounded, get_field_bounded. exact Hsrc.
    + apply encoder_append_integer_8_safe. exact Hs.
Qed.

Lemma choice_members_encode_safely (members : list (attrs * result codec)) :
  Forall (fun m => forall c, snd m = Ok c -> encodes_safely c) members ->
  forall cases, choice_members members = Ok cases ->
    Forall (fun x => encodes_safely (snd x)) cases.
Proof.
  induction 1 as [| [a r] rest Hm _ IH]; intros cases;
    cbn [choice_members].
  - intros [= <-]. constructor.
  - destruct r as [c | e]; cbn [bind]; [| discriminate].
    destruct (tag a) as [| t [| t' more]]; try discriminate.
    destruct (choice_members rest) as [cases' | e]; cbn [bind];
      [| discriminate].
    intros [= <-]. constructor; [exact (Hm c eq_refl) | exact (IH _ eq_refl)].
Qed.

Lemma encode_elements_safe (element : codec) :
  encodes_safely element ->
  forall count i src e, scalars_bounded src = true -> encoder_safe e ->
    encoder_safe (encode_elements element count i src e).
Proof.
  intros Hc. induction count as [| count IH]; intros i src e Hsrc Hs;
    cbn [encode_elements]; [exact Hs |].
  cbv zeta. apply IH; [exact Hsrc |]. apply Hc; [| exact Hs].
  apply get_elem_bounded, get_field_bounded. exact Hsrc.
Qed.

Lemma format_octet_string_inner_encodes_safely (minimum maximum : Z) :
  0 <= maximum < 2 ^ 62 ->
  encodes_safely (format_octet_string_inner minimum maximum).
Proof.
  intros Hmax src e Hsrc Hs.
  pose proof (as_Z_bounded _ (get_field_bounded "length" src Hsrc)) as Hlen.
  unfold format_octet_string_inner.
  destruct (minimum =? maximum); [| destruct (maximum <? 128)];
    cbn [encode]; cbv zeta.
  - apply encoder_append_bytes_safe; [exact Hs |].
    apply bytes_of_length_bounded. lia.
  - apply encoder_append_bytes_safe;
      [apply encoder_append_integer_8_safe; exact Hs |].
    apply bytes_of_length_bounded. exact Hlen.
  - apply encoder_append_bytes_safe;
      [apply encoder_append_length_determinant_safe; exact Hs |].
    apply bytes_of_length_bounded. exact Hlen.
Qed.

Lemma format_sequence_of_inner_encodes_safely (minimum maximum : Z)
  (element c : codec) :
  encodes_safely element ->
  format_sequence_of_inner minimum maximum (Ok element) = Ok c ->
  encodes_safely c.
Proof.
  intros Hel Hc src e Hsrc Hs.
  unfold format_sequence_of_inner in Hc. cbn [bind] in Hc.
  destruct (minimum =? maximum); injection Hc as <-; cbn [encode];
    cbv zeta; apply encode_elements_safe; try assumption.
  - apply encoder_append_integer_8_safe, encoder_append_integer_8_safe.
    exact Hs.
  - apply encoder_append_integer_safe, encoder_append_integer_8_safe.
    exact Hs.
Qed.

Lemma format_type_inner_encodes_safely (env : string -> string -> codec) :
  (forall type_name module_name,
     encodes_safely (env type_name module_name)) ->
  forall type, sizes_bounded type = true ->
    forall c, format_type_inner env type = Ok c -> encodes_safely c.
Proof.
  intros Henv type.
  induction type as [a minimum maximum | a | a fmt | a
                    | a type_name module_name | a minimum maximum
                    | a root_members IH | a root_members IH
                    | a minimum maximum element_type IH | a | a
                    | a type_name] using type_induction;
    cbn [sizes_bounded format_type_inner]; intros Hb c Hc;
    try discriminate Hc.
  - injection Hc as <-. intros src e Hsrc Hs.
    unfold format_integer_inner, encoder_append_integer_. cbn [encode].
    destruct (_ =? 8); [apply encoder_append_integer_8_safe; exact Hs |].
    destruct (_ =? 16); [apply encoder_append_integer_16_safe; exact Hs |].
    destruct (_ =? 32); [apply encoder_append_integer_32_safe; exact Hs |].
    apply encoder_append_integer_64_safe; exact Hs.
  - injection Hc as <-. intros src e Hsrc Hs.
    cbn [format_boolean_inner encode]. unfold encoder_append_bool.
    apply encoder_append_integer_8_safe. exact Hs.
  - injection Hc as <-. intros src e Hsrc Hs.
    unfold format_real_inner.
    destruct (match fmt with Some f => String.eqb f ">f" | None => false end);
      cbn [encode]; unfold encoder_append_float, encoder_append_double;
      [apply encoder_append_integer_32_safe
      | apply encoder_append_integer_64_safe]; exact Hs.
  - injection Hc as <-. intros src e Hsrc Hs. exact Hs.
  - injection Hc as <-. intros src e Hsrc Hs.
    cbn [format_user_type_inner encode].
    apply Henv; assumption.
  - injection Hc as <-. apply format_octet_string_inner_encodes_safely.
    apply andb_prop in Hb. destruct Hb as (H0 & H1).
    apply Z.leb_le in H0. apply Z.ltb_lt in H1. lia.
  - apply andb_prop in Hb. destruct Hb as (Hlen & Hall).
    apply Z.ltb_lt in Hlen.
    assert (Hmembers : forall members,
      (fix members_inner (l : list type_) : result (list (attrs * codec)) :=
         match l with
         | [] => Ok []
         | member :: rest =>
             c <- format_type_inner env member ;;
             cs <- members_inner rest ;;
             Ok ((attrs_of member, c) :: cs)
         end) root_members = Ok members ->
      length members = length root_members
      /\ Forall (fun m => encodes_safely (snd m)) members).
    { clear Hc Hlen. induction IH as [| m rest Hm _ IHrest];
        intros members.
      - intros [= <-]. split; [reflexivity | constructor].
      - cbn [forallb] in Hall. apply andb_prop in Hall.
        destruct Hall as (Hbm & Hbrest).
        destruct (format_type_inner env m) as [mc | e] eqn:Hmc;
          cbn [bind]; [| discriminate].
        match goal with
        | |- context [bind ?r _] => destruct r as [cs | e] eqn:Hcs
        end; cbn [bind]; [| discriminate].
        intros [= <-]. destruct (IHrest Hbrest cs eq_refl) as (Hl' & Hk).
        split; [cbn [length]; rewrite Hl'; reflexivity |].
        constructor; [exact (Hm Hbm mc eq_refl) | exact Hk]. }
    match type of Hc with
    | bind ?r _ = _ => destruct r as [members | e] eqn:Hm
    end; cbn [bind] in Hc; [| discriminate].
    injection Hc as <-.
    destruct (Hmembers members eq_refl) as (Hl' & Hk).
    apply format_sequence_inner_encodes_safely;
      [rewrite Hl'; exact Hlen | exact Hk].
  - unfold format_choice_inner in Hc.
    match type of Hc with
    | bind ?r _ = _ => destruct r as [cases | e] eqn:Hcases
    end; cbn [bind] in Hc; [| discriminate].
    injection Hc as <-.
    assert (Hk : Forall (fun x => encodes_safely (snd x)) cases).
    { apply (fun H => choice_members_encode_safely _ H cases Hcases).
      apply Forall_forall. intros x Hx.
      apply in_map_iff in Hx. destruct Hx as (m & <- & Hm).
      cbn [snd]. rewrite Forall_forall in IH.
      rewrite forallb_forall in Hb.
      exact (IH m Hm (Hb m Hm)). }
    intros src e Hsrc Hs. cbn [encode].
    apply choice_encode_safe; assumption.
  - destruct (format_type_inner env element_type) as [element | e] eqn:Hel.
    + exact (format_sequence_of_inner_encodes_safely minimum maximum element
               c (IH Hb element eq_refl) Hc).
    + discriminate Hc.
  - injection Hc as <-. intros src e Hsrc Hs.
    cbn [format_enumerated_inner encode].
    apply encoder_append_integer_8_safe. exact Hs.
Qed.

(** ** No read outside the input: the decode lines *)


























(** X27: the generated encode lines store nothing outside the output
    buffer.  For every type that gets inner functions, whatever the scalars
    of the source object are and however little room is left, the encode
    lines take a usable encoder to a usable one: in its normal state or
    holding an error, and without any store outside the output buffer.
    What the lines read from the source object is not part of this
    statement.  The user types referred to are taken to do the same, and
    the sizes to be sizes of C objects. *)
Theorem generated_encoders_stay_in_output (env : string -> string -> codec)
  (type : type_) (c : codec) :
  (forall type_name module_name,
     encodes_safely (env type_name module_name)) ->
  sizes_bounded type = true ->
  format_type_inner env type = Ok c ->
  forall src e, scalars_bounded src = true -> encoder_safe e ->
    encoder_safe (encode c src e).
Proof.
  intros Henv Hb Hc.
  exact (format_type_inner_encodes_safely env Henv type Hb c Hc).
Qed.

Lemma generated_encoders_stay_in_output_witness :
  let e := encoder_init [0] 1 in
  ((forall type_name module_name,
      encodes_safely (no_user_types type_name module_name))
   /\ sizes_bounded example_choice = true
   /\ scalars_bounded example_choice_src = true /\ encoder_safe e)
  /\ exists c,
       format_type_inner no_user_types example_choice = Ok c
       /\ encoder_safe (encode c example_choice_src e).
Proof.
  intros e.
  assert (Henv : forall type_name module_name,
            encodes_safely (no_user_types type_name module_name)).
  { intros t m src e' _ Hs. exact Hs. }
  assert (Hb : sizes_bounded example_choice = true) by reflexivity.
  assert (Hsrc : scalars_bounded example_choice_src = true) by reflexivity.
  assert (Hs : encoder_safe e).
  { split; [left | reflexivity].
    exact (encoder_init_ok [0] ltac:(simpl; lia)). }
  split; [exact (conj Henv (conj Hb (conj Hsrc Hs))) |].
  destruct example_choice_ok as (c & Hc).
  exists c. split; [exact Hc |].
  exact (generated_encoders_stay_in_output no_user_types example_choice c
           Henv Hb Hc example_choice_src e Hsrc Hs).
Defined.
